(** * The sFlow asynchronous resolver: caches, name rewriting, fan-in

    A shallow embedding of [plugins/inputs/network_flow/sflow/sflow.go]
    (the part that starts at [type cache struct]): the lock-protected
    string caches, the [dnsProcessor] name rewriter, the two backends
    [ipToFqdn] and [ifIndexToIfName], the job closures built by
    [dnsResolve] and [ifaceResolve], and the reference-counted completion
    protocol of [onResolve] driven by [resolve].

    Go strings are byte strings and are modelled by [string]; Go maps by
    [gmap string string]; the goroutines of one resolver by an interleaving
    step relation whose atomic steps are the critical sections of the
    source. *)

From Stdlib Require Import ZArith Lia String Ascii List Bool.
From stdpp Require Import base option list gmap strings.

Local Open Scope string_scope.
Local Open Scope Z_scope.

(** ** The parts of Go's [strings] package that the source calls *)

Module GoStrings.

(** [len(s)] *)
Definition len (s : string) : Z := Z.of_nat (String.length s).

Fixpoint Index_from (s substr : string) (i : Z) : Z :=
  if String.prefix substr s then i
  else match s with
       | EmptyString => -1
       | String _ s' => Index_from s' substr (i + 1)
       end.

(** [strings.Index(s, substr)]: first byte offset of [substr] in [s],
    or -1. *)
Definition Index (s substr : string) : Z := Index_from s substr 0.

Fixpoint LastIndex_from (s substr : string) (i : Z) : Z :=
  match s with
  | EmptyString => if String.prefix substr EmptyString then i else -1
  | String _ s' =>
      let r := LastIndex_from s' substr (i + 1) in
      if 0 <=? r then r
      else if String.prefix substr s then i else -1
  end.

(** [strings.LastIndex(s, substr)]: last byte offset of [substr] in [s],
    or -1. *)
Definition LastIndex (s substr : string) : Z := LastIndex_from s substr 0.

(** [s[lo:hi]]; [None] is the run-time panic "slice bounds out of
    range". *)
Definition slice (s : string) (lo hi : Z) : option string :=
  if (0 <=? lo) && (lo <=? hi) && (hi <=? len s)
  then Some (String.substring (Z.to_nat lo) (Z.to_nat (hi - lo)) s)
  else None.

(** [s[lo:]] *)
Definition slice_from (s : string) (lo : Z) : option string :=
  slice s lo (len s).

End GoStrings.

(** ** The interface of Go's [regexp] package

    The regular-expression engine is the Go standard library's, not this
    repository's.  The source uses four of its operations; they are taken
    as an interface.  [MustCompile] answers [None] where Go panics; a
    [[]byte] is modelled by [string], as Go strings are byte strings. *)

Class RegexpPkg := {
  Regexp : Type;
  MustCompile : string -> option Regexp;
  FindAllStringSubmatchIndex : Regexp -> string -> Z -> list (list Z);
  ExpandString : Regexp -> string -> string -> string -> list Z -> string
}.

(** What Go documents of [Expand]: it "appends template to dst and returns
    the result". *)
Definition ExpandString_appends `{RegexpPkg} : Prop :=
  forall re dst template src m,
    ExpandString re dst template src m
    = dst +:+ ExpandString re "" template src m.

(** ** [cache]: a mutex-protected [map[string]string]

    Every method holds [c.mux] for its whole body, so each is one atomic
    step on the map. *)

Module cache.

(** [c.data[key]]: a missing key reads as Go's zero value, the empty
    string. *)
Definition get (c : gmap string string) (key : string) : string :=
  default "" (c !! key).

Definition set (c : gmap string string) (key value : string)
  : gmap string string :=
  <[key := value]> c.

Definition clear (c : gmap string string) : gmap string string := ∅.

Definition newCache : gmap string string := ∅.

End cache.

(** ** [dnsProcessor] *)

Section DnsProcessor.

Context `{RegexpPkg}.

Record dnsProcessor := mkDnsProcessor {
  rePattern : option Regexp;   (* nil pointer = None *)
  template : string
}.

(** [newDNSProcessor]; [None] is a panic (of [MustCompile], or of a
    slice expression). *)
Definition newDNSProcessor (processString : string) : option dnsProcessor :=
  if decide (processString = "") then Some (mkDnsProcessor None "")
  else
    let loc := GoStrings.Index processString "s/" in
    let endLoc := GoStrings.LastIndex processString "/" in
    '(re, template) ←
      (if (loc =? 0) && (loc + 1 <? endLoc) then
         re ← GoStrings.slice processString (loc + 2) endLoc;
         template ← GoStrings.slice_from processString (endLoc + 1);
         Some (re, template)
       else Some (processString, "$1$2$3$4$5"));
    rx ← MustCompile re;
    Some (mkDnsProcessor (Some rx) template).

(** The loop body of [transform]: one iteration appends one expansion
    and sets [expanded]. *)
Definition transform_step (re : Regexp) (template name : string)
    (acc : string * bool) (submatches : list Z) : string * bool :=
  (ExpandString re (fst acc) template name submatches, true).

Definition transform (p : dnsProcessor) (name : string) : string :=
  match rePattern p with
  | None => name
  | Some re =>
      let '(result, expanded) :=
        fold_left (transform_step re (template p) name)
                  (FindAllStringSubmatchIndex re name (-1))
                  ("", false) in
      if negb expanded then name else result
  end.

End DnsProcessor.

Arguments dnsProcessor {_}.

(** ** The network, as the two backends see it

    [net.Resolver.LookupAddr] and the [gosnmp] client talk to the outside
    world.  Their answers are taken from an environment [Env] that each
    operation may read and change, so a lookup may answer differently each
    time it is made. *)

(** The fields of the process-wide client [gosnmp.Default] that
    [ifIndexToIfName] assigns before it connects. *)
Record GoSNMP := mkGoSNMP {
  Target : string;
  Community : string;
  Timeout : Z;         (* a [time.Duration], in nanoseconds *)
  Retries : Z
}.

(** A protocol data unit handed to the walk function.  [gosnmp] decodes a
    PDU of type [OctetString] with a [[]byte] value, so the type assertion
    [pdu.Value.([]byte)] of the source cannot fail; PDUs of any other type
    carry no value that the source looks at. *)
Inductive SnmpPDU :=
  | OctetStringPDU (Name : string) (Value : string)
  | OtherPDU (Name : string).

(** A Go [error] value; [None] is [nil]. *)
Definition error := option string.

Class Network := {
  Env : Type;
  (** [resolver.LookupAddr(ctx, addr)] under a deadline in milliseconds:
      the names and the error *)
  LookupAddr : Z -> string -> Env -> (list string * error) * Env;
  (** [gosnmp.Default.Connect()] *)
  Connect : GoSNMP -> Env -> error * Env;
  (** [gosnmp.Default.BulkWalk(oid, walkFn)]: the PDUs handed to [walkFn],
      in order, and the error the walk ends with.  A walk that fails part
      way has handed over the rows it received before the failure. *)
  BulkWalk : GoSNMP -> string -> Env -> (list SnmpPDU * error) * Env
}.

Section Backends.

Context `{Network}.

(** What a backend function can touch: the shared client and the
    environment. *)
Record Net := mkNet {
  Default : GoSNMP;
  env : Env
}.

Definition ipToFqdn (ipAddress : string) (n : Net) : string * Net :=
  let '(names, err, e) := LookupAddr 10000 ipAddress (env n) in
  let fqdn := ipAddress in
  let fqdn :=
    match err with
    | None => match names with
              | name0 :: _ => name0
              | [] => fqdn
              end
    | Some _ => fqdn
    end in
  (fqdn, mkNet (Default n) e).

(** The function literal passed to [BulkWalk]; it always returns [nil],
    so the walk is never cut short by it. *)
Definition walkFn (pduNameToFind : string) (acc : string * bool)
    (pdu : SnmpPDU) : string * bool :=
  match pdu with
  | OctetStringPDU name b =>
      if decide (name = pduNameToFind) then (b, true) else acc
  | OtherPDU _ => acc
  end.

Definition second : Z := 1000000000.

(** [ifIndexToIfName] runs under [ifIndexToIfNameMux]; the error of
    [Connect] is logged and otherwise ignored, and so is the error of
    the walk.  The deferred [gosnmp.Default.Conn.Close()] acts on the
    connection alone and is left out. *)
Definition ifIndexToIfName (id : Z) (community snmpAgentIP ifIndex : string)
    (n : Net) : string * Net :=
  let oid := "1.3.6.1.2.1.31.1.1.1.1" in
  let d := Default n in
  let d := mkGoSNMP snmpAgentIP (Community d) (Timeout d) (Retries d) in
  let d := if decide (community = "") then d
           else mkGoSNMP (Target d) community (Timeout d) (Retries d) in
  let d := mkGoSNMP (Target d) (Community d) (20 * second) (Retries d) in
  let d := mkGoSNMP (Target d) (Community d) (Timeout d) 5 in
  let '(_, e) := Connect d (env n) in
  let '(result, found) := (ifIndex, false) in
  let pduNameToFind := "." +:+ oid +:+ "." +:+ ifIndex in
  let '(pdus, err, e) := BulkWalk d oid e in
  let '(result, found) :=
    fold_left (walkFn pduNameToFind) pdus (result, found) in
  (result, mkNet d e).

End Backends.

(** ** Records

    Modelled from the spec: the type [telegraf.Metric] is declared outside
    the source file; the spec describes it as an "opaque telemetry entry
    with a mutable, string-keyed, string-valued tag set (keys unique)".
    [GetTag] answers the value and whether the key is present; [AddTag]
    sets the key. *)
Module Metric.

Definition GetTag (m : gmap string string) (key : string) : option string :=
  m !! key.

Definition AddTag (m : gmap string string) (key value : string)
  : gmap string string :=
  <[key := value]> m.

End Metric.

(** ** Machine integers *)

(** Go's [int] on a 64-bit platform: two's complement wrap-around. *)
Definition wrap_int (x : Z) : Z := (x + 2 ^ 63) mod 2 ^ 64 - 2 ^ 63.

(** [uint64] wrap-around. *)
Definition wrap_uint64 (x : Z) : Z := x mod 2 ^ 64.

(** ** [asyncResolver] *)

(** A call of one of the two backend function fields, kept in a history
    so that theorems can say whether a lookup went to the backend. *)
Inductive BackendCall :=
  | CallIpToFqdn (ip : string)
  | CallIfIndexToIfName (id : Z) (community snmpAgentIP ifIndex : string).

Section Resolver.

Context `{RegexpPkg}.

(** The state a backend function works on ([Net] for the real ones, any
    type for a substitute installed in the function fields). *)
Context {B : Type}.

(** The immutable fields of [asyncResolver]. *)
Record asyncResolver := mkAsyncResolver {
  dns : bool;
  snmpIfaces : bool;
  snmpCommunity : string;
  dnsp : dnsProcessor;
  ipToFqdnFn : string -> B -> string * B;
  ifIndexToIfNameFn : Z -> string -> string -> string -> B -> string * B
}.

(** What the resolver's jobs read and write: the two caches behind the
    pointers [dnsCache] and [ifaceCache], the package variable [ops],
    the backend's state, and the history of backend calls. *)
Record world := mkWorld {
  dnsCache : gmap string string;
  ifaceCache : gmap string string;
  ops : Z;
  backend : B;
  history : list BackendCall
}.

(** [resolveDNS]; the continuation [resolved] is called exactly once, in
    tail position, with the value returned here. *)
Definition resolveDNS (r : asyncResolver) (ipAddress : string) (w : world)
  : string * world :=
  let fqdn := cache.get (dnsCache w) ipAddress in
  if decide (fqdn = "") then
    let '(name, b) := ipToFqdnFn r ipAddress (backend w) in
    let fqdn := transform (dnsp r) name in
    (fqdn,
     mkWorld (cache.set (dnsCache w) ipAddress fqdn) (ifaceCache w) (ops w)
             b (history w ++ [CallIpToFqdn ipAddress]))
  else (fqdn, w).

(** [fmt.Sprintf("%s-%s", agentIP, ifaceIndex)] *)
Definition ifaceKey (agentIP ifaceIndex : string) : string :=
  agentIP +:+ "-" +:+ ifaceIndex.

(** [resolveIFace]; as for [resolveDNS], the value passed to [resolved]
    is the value returned. *)
Definition resolveIFace (r : asyncResolver) (ifaceIndex agentIP : string)
    (w : world) : string * world :=
  let id := wrap_uint64 (ops w + 1) in
  let name := cache.get (ifaceCache w) (ifaceKey agentIP ifaceIndex) in
  if decide (name = "") then
    let '(name, b) :=
      ifIndexToIfNameFn r id (snmpCommunity r) agentIP ifaceIndex
                        (backend w) in
    (name,
     mkWorld (dnsCache w)
             (cache.set (ifaceCache w) (ifaceKey agentIP ifaceIndex) name)
             id b
             (history w ++
                [CallIfIndexToIfName id (snmpCommunity r) agentIP ifaceIndex]))
  else (name, mkWorld (dnsCache w) (ifaceCache w) id (backend w) (history w)).

End Resolver.

Arguments asyncResolver {_} B.
Arguments world B : clear implicits.

(** ** [onResolve]: the completion counter

    [increment] and [decrement] hold [or.mux] for their whole body.  The
    closure [done] is [func() { onResolveFn(m) }]: [fired] lists, for each
    time it ran, the tag set of the record [m] that [onResolveFn] was
    handed. *)

Record onResolve := mkOnResolve {
  counter : Z;
  fired : list (gmap string string)
}.

Definition decrement (m : gmap string string) (o : onResolve) : onResolve :=
  let c := wrap_int (counter o - 1) in
  mkOnResolve c (if c =? 0 then fired o ++ [m] else fired o).

Definition increment (o : onResolve) : onResolve :=
  mkOnResolve (wrap_int (counter o + 1)) (fired o).

(** ** Jobs and calls of [resolve] *)

(** An [asyncJob] is a closure; the two function literals of the source
    are its two constructors, with the variables they capture besides the
    resolver, the record and the counter of their call. *)
Inductive asyncJob :=
  | DNSJob (value dstTag : string)             (* built by [dnsResolve] *)
  | IFaceJob (value agentIP dstTag : string).  (* built by [ifaceResolve] *)

(** One call of [resolve] in progress.  [pc] counts the statements of
    [resolve] already executed after the first: 0 to 2 the three
    [dnsResolve], 3 the [GetTag] of the agent address, 4 to 6 the three
    [ifaceResolve], 7 the final [or.decrement()], 8 returned.  [inflight]
    holds the jobs sent on [fnWorkerChannel] whose closure has not run to
    its end.  The last three fields are history only: the record as it was
    passed in, and the jobs sent and finished so far. *)
Record call := mkCall {
  m : gmap string string;
  or : onResolve;
  pc : nat;
  agentIP : string;
  inflight : list asyncJob;
  m0 : gmap string string;
  submitted : list asyncJob;
  finished : list asyncJob
}.

Definition set_pc (n : nat) (c : call) : call :=
  mkCall (m c) (or c) n (agentIP c) (inflight c) (m0 c) (submitted c)
         (finished c).

Definition set_agentIP (a : string) (c : call) : call :=
  mkCall (m c) (or c) (pc c) a (inflight c) (m0 c) (submitted c) (finished c).

(** [or.increment()] followed by [r.fnWorkerChannel <- fn] *)
Definition send (fn : asyncJob) (c : call) : call :=
  mkCall (m c) (increment (or c)) (pc c) (agentIP c) (inflight c ++ [fn])
         (m0 c) (submitted c ++ [fn]) (finished c).

Section Resolve.

Context `{RegexpPkg}.
Context {B : Type}.
Implicit Types (r : asyncResolver B) (c : call) (w : world B).

Definition dnsResolve r (srcTag dstTag : string) c : call :=
  match Metric.GetTag (m c) srcTag with
  | Some value => if dns r then send (DNSJob value dstTag) c else c
  | None => c
  end.

Definition ifaceResolve r (srcTag dstTag agentIP : string) c : call :=
  match Metric.GetTag (m c) srcTag with
  | Some value =>
      if snmpIfaces r then send (IFaceJob value agentIP dstTag) c else c
  | None => c
  end.

(** The state of a call when [resolve] has built its counter. *)
Definition enter (record : gmap string string) : call :=
  mkCall record (mkOnResolve 1 []) 0 "" [] record [] [].

(** The next statement of [resolve], run by the calling goroutine. *)
Definition resolve_step r c : call :=
  match pc c with
  | 0%nat => set_pc 1 (dnsResolve r "agent_ip" "host" c)
  | 1%nat => set_pc 2 (dnsResolve r "src_ip" "src_host" c)
  | 2%nat => set_pc 3 (dnsResolve r "dst_ip" "dst_host" c)
  | 3%nat => match Metric.GetTag (m c) "agent_ip" with
             | Some a => set_pc 4 (set_agentIP a c)
             | None => set_pc 7 c
             end
  | 4%nat =>
      set_pc 5 (ifaceResolve r "source_id_index" "source_id_name" (agentIP c) c)
  | 5%nat =>
      set_pc 6 (ifaceResolve r "netif_index_out" "netif_name_out" (agentIP c) c)
  | 6%nat =>
      set_pc 7 (ifaceResolve r "netif_index_in" "netif_name_in" (agentIP c) c)
  | 7%nat =>
      set_pc 8 (mkCall (m c) (decrement (m c) (or c)) (pc c) (agentIP c)
                       (inflight c) (m0 c) (submitted c) (finished c))
  | _ => c
  end.

(** The continuation both kinds of job hand to the backend:
    [m.AddTag(dstTag, name)] then [or.decrement()]. *)
Definition resolved (dstTag name : string) c : call :=
  let m' := Metric.AddTag (m c) dstTag name in
  mkCall m' (decrement m' (or c)) (pc c) (agentIP c) (inflight c) (m0 c)
         (submitted c) (finished c).

(** The worker runs the job [fn] of the call [c]. *)
Definition run_job r (fn : asyncJob) w c : world B * call :=
  match fn with
  | DNSJob value dstTag =>
      let '(fqdn, w') := resolveDNS r value w in
      (w', resolved dstTag fqdn c)
  | IFaceJob value agentIP dstTag =>
      let '(name, w') := resolveIFace r value agentIP w in
      (w', resolved dstTag name c)
  end.

(** The worker takes the [k]-th unfinished job of the call and runs it to
    its end. *)
Definition worker_step r (k : nat) w c : option (world B * call) :=
  fn ← inflight c !! k;
  let '(w', c') := run_job r fn w c in
  Some (w', mkCall (m c') (or c') (pc c') (agentIP c') (delete k (inflight c'))
                   (m0 c') (submitted c') (finished c' ++ [fn])).

(** [resolve] run without interruption: the call as it stands when
    [resolve] returns, if no job of it has finished by then.  [resolve]
    is at most eight statements; [resolve_step] does nothing once it has
    returned. *)
Definition resolve r (record : gmap string string) : call :=
  Nat.iter 8 (resolve_step r) (enter record).

(** *** The resolver and its goroutines

    The state of a started resolver is its [world], the calls of
    [resolve] made so far, and its two tickers: [Some d] for a ticker of
    period [d] that [start] made and [stop] has not stopped.  One step is
    one of: a goroutine enters [resolve] with a record; a calling
    goroutine runs its next statement; the worker runs one job; a ticker
    fires and its goroutine clears its cache; [stop] is called.  The
    worker may take the pending jobs in any order, which covers every
    order the channel can deliver them in. *)

Record system := mkSystem {
  sys_world : world B;
  sys_calls : list call;
  dnsTTLTicker : option Z;
  ifaceTTLTicker : option Z
}.

Inductive label :=
  | Enter (record : gmap string string)
  | Caller (i : nat)
  | Worker (i k : nat)
  | TickDNS
  | TickIFace
  | Stop.

Definition step r (l : label) (s : system) : option system :=
  match l with
  | Enter record =>
      Some (mkSystem (sys_world s) (sys_calls s ++ [enter record])
                     (dnsTTLTicker s) (ifaceTTLTicker s))
  | Caller i =>
      c ← sys_calls s !! i;
      if (pc c <? 8)%nat
      then Some (mkSystem (sys_world s) (<[i := resolve_step r c]> (sys_calls s))
                          (dnsTTLTicker s) (ifaceTTLTicker s))
      else None
  | Worker i k =>
      c ← sys_calls s !! i;
      '(w', c') ← worker_step r k (sys_world s) c;
      Some (mkSystem w' (<[i := c']> (sys_calls s))
                     (dnsTTLTicker s) (ifaceTTLTicker s))
  | TickDNS =>
      _ ← dnsTTLTicker s;
      let w := sys_world s in
      Some (mkSystem (mkWorld (cache.clear (dnsCache w)) (ifaceCache w)
                              (ops w) (backend w) (history w))
                     (sys_calls s) (dnsTTLTicker s) (ifaceTTLTicker s))
  | TickIFace =>
      _ ← ifaceTTLTicker s;
      let w := sys_world s in
      Some (mkSystem (mkWorld (dnsCache w) (cache.clear (ifaceCache w))
                              (ops w) (backend w) (history w))
                     (sys_calls s) (dnsTTLTicker s) (ifaceTTLTicker s))
  | Stop => Some (mkSystem (sys_world s) (sys_calls s) None None)
  end.

Fixpoint run r (ls : list label) (s : system) : option system :=
  match ls with
  | [] => Some s
  | l :: ls' => s' ← step r l s; run r ls' s'
  end.

(** [time.NewTicker(d)] for a duration that is not zero; it panics
    ([None]) when the duration is negative. *)
Definition NewTicker (d : Z) : option Z :=
  if d <? 0 then None else Some d.

(** [start] on a resolver fresh from [newAsyncResolver], in a process whose
    backends are in state [b]: empty caches, [ops] at zero, no call yet, a
    ticker for each duration that is not zero.  [None] is the panic of
    [NewTicker]. *)
Definition start (dnsTTL snmpTTL : Z) (b : B) : option system :=
  dnsTTLTicker ← (if dnsTTL =? 0 then Some None
                  else t ← NewTicker dnsTTL; Some (Some t));
  ifaceTTLTicker ← (if snmpTTL =? 0 then Some None
                    else t ← NewTicker snmpTTL; Some (Some t));
  Some (mkSystem (mkWorld cache.newCache cache.newCache 0 b []) []
                 dnsTTLTicker ifaceTTLTicker).

(** The states a started resolver can be in. *)
Definition reachable r (dnsTTL snmpTTL : Z) (b : B) (s : system) : Prop :=
  exists s0 ls, start dnsTTL snmpTTL b = Some s0 /\ run r ls s0 = Some s.

End Resolve.

(** [newAsyncResolver]: the resolver with the two real backends in its
    function fields; [None] where [newDNSProcessor] panics. *)
Definition newAsyncResolver `{RegexpPkg} `{Network}
    (dnsResolve : bool) (dnsMultiProcessor : string)
    (snmpResolve : bool) (snmpCommunity : string)
  : option (asyncResolver Net) :=
  p ← newDNSProcessor dnsMultiProcessor;
  Some (mkAsyncResolver dnsResolve snmpResolve snmpCommunity p
                        ipToFqdn ifIndexToIfName).

(** ** An executable instance of the [regexp] interface

    A backtracking matcher for a fragment of Go's regular-expression
    syntax on ASCII input: literals, [.], escaped punctuation, [\d],
    bracket classes with ranges, grouping with and without capture,
    alternation, and the greedy [*], [+] and [?].  Alternatives and
    repetitions are tried in the order of preference of Go's
    leftmost-first matching.  A pattern outside the fragment is rejected.
    The instance serves to evaluate the rewriter on concrete names; the
    theorems about [transform] hold for every instance of the interface. *)

Module RE2Fragment.

Local Open Scope list_scope.

Inductive re :=
  | Empty
  | Lit (c : ascii)
  | AnyNotNL
  | Class (negated : bool) (ranges : list (ascii * ascii))
  | Cat (r1 r2 : re)
  | Alt (r1 r2 : re)
  | Star (r : re)
  | Group (i : nat) (r : re).

Definition in_range (x : ascii) (lohi : ascii * ascii) : bool :=
  (nat_of_ascii (fst lohi) <=? nat_of_ascii x)%nat
  && (nat_of_ascii x <=? nat_of_ascii (snd lohi))%nat.

Definition in_class (negated : bool) (ranges : list (ascii * ascii))
    (x : ascii) : bool :=
  xorb negated (existsb (in_range x) ranges).

Definition cont := list ascii -> Z -> list Z -> option (list Z).

(** [mt r rest pos caps k]: match [r] at offset [pos], where [rest] is
    the input from [pos] on, then continue with [k]; the first success
    in preference order wins.  [caps] is the array of submatch offsets,
    -1 where unset. *)
Fixpoint mt (r : re) (rest : list ascii) (pos : Z) (caps : list Z)
    (k : cont) {struct r} : option (list Z) :=
  match r with
  | Empty => k rest pos caps
  | Lit c =>
      match rest with
      | x :: rest' => if Ascii.eqb x c then k rest' (pos + 1) caps else None
      | [] => None
      end
  | AnyNotNL =>
      match rest with
      | x :: rest' =>
          if Ascii.eqb x "010"%char then None else k rest' (pos + 1) caps
      | [] => None
      end
  | Class negated ranges =>
      match rest with
      | x :: rest' =>
          if in_class negated ranges x then k rest' (pos + 1) caps else None
      | [] => None
      end
  | Cat r1 r2 =>
      mt r1 rest pos caps (fun rest' pos' caps' => mt r2 rest' pos' caps' k)
  | Alt r1 r2 =>
      match mt r1 rest pos caps k with
      | Some c => Some c
      | None => mt r2 rest pos caps k
      end
  | Star r1 =>
      (fix star (n : nat) (rest : list ascii) (pos : Z) (caps : list Z)
         : option (list Z) :=
         match n with
         | O => k rest pos caps
         | S n' =>
             match mt r1 rest pos caps
                      (fun rest' pos' caps' =>
                         if pos' =? pos then None
                         else star n' rest' pos' caps') with
             | Some c => Some c
             | None => k rest pos caps
             end
         end) (S (length rest)) rest pos caps
  | Group i r1 =>
      mt r1 rest pos (<[(2 * i)%nat := pos]> caps)
         (fun rest' pos' caps' =>
            k rest' pos' (<[(2 * i + 1)%nat := pos']> caps'))
  end.

(** A compiled expression: the program and the number of capture
    groups. *)
Record regexp := mkRegexp {
  prog : re;
  numSubexp : nat
}.

(** The leftmost match at or after [pos]. *)
Fixpoint search (rx : regexp) (rest : list ascii) (pos : Z)
  : option (list Z) :=
  let caps := <[0%nat := pos]> (replicate (2 * (numSubexp rx + 1)) (-1)) in
  match mt (prog rx) rest pos caps
           (fun _ pos' caps' => Some (<[1%nat := pos']> caps')) with
  | Some c => Some c
  | None =>
      match rest with
      | [] => None
      | _ :: rest' => search rx rest' (pos + 1)
      end
  end.

(** The loop of [allMatches]: [fuel] bounds its iterations, of which
    there are at most one per offset of the input and one more. *)
Fixpoint allMatches (fuel : nat) (rx : regexp) (s : list ascii)
    (pos i prevMatchEnd n : Z) : list (list Z) :=
  match fuel with
  | O => []
  | S fuel' =>
      let end_ := Z.of_nat (length s) in
      if (i <? n) && (pos <=? end_) then
        match search rx (drop (Z.to_nat pos) s) pos with
        | None => []
        | Some matches =>
            let m0 := default (-1) (matches !! 0%nat) in
            let m1 := default (-1) (matches !! 1%nat) in
            let accept := negb ((m1 =? pos) && (m0 =? prevMatchEnd)) in
            let pos' := if m1 =? pos
                        then (if pos <? end_ then pos + 1 else end_ + 1)
                        else m1 in
            if accept
            then matches :: allMatches fuel' rx s pos' (i + 1) m1 n
            else allMatches fuel' rx s pos' i m1 n
        end
      else []
  end.

Definition findAll (rx : regexp) (s : string) (n : Z) : list (list Z) :=
  let l := list_ascii_of_string s in
  let n := if n <? 0 then Z.of_nat (length l) + 1 else n in
  allMatches (length l + 2) rx l 0 0 (-1) n.

(** *** Template expansion *)

Definition is_word (x : ascii) : bool :=
  in_class false [("0", "9"); ("a", "z"); ("A", "Z"); ("_", "_")]%char x.

Definition is_digit (x : ascii) : bool := in_range x ("0", "9")%char.

Fixpoint span (p : ascii -> bool) (l : list ascii)
  : list ascii * list ascii :=
  match l with
  | x :: l' => if p x then let '(a, b) := span p l' in (x :: a, b)
               else ([], l)
  | [] => ([], [])
  end.

(** The group number a name denotes, or -1. *)
Definition parse_num (name : list ascii) : Z :=
  let num :=
    fold_left (fun num x =>
                 if (num <? 0) || negb (is_digit x) || (100000000 <=? num)
                 then -1
                 else num * 10 + Z.of_nat (nat_of_ascii x) - 48)
              name 0 in
  match name with
  | "0"%char :: _ :: _ => -1
  | _ => num
  end.

(** [extract]: the name after a [$], its number, and the rest. *)
Definition extract (str : list ascii) : option (Z * list ascii) :=
  match str with
  | [] => None
  | "{"%char :: str' =>
      let '(name, rest) := span is_word str' in
      match name, rest with
      | _ :: _, "}"%char :: rest' => Some (parse_num name, rest')
      | _, _ => None
      end
  | _ =>
      let '(name, rest) := span is_word str in
      match name with
      | _ :: _ => Some (parse_num name, rest)
      | [] => None
      end
  end.

Definition not_dollar (x : ascii) : bool := negb (Ascii.eqb x "$"%char).

Definition submatch (src : list ascii) (match_ : list Z) (num : Z)
  : list ascii :=
  if num <? 0 then []   (* a name: the fragment has no named groups *)
  else
    match match_ !! Z.to_nat (2 * num), match_ !! Z.to_nat (2 * num + 1) with
    | Some lo, Some hi =>
        if 0 <=? lo then take (Z.to_nat (hi - lo)) (drop (Z.to_nat lo) src)
        else []
    | _, _ => []
    end.

Fixpoint expand (fuel : nat) (dst template src : list ascii)
    (match_ : list Z) : list ascii :=
  match fuel with
  | O => dst ++ template
  | S fuel' =>
      match span not_dollar template with
      | (_, []) => dst ++ template
      | (before, _ :: after) =>
          let dst := dst ++ before in
          match after with
          | "$"%char :: after' =>
              expand fuel' (dst ++ ["$"%char]) after' src match_
          | _ =>
              match extract after with
              | None => expand fuel' (dst ++ ["$"%char]) after src match_
              | Some (num, rest) =>
                  expand fuel' (dst ++ submatch src match_ num) rest src
                         match_
              end
          end
      end
  end.

Definition expandString (dst template src : string) (match_ : list Z)
  : string :=
  string_of_list_ascii
    (expand (String.length template)
            (list_ascii_of_string dst) (list_ascii_of_string template)
            (list_ascii_of_string src) match_).

(** *** Parsing a pattern *)

Definition is_special (x : ascii) : bool :=
  existsb (Ascii.eqb x)
    ["\"; "."; "+"; "*"; "?"; "("; ")"; "|"; "["; "]"; "{"; "}"; "^"; "$"]%char.

(** ASCII punctuation: a backslash before it makes it a literal. *)
Definition is_punct (x : ascii) : bool :=
  in_class false [("!", "/"); (":", "@"); ("[", "`"); ("{", "~")]%char x.

(** The input left and the number of the next capture group. *)
Definition pstate : Type := list ascii * nat.

Definition cat (a b : re) : re :=
  match b with
  | Empty => a
  | _ => Cat a b
  end.

(** The items of a bracket class, up to and including its ["]"]. *)
Fixpoint parse_class (fuel : nat) (l : list ascii)
    (acc : list (ascii * ascii)) : option (list (ascii * ascii) * list ascii) :=
  match fuel with
  | O => None
  | S fuel' =>
      match l with
      | "]"%char :: l' =>
          match acc with
          | [] => None
          | _ => Some (acc, l')
          end
      | "\"%char :: x :: l' =>
          if is_punct x then parse_class fuel' l' (acc ++ [(x, x)]) else None
      | x :: "-"%char :: y :: l' =>
          if is_special x || is_special y || Ascii.eqb x "-" || Ascii.eqb y "-"
          then None
          else if (nat_of_ascii x <=? nat_of_ascii y)%nat
               then parse_class fuel' l' (acc ++ [(x, y)])
               else None
      | x :: l' =>
          if (is_special x && negb (Ascii.eqb x ".")) || Ascii.eqb x "-"
          then None
          else parse_class fuel' l' (acc ++ [(x, x)])
      | [] => None
      end
  end.

Definition parse_atom (rec : pstate -> option (re * pstate)) (st : pstate)
  : option (re * pstate) :=
  let close (i : option nat) (res : option (re * pstate)) :=
    match res with
    | Some (r, (")"%char :: l', g')) =>
        Some (match i with Some i => Group i r | None => r end, (l', g'))
    | _ => None
    end in
  let '(l, g) := st in
  match l with
  | "("%char :: "?"%char :: ":"%char :: l' => close None (rec (l', g))
  | "("%char :: "?"%char :: _ => None
  | "("%char :: l' => close (Some g) (rec (l', S g))
  | "["%char :: "^"%char :: l' =>
      '(ranges, l'') ← parse_class (S (length l')) l' [];
      Some (Class true ranges, (l'', g))
  | "["%char :: l' =>
      '(ranges, l'') ← parse_class (S (length l')) l' [];
      Some (Class false ranges, (l'', g))
  | "."%char :: l' => Some (AnyNotNL, (l', g))
  | "\"%char :: "d"%char :: l' =>
      Some (Class false [("0", "9")%char], (l', g))
  | "\"%char :: x :: l' => if is_punct x then Some (Lit x, (l', g)) else None
  | x :: l' => if is_special x then None else Some (Lit x, (l', g))
  | [] => None
  end.

Definition is_repeat (x : ascii) : bool :=
  existsb (Ascii.eqb x) ["*"; "+"; "?"; "{"]%char.

(** An atom and at most one greedy repetition operator. *)
Definition parse_repeat (rec : pstate -> option (re * pstate)) (st : pstate)
  : option (re * pstate) :=
  '(a, (l, g)) ← parse_atom rec st;
  let after (r : re) (l' : list ascii) :=
    match l' with
    | x :: _ => if is_repeat x then None else Some (r, (l', g))
    | [] => Some (r, (l', g))
    end in
  match l with
  | "*"%char :: l' => after (Star a) l'
  | "+"%char :: l' => after (Cat a (Star a)) l'
  | "?"%char :: l' => after (Alt a Empty) l'
  | _ => Some (a, (l, g))
  end.

Fixpoint parse_concat (fuel : nat) (rec : pstate -> option (re * pstate))
    (st : pstate) : option (re * pstate) :=
  match fuel with
  | O => None
  | S fuel' =>
      match fst st with
      | [] | "|"%char :: _ | ")"%char :: _ => Some (Empty, st)
      | _ =>
          '(a, st') ← parse_repeat rec st;
          '(b, st'') ← parse_concat fuel' rec st';
          Some (cat a b, st'')
      end
  end.

Fixpoint parse_alt (fuel : nat) (st : pstate) : option (re * pstate) :=
  match fuel with
  | O => None
  | S fuel' =>
      '(a, st') ← parse_concat (S (length (fst st))) (parse_alt fuel') st;
      match st' with
      | ("|"%char :: l', g) =>
          '(b, st'') ← parse_alt fuel' (l', g);
          Some (Alt a b, st'')
      | _ => Some (a, st')
      end
  end.

Definition compile (expr : string) : option regexp :=
  let l := list_ascii_of_string expr in
  match parse_alt (S (length l)) (l, 1%nat) with
  | Some (r, ([], g)) => Some (mkRegexp r (g - 1))
  | _ => None
  end.

#[export] Instance pkg : RegexpPkg := {|
  Regexp := regexp;
  MustCompile := compile;
  FindAllStringSubmatchIndex := findAll;
  ExpandString := fun _ => expandString
|}.

End RE2Fragment.

(** ** Notions the theorems are stated with *)

(** What [newDNSProcessor] answers once pattern and template are chosen:
    it panics with [MustCompile], or else holds the compiled pattern and
    the template. *)
Definition compiled `{RegexpPkg} (pattern template : string)
  : option dnsProcessor :=
  rx ← MustCompile pattern; Some (mkDnsProcessor (Some rx) template).

(** The string has no slash in it. *)
Definition no_slash (t : string) : Prop := "/"%char ∉ list_ascii_of_string t.

(** A lookup that the worker may run between two others. *)
Inductive lookup :=
  | LookupDNS (ipAddress : string)
  | LookupIFace (ifaceIndex agentIP : string).

Section Lookups.

Context `{RegexpPkg}.
Context {B : Type}.

Definition do_lookup (r : asyncResolver B) (l : lookup) (w : world B)
  : world B :=
  match l with
  | LookupDNS ip => snd (resolveDNS r ip w)
  | LookupIFace idx agent => snd (resolveIFace r idx agent w)
  end.

Definition do_lookups (r : asyncResolver B) (ls : list lookup) (w : world B)
  : world B :=
  fold_left (fun w l => do_lookup r l w) ls w.

End Lookups.



(** The client as [ifIndexToIfName] leaves it before it connects. *)
Definition client (community snmpAgentIP : string) (d : GoSNMP) : GoSNMP :=
  mkGoSNMP snmpAgentIP
           (if decide (community = "") then Community d else community)
           (20 * second) 5.




(** The six tags [resolve] reads, and the six it has its jobs write. *)
Definition source_tags : list string :=
  ["agent_ip"; "src_ip"; "dst_ip";
   "source_id_index"; "netif_index_out"; "netif_index_in"].

Definition destination_tags : list string :=
  ["host"; "src_host"; "dst_host";
   "source_id_name"; "netif_name_out"; "netif_name_in"].

(** The callback has run for a call once [resolve] has made its own
    decrement and no job of the call is outstanding. *)
Definition call_done (c : call) : bool :=
  (pc c =? 8)%nat && bool_decide (inflight c = []).

(** The steps of one call make this number smaller. *)
Definition call_measure (c : call) : nat :=
  (2 * (8 - pc c) + length (inflight c))%nat.

(** What holds of every call at every moment: the counter is the number
    of outstanding jobs, plus one until [resolve] has made its own
    decrement; the callback has run once, with the record as it is, when
    the call is done, and not before; every job sent is finished or
    outstanding; and at most one job was sent per [dnsResolve] and
    [ifaceResolve] executed. *)
Definition call_inv (c : call) : Prop :=
  (pc c <= 8)%nat
  /\ counter (or c)
     = Z.of_nat (length (inflight c)) + (if (pc c <? 8)%nat then 1 else 0)
  /\ fired (or c) = (if call_done c then [m c] else [])
  /\ submitted c ≡ₚ finished c ++ inflight c
  /\ (length (submitted c) <= 6)%nat
  /\ (pc c <= 3 -> length (submitted c) <= pc c)%nat
  /\ (4 <= pc c -> S (length (submitted c)) <= pc c)%nat.

(** The labels of the steps that belong to the call at index [i]. *)
Definition own_label (i : nat) (l : label) : bool :=
  match l with
  | Caller j | Worker j _ => bool_decide (j = i)
  | _ => false
  end.

(** A step whose record, if it brings one, satisfies [okm]. *)
Definition label_ok (okm : gmap string string -> Prop) (l : label) : Prop :=
  match l with
  | Enter record => okm record
  | _ => True
  end.

Definition no_source_tags (record : gmap string string) : Prop :=
  Forall (fun k => record !! k = None) source_tags.

(** Nothing was sent for the call and its record is as it came in. *)
Definition untouched (c : call) : Prop :=
  m c = m0 c /\ submitted c = [] /\ inflight c = [] /\ finished c = [].

(** What a statement of [resolve] does when the record has no source tag:
    nothing but to move on, up to the final decrement. *)
Definition skip_step (c : call) : call :=
  match pc c with
  | 3%nat => set_pc 7 c
  | 7%nat => set_pc 8 (mkCall (m c) (decrement (m c) (or c)) (pc c)
                              (agentIP c) (inflight c) (m0 c) (submitted c)
                              (finished c))
  | 0%nat | 1%nat | 2%nat | 4%nat | 5%nat | 6%nat => set_pc (S (pc c)) c
  | _ => c
  end.






(** ** Concrete networks, resolvers and runs *)

Module Scripted.

(** A network whose answers are scripted: the environment counts the
    operations made so far, and an answer may depend on that count. *)
Definition network
    (lookup : nat -> string -> list string * error)
    (walk : nat -> GoSNMP -> string -> list SnmpPDU * error) : Network :=
  {| Env := nat;
     LookupAddr := fun _ addr e => (lookup e addr, S e);
     Connect := fun _ e => (None, e);
     BulkWalk := fun d oid e => (walk e d oid, S e) |}.

(** [gosnmp.Default] as the library initialises it. *)
Definition gosnmp_Default : GoSNMP := mkGoSNMP "" "public" (2 * second) 3.

Definition no_such_host (_ : nat) (_ : string) : list string * error :=
  ([], Some "no such host").

Definition no_rows (_ : nat) (_ : GoSNMP) (_ : string)
  : list SnmpPDU * error := ([], None).

(** One host has a name; a device with interfaces 2 and 3. *)
Definition lab_lookup (_ : nat) (addr : string) : list string * error :=
  if decide (addr = "10.0.0.2") then (["host2.example.com."], None)
  else ([], Some "no such host").

Definition lab_walk (_ : nat) (_ : GoSNMP) (_ : string)
  : list SnmpPDU * error :=
  ([OtherPDU ".1.3.6.1.2.1.31.1.1.1.1.1";
    OctetStringPDU ".1.3.6.1.2.1.31.1.1.1.1.2" "eth0";
    OctetStringPDU ".1.3.6.1.2.1.31.1.1.1.1.3" "eth1"], None).


(** Interface 3 has the empty string as its name. *)
Definition unnamed_walk (_ : nat) (_ : GoSNMP) (_ : string)
  : list SnmpPDU * error :=
  ([OctetStringPDU ".1.3.6.1.2.1.31.1.1.1.1.3" ""], None).

Definition net_down : Network := network no_such_host no_rows.
Definition net_lab : Network := network lab_lookup lab_walk.
Definition net_unnamed : Network := network no_such_host unnamed_walk.

(** The backend state of a process whose network is in state [e]; the
    scripted networks start in state 0. *)
Definition boot (N : Network) (e : @Env N) : @Net N :=
  @mkNet N gosnmp_Default e.

(** A resolver on network [N] with both kinds of lookup enabled, the
    community [public] and the real backends. *)
Definition resolver_on (N : Network) (p : @dnsProcessor RE2Fragment.pkg)
  : @asyncResolver RE2Fragment.pkg (@Net N) :=
  mkAsyncResolver true true "public" p (@ipToFqdn N) (@ifIndexToIfName N).

(** The pattern [(a)(b)], compiled. *)
Definition ab_groups : RE2Fragment.regexp :=
  RE2Fragment.mkRegexp
    (RE2Fragment.Cat (RE2Fragment.Group 1 (RE2Fragment.Lit "a"))
                     (RE2Fragment.Group 2 (RE2Fragment.Lit "b"))) 2.

(** The rewriter without a pattern. *)
Definition identity : @dnsProcessor RE2Fragment.pkg :=
  mkDnsProcessor None "".

(** The state of the caches and counters of a resolver just started. *)
Definition fresh (N : Network) (e : @Env N) : world (@Net N) :=
  mkWorld cache.newCache cache.newCache 0 (boot N e) [].

(** A record with an agent address, a source address and one interface
    index. *)
Definition flow_record : gmap string string :=
  <["agent_ip" := "10.0.0.1"]>
    (<["src_ip" := "10.0.0.2"]> (<["source_id_index" := "3"]> ∅)).

(** A record with none of the source tags. *)
Definition plain_record : gmap string string :=
  <["sample_rate" := "1000"]> ∅.

(** A record whose agent address is the empty string. *)
Definition blank_agent_record : gmap string string :=
  <["agent_ip" := ""]> (<["source_id_index" := "7"]> ∅).

(** One call of [resolve] with [flow_record]: three jobs are sent and the
    worker takes them in the order second, third, first, the last after
    [resolve] has returned; the DNS cache is cleared in between. *)
Definition flow_schedule : list label :=
  [Enter flow_record; Caller 0; Caller 0; Caller 0; Worker 0 1; TickDNS;
   Caller 0; Caller 0; Caller 0; Caller 0; Worker 0 1; Caller 0;
   Worker 0 0]%nat.

(** One call of [resolve] with [blank_agent_record], run to its end. *)
Definition blank_agent_schedule : list label :=
  [Enter blank_agent_record; Caller 0; Caller 0; Caller 0; Caller 0;
   Caller 0; Caller 0; Caller 0; Caller 0; Worker 0 0; Worker 0 0]%nat.

(** A resolver on the lab network as [start] leaves it when both caches
    are to be cleared every minute. *)
Definition flow_start : @system (@Net net_lab) :=
  mkSystem (fresh net_lab 0%nat) [] (Some (60 * second)) (Some (60 * second)).

(** That resolver after [flow_schedule], and its one call. *)
Definition flow_final : @system (@Net net_lab) :=
  default flow_start
          (run (resolver_on net_lab identity) flow_schedule flow_start).

Definition flow_call : call :=
  default (enter ∅) (sys_calls flow_final !! 0%nat).

(** A resolver on a network where nothing answers as [start] leaves it
    when the caches are never to be cleared. *)
Definition blank_agent_start : @system (@Net net_down) :=
  mkSystem (fresh net_down 0%nat) [] None None.

(** That resolver after [blank_agent_schedule]. *)
Definition blank_agent_final : @system (@Net net_down) :=
  default blank_agent_start
          (run (resolver_on net_down identity) blank_agent_schedule
               blank_agent_start).

End Scripted.

(** ** Notions for the properties of whole runs *)

(** The tag a job writes. *)
Definition job_dst (fn : asyncJob) : string :=
  match fn with
  | DNSJob _ dstTag => dstTag
  | IFaceJob _ _ dstTag => dstTag
  end.

(** The source and destination tags of the three [dnsResolve] and of the
    three [ifaceResolve] of [resolve], in the order of the source. *)
Definition dns_pairs : list (string * string) :=
  [("agent_ip", "host"); ("src_ip", "src_host"); ("dst_ip", "dst_host")].

Definition iface_pairs : list (string * string) :=
  [("source_id_index", "source_id_name");
   ("netif_index_out", "netif_name_out");
   ("netif_index_in", "netif_name_in")].

Section Expected.

Context `{RegexpPkg}.
Context {B : Type}.

(** The job a [dnsResolve] sends for a record, if any. *)
Definition dns_jobs (r : asyncResolver B) (record : gmap string string)
    (p : string * string) : list asyncJob :=
  match record !! fst p with
  | Some value => if dns r then [DNSJob value (snd p)] else []
  | None => []
  end.

Definition iface_jobs (r : asyncResolver B) (record : gmap string string)
    (agent : string) (p : string * string) : list asyncJob :=
  match record !! fst p with
  | Some value => if snmpIfaces r then [IFaceJob value agent (snd p)] else []
  | None => []
  end.

(** The jobs one call of [resolve] is to send for a record, in order. *)
Definition expected_jobs (r : asyncResolver B) (record : gmap string string)
  : list asyncJob :=
  (dns_pairs ≫= dns_jobs r record)
  ++ match record !! "agent_ip" with
     | Some agent => iface_pairs ≫= iface_jobs r record agent
     | None => []
     end.

(** A job is asked for by a record: its kind of lookup is enabled and
    its value is the value of the source tag that goes with its
    destination tag; an interface job carries the agent address of the
    record. *)
Definition asked_for (r : asyncResolver B) (record : gmap string string)
    (fn : asyncJob) : Prop :=
  match fn with
  | DNSJob value dstTag =>
      dns r = true
      /\ exists srcTag, (srcTag, dstTag) ∈ dns_pairs
                        /\ record !! srcTag = Some value
  | IFaceJob value agent dstTag =>
      snmpIfaces r = true
      /\ record !! "agent_ip" = Some agent
      /\ exists srcTag, (srcTag, dstTag) ∈ iface_pairs
                        /\ record !! srcTag = Some value
  end.

(** The jobs to be sent by the first [n] statements of [resolve]. *)
Definition jobs_upto (r : asyncResolver B) (record : gmap string string)
    (n : nat) : list asyncJob :=
  (take n dns_pairs ≫= dns_jobs r record)
  ++ match record !! "agent_ip" with
     | Some agent => take (n - 4) iface_pairs ≫= iface_jobs r record agent
     | None => []
     end.

(** What holds of the record and the jobs of a call at every moment: a
    tag differs from the record passed in only where a finished job wrote
    it; the jobs sent are those the record passed in asks for; every job
    writes a destination tag, and the tag of a finished job is set. *)
Definition call_trace (r : asyncResolver B) (c : call) : Prop :=
  (forall k, (forall fn, fn ∈ finished c -> job_dst fn <> k) ->
             m c !! k = m0 c !! k)
  /\ submitted c = jobs_upto r (m0 c) (pc c)
  /\ ((4 <= pc c <= 6)%nat -> m0 c !! "agent_ip" = Some (agentIP c))
  /\ Forall (fun fn => job_dst fn ∈ destination_tags) (inflight c)
  /\ Forall (fun fn => job_dst fn ∈ destination_tags) (finished c)
  /\ Forall (fun fn => is_Some (m c !! job_dst fn)) (finished c).

End Expected.

Definition is_iface_job (fn : asyncJob) : bool :=
  match fn with
  | IFaceJob _ _ _ => true
  | DNSJob _ _ => false
  end.

(** The number of jobs the worker has run to their end, over all calls,
    and the number of interface jobs among them. *)
Definition jobs_run (cs : list call) : nat :=
  sum_list_with (fun c => length (finished c)) cs.

Definition iface_jobs_run (cs : list call) : nat :=
  sum_list_with (fun c => length (List.filter is_iface_job (finished c))) cs.

(** Every entry of the two caches is under a key that was handed to the
    backend. *)
Definition cache_from_backend {B : Type} (w : world B) : Prop :=
  (forall k, is_Some (dnsCache w !! k) -> CallIpToFqdn k ∈ history w)
  /\ (forall k, is_Some (ifaceCache w !! k) ->
                exists id community agent idx,
                  k = ifaceKey agent idx
                  /\ CallIfIndexToIfName id community agent idx ∈ history w).

(** What a resolver whose TTL for a cache is zero keeps from one state to
    a later one: the entries of that cache that are not the empty
    string. *)
Definition keeps (c c' : gmap string string) : Prop :=
  forall k, cache.get c k <> "" -> cache.get c' k = cache.get c k.

(** The lookup a job makes. *)
Definition job_lookup (fn : asyncJob) : lookup :=
  match fn with
  | DNSJob value _ => LookupDNS value
  | IFaceJob value agentIP _ => LookupIFace value agentIP
  end.

Section Steps.

Context `{RegexpPkg}.
Context {B : Type}.
Implicit Types (r : asyncResolver B) (c : call) (w : world B).

(** What one step does to the world, the calls and the tickers. *)
Inductive step_kind r (s s' : @system B) : Prop :=
  | step_enter (record : gmap string string) :
      sys_world s' = sys_world s ->
      sys_calls s' = (sys_calls s ++ [enter record])%list ->
      dnsTTLTicker s' = dnsTTLTicker s ->
      ifaceTTLTicker s' = ifaceTTLTicker s ->
      step_kind r s s'
  | step_caller (i : nat) c :
      sys_calls s !! i = Some c ->
      sys_world s' = sys_world s ->
      sys_calls s' = <[i := resolve_step r c]> (sys_calls s) ->
      dnsTTLTicker s' = dnsTTLTicker s ->
      ifaceTTLTicker s' = ifaceTTLTicker s ->
      step_kind r s s'
  | step_worker (i k : nat) c (fn : asyncJob) c' :
      sys_calls s !! i = Some c ->
      inflight c !! k = Some fn ->
      sys_world s' = fst (run_job r fn (sys_world s) c) ->
      sys_calls s' = <[i := c']> (sys_calls s) ->
      finished c' = (finished c ++ [fn])%list ->
      dnsTTLTicker s' = dnsTTLTicker s ->
      ifaceTTLTicker s' = ifaceTTLTicker s ->
      step_kind r s s'
  | step_tick_dns (d : Z) :
      dnsTTLTicker s = Some d ->
      sys_world s'
      = mkWorld (cache.clear (dnsCache (sys_world s)))
                (ifaceCache (sys_world s)) (ops (sys_world s))
                (backend (sys_world s)) (history (sys_world s)) ->
      sys_calls s' = sys_calls s ->
      dnsTTLTicker s' = dnsTTLTicker s ->
      ifaceTTLTicker s' = ifaceTTLTicker s ->
      step_kind r s s'
  | step_tick_iface (d : Z) :
      ifaceTTLTicker s = Some d ->
      sys_world s'
      = mkWorld (dnsCache (sys_world s))
                (cache.clear (ifaceCache (sys_world s))) (ops (sys_world s))
                (backend (sys_world s)) (history (sys_world s)) ->
      sys_calls s' = sys_calls s ->
      dnsTTLTicker s' = dnsTTLTicker s ->
      ifaceTTLTicker s' = ifaceTTLTicker s ->
      step_kind r s s'
  | step_stop :
      sys_world s' = sys_world s ->
      sys_calls s' = sys_calls s ->
      dnsTTLTicker s' = None ->
      ifaceTTLTicker s' = None ->
      step_kind r s s'.

(** The counter [ops] and the history of backend calls agree with the
    jobs run. *)
Definition counted (s : @system B) : Prop :=
  ops (sys_world s) = wrap_uint64 (Z.of_nat (iface_jobs_run (sys_calls s)))
  /\ (length (history (sys_world s)) <= jobs_run (sys_calls s))%nat.

End Steps.

(** ** The listener

    The first half of the source: the input plugin that opens a UDP
    socket, reads packets from it in a goroutine of its own, has each
    parsed and hands the metrics to the accumulator. *)

(** *** [strings.HasSuffix] and [strings.SplitN] *)

Module GoStringsSplit.

Import GoStrings.

(** [strings.HasSuffix(s, suffix)]:
    [len(s) >= len(suffix) && s[len(s)-len(suffix):] == suffix] *)
Definition HasSuffix (s suffix : string) : bool :=
  (len suffix <=? len s)
  && bool_decide (slice_from s (len s - len suffix) = Some suffix).

(** The loop of [genSplit]: up to [n] times, cut [s] at the first [sep];
    what is left is the last piece.  [fuel] bounds the iterations, of
    which there is at most one per byte of [s] when [sep] is not
    empty. *)
Fixpoint genSplit_loop (fuel : nat) (s sep : string) (n : Z) : list string :=
  match fuel with
  | O => [s]
  | S fuel' =>
      if 0 <? n then
        let m := Index s sep in
        if m <? 0 then [s]
        else match slice s 0 m, slice_from s (m + len sep) with
             | Some a, Some s' => a :: genSplit_loop fuel' s' sep (n - 1)
             | _, _ => [s]
             end
      else [s]
  end.

(** [explode(s, n)] on a string of ASCII characters: one piece per
    byte, the [n]-th piece being all that is left. *)
Fixpoint explode (s : string) (n : nat) : list string :=
  match n, s with
  | O, _ => []
  | _, EmptyString => []
  | 1%nat, _ => [s]
  | S n', String c s' => String c EmptyString :: explode s' n'
  end.

(** [strings.SplitN(s, sep, n)].  The source calls it with the
    separator ["://"] and [n = 2].  A negative [n] asks for all pieces,
    of which there are at most [len(s) + 1]. *)
Definition SplitN (s sep : string) (n : Z) : list string :=
  if n =? 0 then []
  else
    let n := if (n <? 0) || (len s + 1 <? n) then len s + 1 else n in
    if decide (sep = "") then explode s (Z.to_nat n)
    else genSplit_loop (String.length s + 1) s sep (n - 1).

End GoStringsSplit.

(** *** What the listener is given

    The parser and its options are declared in the package
    [plugins/parsers/network_flow/sflow], the accumulator and the metric
    in [telegraf], the socket in [net]; none of them is in the source
    file.  They are taken as an interface: the types are abstract and
    the operations on the network read and change an environment. *)

(** A value or an error, for the Go functions that return one of the
    two. *)
Inductive outcome (A : Type) :=
  | Ok (a : A)
  | Err (e : string).

Arguments Ok {A} a.
Arguments Err {A} e.

(** [sflow.V5FormatOptions]: the six fields [getSflowConfig] assigns.
    They are [uint32]. *)
Module sflowparser.

Record V5FormatOptions := mkV5FormatOptions {
  MaxFlowsPerSample : Z;
  MaxCountersPerSample : Z;
  MaxSamplesPerPacket : Z;
  MaxSampleLength : Z;
  MaxFlowHeaderLength : Z;
  MaxCounterHeaderLength : Z
}.

End sflowparser.

Class Host := {
  HostEnv : Type;
  (** [*net.UDPAddr] and [*net.UDPConn] *)
  UDPAddr : Type;
  UDPConn : Type;
  (** the parser [sflow.NewParser] answers, a [telegraf.Metric], and the
      state of a [telegraf.Accumulator] *)
  SflowParser : Type;
  TelegrafMetric : Type;
  TelegrafAccumulator : Type;
  NewDefaultV5FormatOptions : sflowparser.V5FormatOptions;
  (** [sflow.NewParser(metricName, defaultTags, options)] with an empty
      map of default tags *)
  NewParser : string -> sflowparser.V5FormatOptions -> outcome SflowParser;
  (** [parser.Parse(buf)]: the metrics, the error, and the parser as the
      call leaves it *)
  Parse : SflowParser -> string ->
          (list TelegrafMetric * error) * SflowParser;
  AddMetric : TelegrafMetric -> TelegrafAccumulator -> TelegrafAccumulator;
  AddError : string -> TelegrafAccumulator -> TelegrafAccumulator;
  ResolveUDPAddr : string -> string -> HostEnv ->
                   outcome UDPAddr * HostEnv;
  ListenUDP : string -> UDPAddr -> HostEnv -> outcome UDPConn * HostEnv;
  SetReadBuffer : UDPConn -> Z -> HostEnv -> error * HostEnv;
  Close : UDPConn -> HostEnv -> error * HostEnv
}.

Module Plugin.

Section Listener.

Context `{Host}.

(** An operation on the network made by the plugin, or the start of the
    goroutine that reads from a connection; kept in order, so that
    theorems can say what was opened and closed. *)
Inductive HostCall :=
  | CallResolveUDPAddr (network address : string) (res : outcome UDPAddr)
  | CallListenUDP (network : string) (addr : UDPAddr)
                  (res : outcome UDPConn)
  | CallSetReadBuffer (pc : UDPConn) (bytes : Z)
  | CallClose (pc : UDPConn)
  | GoListen (pc : UDPConn).

(** The process the plugin runs in: the environment and the operations
    made so far. *)
Record proc := mkProc {
  henv : HostEnv;
  events : list HostCall
}.

(** [Listener].  [ReadBufferSize] is the field [Size] of the
    [internal.Size], an [int64]; the three embedded interfaces are
    [None] when [nil].  The [Closer] that [Start] installs is the
    [packetListener], whose [Close] is that of its [PacketConn]. *)
Record Listener := mkListener {
  ServiceAddress : string;
  ReadBufferSize : Z;
  MaxFlowsPerSample : Z;
  MaxCountersPerSample : Z;
  MaxSamplesPerPacket : Z;
  MaxSampleLength : Z;
  MaxFlowHeaderLength : Z;
  MaxCounterHeaderLength : Z;
  Parser : option SflowParser;
  Accumulator : option TelegrafAccumulator;
  Closer : option UDPConn
}.

Definition set_Accumulator (acc : option TelegrafAccumulator)
    (sl : Listener) : Listener :=
  mkListener (ServiceAddress sl) (ReadBufferSize sl) (MaxFlowsPerSample sl)
             (MaxCountersPerSample sl) (MaxSamplesPerPacket sl)
             (MaxSampleLength sl) (MaxFlowHeaderLength sl)
             (MaxCounterHeaderLength sl) (Parser sl) acc (Closer sl).

Definition set_Parser (p : option SflowParser) (sl : Listener) : Listener :=
  mkListener (ServiceAddress sl) (ReadBufferSize sl) (MaxFlowsPerSample sl)
             (MaxCountersPerSample sl) (MaxSamplesPerPacket sl)
             (MaxSampleLength sl) (MaxFlowHeaderLength sl)
             (MaxCounterHeaderLength sl) p (Accumulator sl) (Closer sl).

Definition set_Closer (pc : option UDPConn) (sl : Listener) : Listener :=
  mkListener (ServiceAddress sl) (ReadBufferSize sl) (MaxFlowsPerSample sl)
             (MaxCountersPerSample sl) (MaxSamplesPerPacket sl)
             (MaxSampleLength sl) (MaxFlowHeaderLength sl)
             (MaxCounterHeaderLength sl) (Parser sl) (Accumulator sl) pc.

Definition Description (sl : Listener) : string :=
  "SFlow V5 Protocol Listener".

(** [Gather] does nothing and returns [nil]. *)
Definition Gather (sl : Listener) (acc : TelegrafAccumulator) : error :=
  None.

Definition getSflowConfig (sl : Listener) : sflowparser.V5FormatOptions :=
  let sflowConfig := NewDefaultV5FormatOptions in
  sflowparser.mkV5FormatOptions
    (if 0 <? MaxFlowsPerSample sl then MaxFlowsPerSample sl
     else sflowparser.MaxFlowsPerSample sflowConfig)
    (if 0 <? MaxCountersPerSample sl then MaxCountersPerSample sl
     else sflowparser.MaxCountersPerSample sflowConfig)
    (if 0 <? MaxSamplesPerPacket sl then MaxSamplesPerPacket sl
     else sflowparser.MaxSamplesPerPacket sflowConfig)
    (if 0 <? MaxSampleLength sl then MaxSampleLength sl
     else sflowparser.MaxSampleLength sflowConfig)
    (if 0 <? MaxFlowHeaderLength sl then MaxFlowHeaderLength sl
     else sflowparser.MaxFlowHeaderLength sflowConfig)
    (if 0 <? MaxCounterHeaderLength sl then MaxCounterHeaderLength sl
     else sflowparser.MaxCounterHeaderLength sflowConfig).

(** [newUDPListener] *)
Definition newUDPListener (network address : string) (p : proc)
  : outcome UDPConn * proc :=
  if bool_decide (network ∈ ["udp"; "udp4"; "udp6"]) then
    let '(addr, e) := ResolveUDPAddr network address (henv p) in
    let p := mkProc e (events p
                       ++ [CallResolveUDPAddr network address addr]) in
    match addr with
    | Err err => (Err err, p)
    | Ok addr =>
        let '(pc, e) := ListenUDP network addr (henv p) in
        (pc, mkProc e (events p ++ [CallListenUDP network addr pc]))
    end
  else (Err ("unsupported network type " +:+ network), p).

(** [Start].  The connection [newUDPListener] answers is a
    [*net.UDPConn], which has [SetReadBuffer], so the type assertion
    [pc.(setReadBufferer)] holds; the error of [SetReadBuffer] is
    dropped.  The goroutine [psl.listen()] is recorded as started. *)
Definition Start (sl : Listener) (acc : TelegrafAccumulator) (p : proc)
  : error * Listener * proc :=
  let sl := set_Accumulator (Some acc) sl in
  match NewParser "sflow" (getSflowConfig sl) with
  | Err err => (Some err, sl, p)
  | Ok parser =>
      let sl := set_Parser (Some parser) sl in
      match GoStringsSplit.SplitN (ServiceAddress sl) "://" 2 with
      | [protocol; addr] =>
          let '(pc, p) := newUDPListener protocol addr p in
          match pc with
          | Err err => (Some err, sl, p)
          | Ok pc =>
              let p :=
                if 0 <? ReadBufferSize sl then
                  let '(_, e) :=
                    SetReadBuffer pc (ReadBufferSize sl) (henv p) in
                  mkProc e (events p
                            ++ [CallSetReadBuffer pc (ReadBufferSize sl)])
                else p in
              let sl := set_Closer (Some pc) sl in
              (None, sl, mkProc (henv p) (events p ++ [GoListen pc]))
          end
      | _ =>
          (Some ("invalid service address: " +:+ ServiceAddress sl), sl, p)
      end
  end.

(** [Stop]: the error of [Close] is dropped. *)
Definition Stop (sl : Listener) (p : proc) : Listener * proc :=
  match Closer sl with
  | Some pc =>
      let '(_, e) := Close pc (henv p) in
      (set_Closer None sl, mkProc e (events p ++ [CallClose pc]))
  | None => (sl, p)
  end.

(** [newListener]: the error of [NewParser] is dropped, and with it the
    parser is [nil]. *)
Definition newListener : Listener :=
  let p := match NewParser "sflow" NewDefaultV5FormatOptions with
           | Ok p => Some p
           | Err _ => None
           end in
  mkListener "" 0 0 0 0 0 0 0 p None None.

(** [process], on the parser and the accumulator of the listener. *)
Definition process (buf : string) (st : SflowParser * TelegrafAccumulator)
  : SflowParser * TelegrafAccumulator :=
  let '(metrics, err, parser) := Parse (fst st) buf in
  let acc :=
    match err with
    | Some e => AddError ("unable to parse incoming packet: " +:+ e) (snd st)
    | None => snd st
    end in
  (parser, fold_left (fun acc m => AddMetric m acc) metrics acc).

(** [listen], given what the calls of [ReadFrom] return one after the
    other: the bytes [buf[:n]] and the error.  It answers whether the
    loop was left, and the parser and the accumulator as they are then;
    when the list ends the goroutine waits in [ReadFrom]. *)
Fixpoint listen (reads : list (string * error))
    (st : SflowParser * TelegrafAccumulator)
  : bool * (SflowParser * TelegrafAccumulator) :=
  match reads with
  | [] => (false, st)
  | (buf, Some err) :: _ =>
      (true,
       if negb (GoStringsSplit.HasSuffix
                  err ": use of closed network connection")
       then (fst st, AddError err (snd st))
       else st)
  | (buf, None) :: reads' => listen reads' (process buf st)
  end.

End Listener.

End Plugin.

(** An operation that leaves nothing behind: an address resolved, or an
    attempt to listen that failed. *)
Definition leaves_nothing `{Host} (ev : Plugin.HostCall) : Prop :=
  match ev with
  | Plugin.CallResolveUDPAddr _ _ _ => True
  | Plugin.CallListenUDP _ _ (Err _) => True
  | _ => False
  end.

(** The string has no colon in it. *)
Definition no_colon (t : string) : Prop := ":"%char ∉ list_ascii_of_string t.

(** The reads of packets that arrive without error. *)
Definition packets (bufs : list string) : list (string * error) :=
  map (fun buf => (buf, None)) bufs.

(** *** A host to run the listener on *)

Module ScriptedHost.

(** A host where every operation on the network succeeds: an address is
    the pair of network and text it was resolved from, connections are
    numbered in the order they are opened, and the environment is the
    number of the next one.  The parser is its options; it makes one
    metric, the packet itself, of a packet that is not empty.  The
    accumulator is the list of what it was handed, oldest first. *)
Definition host : Host :=
  {| HostEnv := nat;
     UDPAddr := string * string;
     UDPConn := nat;
     SflowParser := sflowparser.V5FormatOptions;
     TelegrafMetric := string;
     TelegrafAccumulator := list (string + string);
     NewDefaultV5FormatOptions :=
       sflowparser.mkV5FormatOptions 10 10 10 1024 256 256;
     NewParser := fun _ options => Ok options;
     Parse := fun parser buf =>
       if decide (buf = "") then ([], Some "empty packet", parser)
       else ([buf], None, parser);
     AddMetric := fun m acc => (acc ++ [inl m])%list;
     AddError := fun e acc => (acc ++ [inr e])%list;
     ResolveUDPAddr := fun network address e => (Ok (network, address), e);
     ListenUDP := fun _ _ e => (Ok e, S e);
     SetReadBuffer := fun _ _ e => (None, e);
     Close := fun _ e => (None, e) |}.

(** A listener as the configuration leaves it, with a service address
    and a size for the read buffer. *)
Definition configured (address : string) (size : Z) : @Plugin.Listener host :=
  @Plugin.mkListener host address size 0 0 0 0 0 0 None None None.

(** The process before the plugin has done anything. *)
Definition boot : @Plugin.proc host := @Plugin.mkProc host 0%nat [].

End ScriptedHost.

(** ** More runs on the scripted networks *)

Module ScriptedRuns.

Import Scripted.

(** The run [flow_schedule] up to the first job the worker runs, which
    leaves the name of 10.0.0.2 in the DNS cache; and that state after
    the ticker of the DNS cache has fired. *)
Definition flow_cached : @system (@Net net_lab) :=
  default flow_start
          (run (resolver_on net_lab identity) (take 5 flow_schedule)
               flow_start).

Definition flow_dns_ticked : @system (@Net net_lab) :=
  default flow_cached (step (resolver_on net_lab identity) TickDNS flow_cached).

(** The end of the run [flow_schedule] after the ticker of the interface
    cache has fired. *)
Definition flow_iface_ticked : @system (@Net net_lab) :=
  default flow_final
          (step (resolver_on net_lab identity) TickIFace flow_final).

(** The run [blank_agent_schedule], of a resolver started with both TTLs
    zero, continued: [stop] is called and another record comes in. *)
Definition blank_agent_later_schedule : list label :=
  [Stop; Enter flow_record; Caller 1; Caller 1; Worker 1 0]%nat.

Definition blank_agent_later : @system (@Net net_down) :=
  default blank_agent_final
          (run (resolver_on net_down identity) blank_agent_later_schedule
               blank_agent_final).

(** A resolver on the lab network with both kinds of lookup disabled,
    and one call of [resolve] with [flow_record] run to its end. *)
Definition resolver_off : @asyncResolver RE2Fragment.pkg (@Net net_lab) :=
  mkAsyncResolver false false "public" identity
                  (@ipToFqdn net_lab) (@ifIndexToIfName net_lab).

Definition off_schedule : list label :=
  [Enter flow_record; Caller 0; Caller 0; Caller 0; Caller 0; Caller 0;
   Caller 0; Caller 0; Caller 0]%nat.

Definition off_final : @system (@Net net_lab) :=
  default flow_start (run resolver_off off_schedule flow_start).

End ScriptedRuns.

(** * Properties *)

(** ** Go strings *)

Module GoStringsFacts.

Import GoStrings.

Lemma append_cons (x : ascii) (a b : string) :
  String x a +:+ b = String x (a +:+ b).
Proof. reflexivity. Qed.

Lemma append_nil_l (b : string) : "" +:+ b = b.
Proof. reflexivity. Qed.

Lemma length_append (a b : string) :
  String.length (a +:+ b) = (String.length a + String.length b)%nat.
Proof.
  induction a as [|x a IH]; [reflexivity|].
  rewrite append_cons. simpl. now rewrite IH.
Qed.

Lemma len_append (a b : string) : len (a +:+ b) = len a + len b.
Proof. unfold len. rewrite length_append. lia. Qed.

Lemma len_nonneg (s : string) : 0 <= len s.
Proof. unfold len. lia. Qed.

Lemma append_assoc (a b c : string) : (a +:+ b) +:+ c = a +:+ (b +:+ c).
Proof.
  induction a as [|x a IH]; [reflexivity|].
  rewrite !append_cons. now rewrite IH.
Qed.

Lemma append_nil_r (a : string) : a +:+ "" = a.
Proof.
  induction a as [|x a IH]; [reflexivity|].
  rewrite append_cons. now rewrite IH.
Qed.

Lemma substring_0_append (b c : string) :
  substring 0 (String.length b) (b +:+ c) = b.
Proof.
  induction b as [|x b IH].
  - now destruct c.
  - rewrite append_cons. simpl. now rewrite IH.
Qed.

Lemma substring_skip (a s : string) (n : nat) :
  substring (String.length a) n (a +:+ s) = substring 0 n s.
Proof.
  induction a as [|x a IH]; [reflexivity|].
  rewrite append_cons. simpl. exact IH.
Qed.

Lemma substring_0_all (s : string) : substring 0 (String.length s) s = s.
Proof.
  rewrite <- (append_nil_r s) at 2. apply substring_0_append.
Qed.

(** Slicing a concatenation at its seams. *)
Lemma slice_middle (a b c : string) :
  slice (a +:+ b +:+ c) (len a) (len a + len b) = Some b.
Proof.
  unfold slice. rewrite !len_append.
  pose proof (len_nonneg a). pose proof (len_nonneg b).
  pose proof (len_nonneg c).
  replace ((0 <=? len a) && (len a <=? len a + len b)
           && (len a + len b <=? len a + (len b + len c))) with true
    by (symmetry; rewrite !andb_true_iff, !Z.leb_le; lia).
  f_equal. unfold len.
  replace (Z.to_nat (Z.of_nat (String.length a))) with (String.length a)
    by lia.
  replace (Z.to_nat (_ + _ - _)) with (String.length b) by lia.
  rewrite substring_skip. apply substring_0_append.
Qed.

Lemma slice_from_suffix (a b : string) :
  slice_from (a +:+ b) (len a) = Some b.
Proof.
  unfold slice_from. rewrite len_append.
  pose proof (slice_middle a b "") as Hm.
  now rewrite append_nil_r in Hm.
Qed.

Lemma prefix_slash (c : ascii) (s : string) :
  String.prefix "/" (String c s) = bool_decide (c = "/"%char).
Proof.
  cbn [String.prefix]. destruct (ascii_dec "/" c) as [<-|Hne].
  - now destruct s.
  - symmetry. apply bool_decide_eq_false. congruence.
Qed.

Lemma no_slash_cons (c : ascii) (s : string) :
  no_slash (String c s) <-> c <> "/"%char /\ no_slash s.
Proof.
  unfold no_slash. simpl. rewrite not_elem_of_cons. intuition congruence.
Qed.

Lemma LastIndex_from_no_slash (t : string) :
  no_slash t -> forall i, LastIndex_from t "/" i = -1.
Proof.
  induction t as [|c t IH]; intros Ht i; [reflexivity|].
  apply no_slash_cons in Ht as [Hc Ht].
  cbn [LastIndex_from]. rewrite (IH Ht), prefix_slash.
  now rewrite bool_decide_eq_false_2.
Qed.

Lemma LastIndex_from_last_slash (p t : string) :
  no_slash t -> forall i, 0 <= i ->
  LastIndex_from (p +:+ String "/" t) "/" i = i + len p.
Proof.
  intros Ht. induction p as [|c p IH]; intros i Hi.
  - rewrite append_nil_l. cbn [LastIndex_from].
    rewrite (LastIndex_from_no_slash t Ht), prefix_slash.
    rewrite bool_decide_eq_true_2 by reflexivity.
    unfold len. simpl. lia.
  - rewrite append_cons. cbn [LastIndex_from]. rewrite IH by lia.
    pose proof (len_nonneg p).
    replace (0 <=? i + 1 + len p) with true by (symmetry; apply Z.leb_le; lia).
    unfold len. simpl String.length. lia.
Qed.

Lemma LastIndex_from_neg (s : string) :
  forall i, 0 <= i -> LastIndex_from s "/" i < 0 -> no_slash s.
Proof.
  induction s as [|c s IH]; intros i Hi Hr.
  - unfold no_slash. simpl. apply not_elem_of_nil.
  - cbn [LastIndex_from] in Hr. rewrite prefix_slash in Hr.
    destruct (Z.leb_spec 0 (LastIndex_from s "/" (i + 1))) as [Hge|Hlt];
      [lia|].
    apply no_slash_cons. split.
    + intros ->. rewrite bool_decide_eq_true_2 in Hr by reflexivity. lia.
    + apply (IH (i + 1)); lia.
Qed.

Lemma LastIndex_from_inv (s : string) :
  forall i, 0 <= i -> 0 <= LastIndex_from s "/" i ->
  exists a t, s = a +:+ String "/" t
              /\ LastIndex_from s "/" i = i + len a /\ no_slash t.
Proof.
  induction s as [|c s IH]; intros i Hi Hr.
  - simpl in Hr. lia.
  - cbn [LastIndex_from] in *. rewrite prefix_slash in *.
    destruct (Z.leb_spec 0 (LastIndex_from s "/" (i + 1))) as [Hge|Hlt].
    + destruct (IH (i + 1) ltac:(lia) Hge) as (a & t & -> & Heq & Ht).
      exists (String c a), t. split; [reflexivity|]. split; [|exact Ht].
      rewrite Heq. unfold len. simpl String.length. lia.
    + case_bool_decide as Hc; [|lia]. subst c.
      exists "", s. split; [reflexivity|]. split.
      * unfold len. simpl. lia.
      * apply (LastIndex_from_neg s (i + 1)); lia.
Qed.

Lemma Index_from_range (s substr : string) :
  forall i, Index_from s substr i = -1 \/ i <= Index_from s substr i.
Proof.
  induction s as [|c s IH]; intros i; cbn [Index_from];
    destruct (String.prefix substr _); try lia.
  destruct (IH (i + 1)); lia.
Qed.

Lemma Index_0_prefix (s substr : string) :
  Index s substr = 0 <-> String.prefix substr s = true.
Proof.
  unfold Index. destruct s as [|c s]; cbn [Index_from];
    destruct (String.prefix substr _) eqn:E; split; try congruence; try lia.
  intros Hz. destruct (Index_from_range s substr (0 + 1)); lia.
Qed.

Lemma prefix_s_slash (s : string) :
  String.prefix "s/" s = true <-> exists rest, s = "s/" +:+ rest.
Proof.
  split.
  - destruct s as [|a [|b rest]]; cbn [String.prefix]; try discriminate.
    + destruct (ascii_dec "s" a); discriminate.
    + destruct (ascii_dec "s" a) as [<-|]; [|discriminate].
      destruct (ascii_dec "/" b) as [<-|]; [|discriminate].
      intros _. now exists rest.
  - intros [rest ->]. now destruct rest.
Qed.

End GoStringsFacts.

(** ** The name rewriter *)

Section DnsProcessorFacts.

Context `{RegexpPkg}.
Import GoStrings GoStringsFacts.

Lemma newDNSProcessor_sed (p t : string) :
  no_slash t ->
  newDNSProcessor ("s/" +:+ p +:+ "/" +:+ t) = compiled p t.
Proof.
  intros Ht. unfold newDNSProcessor.
  rewrite decide_False by discriminate.
  replace (Index ("s/" +:+ p +:+ "/" +:+ t) "s/") with 0
    by (symmetry; apply Index_0_prefix, prefix_s_slash; eauto).
  replace (LastIndex ("s/" +:+ p +:+ "/" +:+ t) "/") with (2 + len p).
  2:{ unfold LastIndex.
      change ("s/" +:+ p +:+ "/" +:+ t)
        with (String "s" (String "/" (p +:+ String "/" t))).
      cbn [LastIndex_from].
      rewrite (LastIndex_from_last_slash p t Ht) by lia.
      pose proof (len_nonneg p).
      rewrite !(Zle_imp_le_bool 0 (0 + 1 + 1 + len p)) by lia.
      lia. }
  pose proof (len_nonneg p) as Hp.
  replace ((0 =? 0) && (0 + 1 <? 2 + len p)) with true
    by (symmetry; apply andb_true_iff; split;
        [reflexivity | apply Z.ltb_lt; lia]).
  pose proof (slice_middle "s/" p ("/" +:+ t)) as Hre.
  change (len "s/") with 2 in Hre. change (0 + 2) with 2. rewrite Hre.
  pose proof (slice_from_suffix ("s/" +:+ p +:+ "/") t) as Htp.
  rewrite !len_append in Htp.
  change (len "s/") with 2 in Htp. change (len "/") with 1 in Htp.
  rewrite !append_assoc in Htp.
  replace (2 + len p + 1) with (2 + (len p + 1)) by lia.
  rewrite Htp. reflexivity.
Qed.

Lemma newDNSProcessor_plain (S : string) :
  S <> "" ->
  (forall p t, S <> "s/" +:+ p +:+ "/" +:+ t) ->
  newDNSProcessor S = compiled S "$1$2$3$4$5".
Proof.
  intros Hne Hform. unfold newDNSProcessor.
  rewrite decide_False by exact Hne.
  destruct ((Index S "s/" =? 0) && (Index S "s/" + 1 <? LastIndex S "/"))
    eqn:Hcond; [|reflexivity].
  exfalso.
  apply andb_true_iff in Hcond as [Hloc Hend].
  apply Z.eqb_eq in Hloc. rewrite Hloc in Hend. apply Z.ltb_lt in Hend.
  apply Index_0_prefix, prefix_s_slash in Hloc as [rest ->].
  unfold LastIndex in Hend.
  destruct (LastIndex_from_inv ("s/" +:+ rest) 0 ltac:(lia) ltac:(lia))
    as (a & t & Heq & Hr & Ht).
  rewrite Hr in Hend.
  destruct a as [|a0 [|a1 a]]; try (unfold len in Hend; simpl in Hend; lia).
  change (String "s" (String "/" rest)
          = String a0 (String a1 (a +:+ String "/" t))) in Heq.
  injection Heq as <- <- ->.
  now apply (Hform a t).
Qed.

Lemma transform_no_pattern (p : dnsProcessor) (N : string) :
  rePattern p = None -> transform p N = N.
Proof. unfold transform. now intros ->. Qed.

Lemma transform_no_match (p : dnsProcessor) (N : string) (re : Regexp) :
  rePattern p = Some re ->
  FindAllStringSubmatchIndex re N (-1) = [] -> transform p N = N.
Proof. unfold transform. now intros -> ->. Qed.

(** C7.  [newDNSProcessor] on the empty string makes the identity
    rewriter, without a pattern; on [s/p/t], where [t] has no slash, it
    compiles [p], the text between the prefix and the last slash, and
    keeps [t], the text after it, as the template; on any other
    non-empty string it compiles the whole string and takes the template
    [$1$2$3$4$5]. *)
Theorem newDNSProcessor_spec :
  newDNSProcessor "" = Some (mkDnsProcessor None "")
  /\ (forall p t, no_slash t ->
        newDNSProcessor ("s/" +:+ p +:+ "/" +:+ t) = compiled p t)
  /\ (forall S, S <> "" ->
        (forall p t, S <> "s/" +:+ p +:+ "/" +:+ t) ->
        newDNSProcessor S = compiled S "$1$2$3$4$5").
Proof.
  split; [reflexivity|].
  split; [exact newDNSProcessor_sed | exact newDNSProcessor_plain].
Qed.

End DnsProcessorFacts.

Section TransformFacts.

Context `{RegexpPkg}.
Import GoStrings GoStringsFacts.

(** The law of [Expand] that the loop of [transform] relies on. *)
Hypothesis Happends : ExpandString_appends.

Lemma fold_transform_step (re : Regexp) (template name : string)
    (ms : list (list Z)) :
  forall acc expanded,
    fold_left (transform_step re template name) ms (acc, expanded)
    = (acc +:+ String.concat ""
                 (map (ExpandString re "" template name) ms),
       match ms with [] => expanded | _ => true end).
Proof.
  induction ms as [|m0 ms IH]; intros acc expanded.
  - simpl. now rewrite append_nil_r.
  - cbn [fold_left map]. unfold transform_step at 2. cbn [fst].
    rewrite IH. f_equal.
    + rewrite (Happends re acc), append_assoc. f_equal.
      destruct ms as [|m1 ms]; [now rewrite append_nil_r|].
      reflexivity.
    + now destruct ms.
Qed.

(** C4.  [transform] leaves the name alone when no pattern is
    configured and when the pattern matches nowhere in it; otherwise it
    answers the expansions of the template against the matches
    [FindAllStringSubmatchIndex] reports (Go: the successive
    non-overlapping matches, leftmost first), concatenated in that
    order, and nothing else of the name. *)
Theorem transform_spec (p : dnsProcessor) (N : string) :
  (rePattern p = None -> transform p N = N)
  /\ (forall re, rePattern p = Some re ->
        FindAllStringSubmatchIndex re N (-1) = [] -> transform p N = N)
  /\ (forall re, rePattern p = Some re ->
        FindAllStringSubmatchIndex re N (-1) <> [] ->
        transform p N
        = String.concat ""
            (map (ExpandString re "" (template p) N)
                 (FindAllStringSubmatchIndex re N (-1)))).
Proof.
  split; [apply transform_no_pattern|].
  split; [intros re; apply transform_no_match|].
  intros re Hre Hms. unfold transform. rewrite Hre, fold_transform_step.
    destruct (FindAllStringSubmatchIndex re N (-1)); [now elim Hms|].
    reflexivity.
Qed.

End TransformFacts.

(** ** The caches *)

Module cacheFacts.

Lemma get_set_eq (c : gmap string string) (k v : string) :
  cache.get (cache.set c k v) k = v.
Proof. unfold cache.get, cache.set. now rewrite lookup_insert_eq. Qed.

Lemma get_set_ne (c : gmap string string) (k k' v : string) :
  k <> k' -> cache.get (cache.set c k v) k' = cache.get c k'.
Proof.
  intros Hne. unfold cache.get, cache.set. now rewrite lookup_insert_ne.
Qed.

Lemma get_clear (c : gmap string string) (k : string) :
  cache.get (cache.clear c) k = "".
Proof. reflexivity. Qed.

(** Writing under a key that reads as empty leaves every non-empty
    reading as it was. *)
Lemma get_set_miss (c : gmap string string) (k k' v : string) :
  cache.get c k = "" -> cache.get c k' <> "" ->
  cache.get (cache.set c k v) k' = cache.get c k'.
Proof. intros Hk Hk'. apply get_set_ne. congruence. Qed.

End cacheFacts.

(** ** Lookups through the caches *)

Section ResolverFacts.

Context `{RegexpPkg}.
Context {B : Type}.
Implicit Types (r : asyncResolver B) (w : world B).

Lemma resolveDNS_hit r ip w :
  cache.get (dnsCache w) ip <> "" ->
  resolveDNS r ip w = (cache.get (dnsCache w) ip, w).
Proof. intros Hhit. unfold resolveDNS. now rewrite decide_False. Qed.

Lemma resolveDNS_miss r ip w :
  cache.get (dnsCache w) ip = "" ->
  resolveDNS r ip w
  = (transform (dnsp r) (fst (ipToFqdnFn r ip (backend w))),
     mkWorld
       (cache.set (dnsCache w) ip
          (transform (dnsp r) (fst (ipToFqdnFn r ip (backend w)))))
       (ifaceCache w) (ops w) (snd (ipToFqdnFn r ip (backend w)))
       (history w ++ [CallIpToFqdn ip])).
Proof.
  intros Hmiss. unfold resolveDNS. rewrite decide_True by exact Hmiss.
  now destruct (ipToFqdnFn r ip (backend w)).
Qed.

Lemma resolveIFace_hit r idx agent w :
  cache.get (ifaceCache w) (ifaceKey agent idx) <> "" ->
  resolveIFace r idx agent w
  = (cache.get (ifaceCache w) (ifaceKey agent idx),
     mkWorld (dnsCache w) (ifaceCache w) (wrap_uint64 (ops w + 1))
             (backend w) (history w)).
Proof. intros Hhit. unfold resolveIFace. now rewrite decide_False. Qed.

Lemma resolveIFace_miss r idx agent w :
  cache.get (ifaceCache w) (ifaceKey agent idx) = "" ->
  let id := wrap_uint64 (ops w + 1) in
  let res := ifIndexToIfNameFn r id (snmpCommunity r) agent idx (backend w) in
  resolveIFace r idx agent w
  = (fst res,
     mkWorld (dnsCache w)
             (cache.set (ifaceCache w) (ifaceKey agent idx) (fst res))
             id (snd res)
             (history w
              ++ [CallIfIndexToIfName id (snmpCommunity r) agent idx])).
Proof.
  intros Hmiss. cbv zeta. unfold resolveIFace.
  rewrite decide_True by exact Hmiss.
  now destruct (ifIndexToIfNameFn r _ _ agent idx (backend w)).
Qed.

(** After a resolution the cache reads the value resolved. *)
Lemma resolveDNS_cached r ip w :
  cache.get (dnsCache (snd (resolveDNS r ip w))) ip = fst (resolveDNS r ip w).
Proof.
  destruct (decide (cache.get (dnsCache w) ip = "")) as [Hmiss|Hhit].
  - rewrite (resolveDNS_miss r ip w Hmiss). apply cacheFacts.get_set_eq.
  - now rewrite (resolveDNS_hit r ip w Hhit).
Qed.

Lemma resolveIFace_cached r idx agent w :
  cache.get (ifaceCache (snd (resolveIFace r idx agent w)))
            (ifaceKey agent idx)
  = fst (resolveIFace r idx agent w).
Proof.
  destruct (decide (cache.get (ifaceCache w) (ifaceKey agent idx) = ""))
    as [Hmiss|Hhit].
  - rewrite (resolveIFace_miss r idx agent w Hmiss).
    apply cacheFacts.get_set_eq.
  - now rewrite (resolveIFace_hit r idx agent w Hhit).
Qed.

(** No lookup overwrites a non-empty cached value: a cache is written
    only under a key that read as empty. *)
Lemma do_lookup_keeps r l w :
  (forall k, cache.get (dnsCache w) k <> "" ->
             cache.get (dnsCache (do_lookup r l w)) k
             = cache.get (dnsCache w) k)
  /\ (forall k, cache.get (ifaceCache w) k <> "" ->
                cache.get (ifaceCache (do_lookup r l w)) k
                = cache.get (ifaceCache w) k).
Proof.
  destruct l as [ip|idx agent]; cbn [do_lookup].
  - destruct (decide (cache.get (dnsCache w) ip = "")) as [Hmiss|Hhit].
    + rewrite (resolveDNS_miss r ip w Hmiss). cbn. split; [|reflexivity].
      intros k Hk. now apply cacheFacts.get_set_miss.
    + rewrite (resolveDNS_hit r ip w Hhit). now split.
  - destruct (decide (cache.get (ifaceCache w) (ifaceKey agent idx) = ""))
      as [Hmiss|Hhit].
    + rewrite (resolveIFace_miss r idx agent w Hmiss). cbn.
      split; [reflexivity|].
      intros k Hk. now apply cacheFacts.get_set_miss.
    + rewrite (resolveIFace_hit r idx agent w Hhit). now split.
Qed.

Lemma do_lookups_keeps r ls : forall w,
  (forall k, cache.get (dnsCache w) k <> "" ->
             cache.get (dnsCache (do_lookups r ls w)) k
             = cache.get (dnsCache w) k)
  /\ (forall k, cache.get (ifaceCache w) k <> "" ->
                cache.get (ifaceCache (do_lookups r ls w)) k
                = cache.get (ifaceCache w) k).
Proof.
  induction ls as [|l ls IH]; intros w; [now split|].
  cbn [do_lookups fold_left].
  destruct (do_lookup_keeps r l w) as [Hd Hi].
  destruct (IH (do_lookup r l w)) as [IHd IHi].
  split; intros k Hk.
  - unfold do_lookups in IHd. rewrite IHd; rewrite Hd; auto.
  - unfold do_lookups in IHi. rewrite IHi; rewrite Hi; auto.
Qed.

(** C2, amended.  When the first resolution of a key yields a non-empty
    value, then after any further lookups, with no clear in between,
    resolving the key again answers that value and leaves the backend
    and the history of backend calls as they are: the backend function
    is not invoked.  This holds for the DNS backend, keyed by the IP
    address, and for the interface backend, keyed by agent address and
    interface index. *)
Theorem cache_idempotence r w (ls : list lookup) :
  (forall ip,
     let v1 := fst (resolveDNS r ip w) in
     let w2 := do_lookups r ls (snd (resolveDNS r ip w)) in
     v1 <> "" ->
     fst (resolveDNS r ip w2) = v1
     /\ history (snd (resolveDNS r ip w2)) = history w2
     /\ backend (snd (resolveDNS r ip w2)) = backend w2)
  /\ (forall idx agent,
        let v1 := fst (resolveIFace r idx agent w) in
        let w2 := do_lookups r ls (snd (resolveIFace r idx agent w)) in
        v1 <> "" ->
        fst (resolveIFace r idx agent w2) = v1
        /\ history (snd (resolveIFace r idx agent w2)) = history w2
        /\ backend (snd (resolveIFace r idx agent w2)) = backend w2).
Proof.
  split.
  - intros ip v1 w2 Hv.
    assert (Hget : cache.get (dnsCache w2) ip = v1).
    { unfold w2.
      destruct (do_lookups_keeps r ls (snd (resolveDNS r ip w))) as [Hd _].
      rewrite Hd; rewrite resolveDNS_cached; auto. }
    rewrite (resolveDNS_hit r ip w2) by congruence. now rewrite Hget.
  - intros idx agent v1 w2 Hv.
    assert (Hget : cache.get (ifaceCache w2) (ifaceKey agent idx) = v1).
    { unfold w2.
      destruct (do_lookups_keeps r ls (snd (resolveIFace r idx agent w)))
        as [_ Hi].
      rewrite Hi; rewrite resolveIFace_cached; auto. }
    rewrite (resolveIFace_hit r idx agent w2) by congruence.
    now rewrite Hget.
Qed.

(** C9, amended.  Two distinct pairs of agent address and interface
    index can have the same cache key; and whenever the keys of two pairs
    are equal and the first resolves to a non-empty value, resolving the
    second answers the value of the first without a backend call. *)
Theorem ifaceKey_collision :
  (exists agent idx agent' idx',
     (agent, idx) <> (agent', idx')
     /\ ifaceKey agent idx = ifaceKey agent' idx')
  /\ (forall r w agent idx agent' idx',
        ifaceKey agent idx = ifaceKey agent' idx' ->
        let v1 := fst (resolveIFace r idx agent w) in
        let w1 := snd (resolveIFace r idx agent w) in
        v1 <> "" ->
        fst (resolveIFace r idx' agent' w1) = v1
        /\ history (snd (resolveIFace r idx' agent' w1)) = history w1
        /\ backend (snd (resolveIFace r idx' agent' w1)) = backend w1).
Proof.
  split.
  - exists "10.0.0.1-2", "3", "10.0.0.1", "2-3". split; [discriminate|].
    reflexivity.
  - intros r w agent idx agent' idx' Hkey v1 w1 Hv.
    assert (Hget : cache.get (ifaceCache w1) (ifaceKey agent' idx') = v1).
    { unfold w1. rewrite <- Hkey. apply resolveIFace_cached. }
    rewrite (resolveIFace_hit r idx' agent' w1) by congruence.
    now rewrite Hget.
Qed.

End ResolverFacts.

(** ** The two backends *)

Section BackendFacts.

Context `{RegexpPkg} `{Network}.



Lemma ipToFqdn_value (ip : string) (n : Net) :
  fst (ipToFqdn ip n)
  = match LookupAddr 10000 ip (env n) with
    | (name0 :: _, None, _) => name0
    | _ => ip
    end.
Proof.
  unfold ipToFqdn.
  destruct (LookupAddr 10000 ip (env n)) as [[[|name0 names] [err|]] e];
    reflexivity.
Qed.

(** C3, amended.  On a cache miss, when the reverse lookup ends with an
    error or without names, [ipToFqdn] answers the IP address string,
    and the value resolved and stored in the cache is the name rewriter
    applied to that string: the IP address string itself when no pattern
    is configured or the pattern matches nowhere in it. *)
Theorem resolveDNS_lookup_failure (dns_ snmp_ : bool) (community : string)
    (p : dnsProcessor) (f : Z -> string -> string -> string -> Net -> string * Net)
    (ip : string) (w : world Net) :
  let r := mkAsyncResolver dns_ snmp_ community p ipToFqdn f in
  let answer := fst (LookupAddr 10000 ip (env (backend w))) in
  cache.get (dnsCache w) ip = "" ->
  snd answer <> None \/ fst answer = [] ->
  fst (ipToFqdn ip (backend w)) = ip
  /\ fst (resolveDNS r ip w) = transform p ip
  /\ dnsCache (snd (resolveDNS r ip w)) !! ip = Some (transform p ip)
  /\ (rePattern p = None -> fst (resolveDNS r ip w) = ip)
  /\ (forall re, rePattern p = Some re ->
        FindAllStringSubmatchIndex re ip (-1) = [] ->
        fst (resolveDNS r ip w) = ip).
Proof.
  intros r answer Hmiss Hfail.
  assert (Hip : fst (ipToFqdn ip (backend w)) = ip).
  { rewrite ipToFqdn_value. unfold answer in Hfail.
    destruct (LookupAddr 10000 ip (env (backend w)))
      as [[[|name0 names] [err|]] e]; cbn in *; try reflexivity.
    destruct Hfail; congruence. }
  rewrite (resolveDNS_miss r ip w Hmiss). cbn [fst snd dnsCache dnsp r ipToFqdnFn].
  rewrite Hip. split; [reflexivity|]. split; [reflexivity|].
  split; [apply lookup_insert_eq|].
  split; [apply transform_no_pattern|].
  intros re. apply transform_no_match.
Qed.


End BackendFacts.

(** ** The completion protocol *)

Lemma wrap_int_small (x : Z) : - 2 ^ 63 <= x < 2 ^ 63 -> wrap_int x = x.
Proof. intros Hx. unfold wrap_int. rewrite Z.mod_small; lia. Qed.

Lemma call_inv_inflight (c : call) :
  call_inv c -> (length (inflight c) <= 6)%nat.
Proof.
  intros (_ & _ & _ & Hperm & Hsix & _).
  apply Permutation_length in Hperm. rewrite length_app in Hperm. lia.
Qed.

Lemma call_inv_enter (record : gmap string string) :
  call_inv (@enter record).
Proof.
  unfold call_inv, call_done; cbn. repeat split; try lia; reflexivity.
Qed.

Lemma call_inv_send (fn : asyncJob) (n : nat) (c : call) :
  call_inv c -> (pc c < 7)%nat -> (pc c <> 3)%nat -> n = S (pc c) ->
  call_inv (set_pc n (send fn c)).
Proof.
  intros Hinv Hpc Hpc3 ->. pose proof (call_inv_inflight c Hinv) as Hsix.
  destruct Hinv as (Hle & Hcnt & Hfired & Hperm & Hsub & Hlo & Hhi).
  unfold call_inv, call_done in *.
  cbn [set_pc send pc or m inflight submitted finished counter fired
       increment].
  assert (Hlt : (pc c <? 8)%nat = true) by (apply Nat.ltb_lt; lia).
  assert (Hlt' : (S (pc c) <? 8)%nat = true) by (apply Nat.ltb_lt; lia).
  assert (Hne : (pc c =? 8)%nat = false) by (apply Nat.eqb_neq; lia).
  assert (Hne' : (S (pc c) =? 8)%nat = false) by (apply Nat.eqb_neq; lia).
  rewrite Hlt, Hne in *. rewrite Hlt', Hne'. cbn [andb] in *.
  rewrite !length_app. cbn [length].
  repeat split; try lia.
  - rewrite Hcnt, wrap_int_small by lia. lia.
  - exact Hfired.
  - rewrite Hperm. rewrite app_assoc. reflexivity.
Qed.

Lemma call_inv_set_pc (n : nat) (c : call) :
  call_inv c -> (pc c < 7)%nat ->
  n = S (pc c) \/ (pc c = 3%nat /\ n = 7%nat) ->
  call_inv (set_pc n c).
Proof.
  intros (Hle & Hcnt & Hfired & Hperm & Hsub & Hlo & Hhi) Hpc Hn.
  unfold call_inv, call_done in *.
  cbn [set_pc pc or m inflight submitted finished].
  assert (Hlt : (pc c <? 8)%nat = true) by (apply Nat.ltb_lt; lia).
  assert (Hlt' : (n <? 8)%nat = true) by (apply Nat.ltb_lt; lia).
  assert (Hne : (pc c =? 8)%nat = false) by (apply Nat.eqb_neq; lia).
  assert (Hne' : (n =? 8)%nat = false) by (apply Nat.eqb_neq; lia).
  rewrite Hlt, Hne in *. rewrite Hlt', Hne'.
  repeat split; try assumption; lia.
Qed.

Section CompletionFacts.

Context `{RegexpPkg}.
Context {B : Type}.
Variables dnsTTL snmpTTL : Z.
Implicit Types (r : asyncResolver B) (c : call) (w : world B)
         (s : @system B).

Lemma call_inv_dnsResolve r (srcTag dstTag : string) (n : nat) c :
  call_inv c -> (pc c < 3)%nat -> n = S (pc c) ->
  call_inv (set_pc n (dnsResolve r srcTag dstTag c)).
Proof.
  intros Hinv Hpc Hn. unfold dnsResolve.
  destruct (Metric.GetTag (m c) srcTag) as [value|];
    [destruct (dns r)|];
    (apply call_inv_send; [assumption|lia|lia|assumption])
    || (apply call_inv_set_pc; [assumption|lia|now left]).
Qed.

Lemma call_inv_ifaceResolve r (srcTag dstTag agent : string) (n : nat) c :
  call_inv c -> (4 <= pc c < 7)%nat -> n = S (pc c) ->
  call_inv (set_pc n (ifaceResolve r srcTag dstTag agent c)).
Proof.
  intros Hinv Hpc Hn. unfold ifaceResolve.
  destruct (Metric.GetTag (m c) srcTag) as [value|];
    [destruct (snmpIfaces r)|];
    (apply call_inv_send; [assumption|lia|lia|assumption])
    || (apply call_inv_set_pc; [assumption|lia|now left]).
Qed.

Lemma call_inv_guard c :
  call_inv c -> pc c = 7%nat ->
  call_inv (set_pc 8 (mkCall (m c) (decrement (m c) (or c)) (pc c)
                             (agentIP c) (inflight c) (m0 c) (submitted c)
                             (finished c))).
Proof.
  intros Hinv Hpc. pose proof (call_inv_inflight c Hinv) as Hsix.
  destruct Hinv as (Hle & Hcnt & Hfired & Hperm & Hsub & Hlo & Hhi).
  unfold call_inv, call_done in *.
  cbn [set_pc pc or m inflight submitted finished counter fired decrement].
  rewrite Hpc in *. cbn [Nat.ltb Nat.leb Nat.eqb andb] in *.
  rewrite Hcnt, wrap_int_small by lia. rewrite Hfired.
  repeat split; try assumption; try lia.
  destruct (inflight c) as [|fn fns]; cbn [length].
  - rewrite bool_decide_eq_true_2 by reflexivity. reflexivity.
  - rewrite bool_decide_eq_false_2 by discriminate.
    now replace (Z.of_nat (S (length fns)) + 1 - 1 =? 0) with false
      by (symmetry; apply Z.eqb_neq; lia).
Qed.

Lemma call_inv_resolve_step r c :
  call_inv c -> (pc c < 8)%nat -> call_inv (resolve_step r c).
Proof.
  intros Hinv Hpc. unfold resolve_step.
  destruct (pc c) as [|[|[|[|[|[|[|[|n]]]]]]]] eqn:Epc; try lia.
  - apply call_inv_dnsResolve; [assumption|lia|lia].
  - apply call_inv_dnsResolve; [assumption|lia|lia].
  - apply call_inv_dnsResolve; [assumption|lia|lia].
  - destruct (Metric.GetTag (m c) "agent_ip") as [a|].
    + apply call_inv_set_pc; [|cbn; lia|cbn; left; lia].
      destruct Hinv as (? & ? & ? & ? & ? & ? & ?).
      unfold call_inv, call_done in *. now cbn.
    + apply call_inv_set_pc; [assumption|lia|right; lia].
  - apply call_inv_ifaceResolve; [assumption|lia|lia].
  - apply call_inv_ifaceResolve; [assumption|lia|lia].
  - apply call_inv_ifaceResolve; [assumption|lia|lia].
  - now apply call_inv_guard.
Qed.

Lemma run_job_shape r (fn : asyncJob) w c :
  exists dstTag name,
    snd (run_job r fn w c) = resolved dstTag name c
    /\ dstTag = match fn with
                | DNSJob _ d => d
                | IFaceJob _ _ d => d
                end.
Proof.
  destruct fn as [value dstTag|value agent dstTag]; cbn [run_job].
  - destruct (resolveDNS r value w) as [fqdn w']. now exists dstTag, fqdn.
  - destruct (resolveIFace r value agent w) as [name w'].
    now exists dstTag, name.
Qed.

Lemma worker_step_shape r (k : nat) w c w' c' :
  worker_step r k w c = Some (w', c') ->
  exists fn dstTag name,
    inflight c !! k = Some fn
    /\ w' = fst (run_job r fn w c)
    /\ dstTag = match fn with
                | DNSJob _ d => d
                | IFaceJob _ _ d => d
                end
    /\ c' = mkCall (Metric.AddTag (m c) dstTag name)
                   (decrement (Metric.AddTag (m c) dstTag name) (or c))
                   (pc c) (agentIP c) (delete k (inflight c)) (m0 c)
                   (submitted c) (finished c ++ [fn]).
Proof.
  unfold worker_step. intros Hstep.
  destruct (inflight c !! k) as [fn|] eqn:Hfn; [|discriminate].
  cbn [mbind option_bind] in Hstep.
  destruct (run_job_shape r fn w c) as (dstTag & name & Hsnd & Hdst).
  destruct (run_job r fn w c) as [w1 c1] eqn:Erun. cbn [snd] in Hsnd.
  subst c1. injection Hstep as <- <-.
  exists fn, dstTag, name. rewrite Erun.
  split; [reflexivity|]. split; [reflexivity|].
  split; [assumption|reflexivity].
Qed.

Lemma call_inv_worker_step r (k : nat) w c w' c' :
  call_inv c -> worker_step r k w c = Some (w', c') -> call_inv c'.
Proof.
  intros Hinv Hstep. pose proof (call_inv_inflight c Hinv) as Hsix.
  destruct (worker_step_shape r k w c w' c' Hstep)
    as (fn & dstTag & name & Hfn & _ & _ & ->).
  destruct Hinv as (Hle & Hcnt & Hfired & Hperm & Hsub & Hlo & Hhi).
  unfold call_inv, call_done in *.
  cbn [pc or m inflight submitted finished counter fired decrement].
  pose proof (lookup_lt_Some _ _ _ Hfn) as Hk.
  assert (Hlen : length (inflight c) = S (length (delete k (inflight c)))).
  { rewrite length_delete by eauto. lia. }
  rewrite Hcnt, wrap_int_small by (destruct (pc c <? 8)%nat; lia).
  rewrite bool_decide_eq_false_2 in Hfired
    by (intros E; rewrite E in Hk; cbn in Hk; lia).
  rewrite andb_false_r in Hfired. rewrite Hfired, Hlen.
  repeat split; try assumption; try lia.
  - destruct (Nat.ltb_spec (pc c) 8) as [Hlt|Hge].
    + replace (pc c =? 8)%nat with false by (symmetry; apply Nat.eqb_neq; lia).
      now replace (_ =? 0) with false by (symmetry; apply Z.eqb_neq; lia).
    + replace (pc c =? 8)%nat with true by (symmetry; apply Nat.eqb_eq; lia).
      cbn [andb app].
      destruct (delete k (inflight c)) as [|fn' fns]; cbn [length].
      * rewrite bool_decide_eq_true_2 by reflexivity. reflexivity.
      * rewrite bool_decide_eq_false_2 by discriminate.
        now replace (_ =? 0) with false by (symmetry; apply Z.eqb_neq; lia).
  - rewrite Hperm, <- app_assoc. apply Permutation_app_head.
    rewrite (delete_Permutation _ _ _ Hfn) at 1. reflexivity.
Qed.


(** How one step of the resolver changes, or makes, the call at index
    [i]. *)
Lemma step_call r (l : label) s s' (i : nat) c' :
  step r l s = Some s' ->
  sys_calls s' !! i = Some c' ->
  sys_calls s !! i = Some c'
  \/ (exists record,
        l = Enter record /\ c' = enter record
        /\ i = length (sys_calls s))
  \/ (exists c,
        l = Caller i /\ sys_calls s !! i = Some c /\ (pc c < 8)%nat
        /\ c' = resolve_step r c)
  \/ (exists c k,
        l = Worker i k /\ sys_calls s !! i = Some c
        /\ worker_step r k (sys_world s) c = Some (sys_world s', c')).
Proof.
  intros Hstep Hc'. destruct l as [record|j|j k| | |]; cbn [step] in Hstep.
  - injection Hstep as <-. cbn [sys_calls] in Hc'.
    apply lookup_app_Some in Hc' as [Hold|[Hlen Hnew]]; [now left|].
    right; left. exists record.
    destruct (i - length (sys_calls s))%nat as [|n] eqn:E;
      cbn in Hnew; [|discriminate].
    injection Hnew as <-. repeat split; lia.
  - destruct (sys_calls s !! j) as [c|] eqn:Hc; [|discriminate].
    cbn [mbind option_bind] in Hstep.
    destruct (Nat.ltb_spec (pc c) 8) as [Hpc|]; [|discriminate].
    injection Hstep as <-. cbn [sys_calls] in Hc'.
    destruct (decide (j = i)) as [->|Hne].
    + rewrite list_lookup_insert_eq in Hc' by eauto using lookup_lt_Some.
      injection Hc' as <-. right; right; left. now exists c.
    + rewrite list_lookup_insert_ne in Hc' by exact Hne. now left.
  - destruct (sys_calls s !! j) as [c|] eqn:Hc; [|discriminate].
    cbn [mbind option_bind] in Hstep.
    destruct (worker_step r k (sys_world s) c) as [[w1 c1]|] eqn:Hw;
      [|discriminate].
    cbn in Hstep. injection Hstep as <-. cbn [sys_calls sys_world] in *.
    destruct (decide (j = i)) as [->|Hne].
    + rewrite list_lookup_insert_eq in Hc' by eauto using lookup_lt_Some.
      injection Hc' as <-. right; right; right. now exists c, k.
    + rewrite list_lookup_insert_ne in Hc' by exact Hne. now left.
  - destruct (dnsTTLTicker s); [|discriminate]. injection Hstep as <-.
    now left.
  - destruct (ifaceTTLTicker s); [|discriminate]. injection Hstep as <-.
    now left.
  - injection Hstep as <-. now left.
Qed.

(** Induction over the runs of the resolver, for a property of its
    calls. *)
Lemma run_calls_ind r (okm : gmap string string -> Prop) (P : call -> Prop) :
  (forall record, okm record -> P (enter record)) ->
  (forall c, P c -> (pc c < 8)%nat -> P (resolve_step r c)) ->
  (forall c k w w' c', P c -> worker_step r k w c = Some (w', c') -> P c') ->
  forall ls s s',
    Forall (label_ok okm) ls ->
    run r ls s = Some s' ->
    (forall i c, sys_calls s !! i = Some c -> P c) ->
    forall i c, sys_calls s' !! i = Some c -> P c.
Proof.
  intros Henter Hcaller Hworker ls.
  induction ls as [|l ls IH]; intros s s' Hok Hrun Hs i c Hc.
  - injection Hrun as <-. eauto.
  - cbn [run] in Hrun.
    destruct (step r l s) as [s1|] eqn:Hstep; [|discriminate].
    cbn [mbind option_bind] in Hrun.
    apply Forall_cons in Hok as [Hl Hok].
    eapply (IH s1 s' Hok Hrun); [|exact Hc].
    intros j c1 Hc1.
    destruct (step_call r l s s1 j c1 Hstep Hc1)
      as [Hold|[(record & -> & -> & _)|[(c0 & _ & Hc0 & Hpc & ->)
                                         |(c0 & k & _ & Hc0 & Hw)]]];
      eauto.
Qed.

(** A resolver just started has empty caches and no call. *)
Lemma start_fresh (b : B) s0 :
  start dnsTTL snmpTTL b = Some s0 ->
  sys_calls s0 = []
  /\ sys_world s0 = mkWorld cache.newCache cache.newCache 0 b [].
Proof.
  unfold start, NewTicker. intros Hstart.
  destruct (dnsTTL =? 0), (snmpTTL =? 0), (dnsTTL <? 0), (snmpTTL <? 0);
    cbn in Hstart; try discriminate; injection Hstart as <-; now split.
Qed.

Lemma reachable_call_inv r (b : B) s (i : nat) c :
  reachable r dnsTTL snmpTTL b s -> sys_calls s !! i = Some c -> call_inv c.
Proof.
  intros (s0 & ls & Hstart & Hrun).
  apply start_fresh in Hstart as [Hcalls _].
  apply (run_calls_ind r (fun _ => True) call_inv) with (ls := ls) (s := s0).
  - intros record _. apply call_inv_enter.
  - intros c0 Hc0 Hpc. now apply call_inv_resolve_step.
  - intros c0 k w w' c' Hc0 Hw. now apply (call_inv_worker_step r k w c0 w').
  - apply Forall_forall. intros []; intros; exact I.
  - exact Hrun.
  - intros j c0 Hc0. rewrite Hcalls in Hc0. discriminate.
Qed.

Lemma measure_send (fn : asyncJob) (n : nat) c :
  (pc c < 8)%nat -> n = S (pc c) ->
  (call_measure (set_pc n (send fn c)) < call_measure c)%nat.
Proof.
  intros Hpc ->. unfold call_measure. cbn [set_pc send pc inflight].
  rewrite length_app. cbn [length]. lia.
Qed.

Lemma measure_set_pc (n : nat) c :
  (pc c < n <= 8)%nat -> (call_measure (set_pc n c) < call_measure c)%nat.
Proof. intros Hpc. unfold call_measure. cbn [set_pc pc inflight]. lia. Qed.

Lemma measure_resolve_step r c :
  (pc c < 8)%nat -> (call_measure (resolve_step r c) < call_measure c)%nat.
Proof.
  intros Hpc. unfold resolve_step, dnsResolve, ifaceResolve.
  destruct (pc c) as [|[|[|[|[|[|[|[|n]]]]]]]] eqn:Epc; try lia;
    repeat match goal with
      | |- context [match ?x with _ => _ end] => destruct x
      end;
    try (apply measure_send; lia);
    try (apply measure_set_pc; lia);
    unfold call_measure; cbn [set_pc set_agentIP pc inflight]; lia.
Qed.

Lemma measure_worker_step r (k : nat) w c w' c' :
  worker_step r k w c = Some (w', c') ->
  (call_measure c' < call_measure c)%nat.
Proof.
  intros Hstep.
  destruct (worker_step_shape r k w c w' c' Hstep)
    as (fn & dstTag & name & Hfn & _ & _ & ->).
  unfold call_measure. cbn [pc inflight].
  pose proof (lookup_lt_Some _ _ _ Hfn).
  rewrite length_delete by eauto. lia.
Qed.

Lemma call_not_done_step r s (i : nat) c :
  sys_calls s !! i = Some c -> (pc c <= 8)%nat -> call_done c = false ->
  exists l s', own_label i l = true /\ step r l s = Some s'.
Proof.
  intros Hc Hle Hdone. unfold call_done in Hdone.
  destruct (Nat.ltb_spec (pc c) 8) as [Hpc|Hpc].
  - exists (Caller i). eexists.
    split; [apply bool_decide_eq_true_2; reflexivity|].
    cbn [step]. rewrite Hc. cbn [mbind option_bind].
    now replace (pc c <? 8)%nat with true by (symmetry; apply Nat.ltb_lt; lia).
  - replace (pc c =? 8)%nat with true in Hdone
      by (symmetry; apply Nat.eqb_eq; lia).
    destruct (inflight c) as [|fn fns] eqn:Hfl;
      [now rewrite bool_decide_eq_true_2 in Hdone|].
    exists (Worker i 0). unfold step. rewrite Hc. cbn [mbind option_bind].
    unfold worker_step. rewrite Hfl.
    change ((fn :: fns) !! 0%nat) with (Some fn).
    cbn [mbind option_bind].
    destruct (run_job r fn (sys_world s) c) as [w1 c1].
    eexists. split; [apply bool_decide_eq_true_2; reflexivity|reflexivity].
Qed.


Lemma step_other r (l : label) s s' (i : nat) c :
  own_label i l = false ->
  step r l s = Some s' ->
  sys_calls s !! i = Some c -> sys_calls s' !! i = Some c.
Proof.
  intros Hl Hstep Hc. destruct l as [record|j|j k| | |]; cbn [step] in Hstep.
  - injection Hstep as <-. cbn [sys_calls]. now apply lookup_app_l_Some.
  - apply bool_decide_eq_false in Hl.
    destruct (sys_calls s !! j) as [c0|]; [|discriminate].
    cbn [mbind option_bind] in Hstep.
    destruct (pc c0 <? 8)%nat; [|discriminate]. injection Hstep as <-.
    cbn [sys_calls]. now rewrite list_lookup_insert_ne.
  - apply bool_decide_eq_false in Hl.
    destruct (sys_calls s !! j) as [c0|]; [|discriminate].
    cbn [mbind option_bind] in Hstep.
    destruct (worker_step r k (sys_world s) c0) as [[w1 c1]|];
      [|discriminate].
    cbn in Hstep. injection Hstep as <-.
    cbn [sys_calls]. now rewrite list_lookup_insert_ne.
  - destruct (dnsTTLTicker s); [|discriminate]. now injection Hstep as <-.
  - destruct (ifaceTTLTicker s); [|discriminate]. now injection Hstep as <-.
  - now injection Hstep as <-.
Qed.

Lemma step_own r (l : label) s s' (i : nat) c :
  own_label i l = true ->
  step r l s = Some s' ->
  sys_calls s !! i = Some c ->
  exists c', sys_calls s' !! i = Some c'
             /\ (call_measure c' < call_measure c)%nat.
Proof.
  intros Hl Hstep Hc. pose proof (lookup_lt_Some _ _ _ Hc) as Hi.
  destruct l as [record|j|j k| | |]; cbn [own_label] in Hl; try discriminate;
    apply bool_decide_eq_true in Hl; subst j; cbn [step] in Hstep;
    rewrite Hc in Hstep; cbn [mbind option_bind] in Hstep.
  - destruct (Nat.ltb_spec (pc c) 8) as [Hpc|]; [|discriminate].
    injection Hstep as <-. exists (resolve_step r c).
    cbn [sys_calls]. rewrite list_lookup_insert_eq by exact Hi.
    split; [reflexivity|]. now apply measure_resolve_step.
  - destruct (worker_step r k (sys_world s) c) as [[w1 c1]|] eqn:Hw;
      [|discriminate].
    cbn in Hstep. injection Hstep as <-. exists c1.
    cbn [sys_calls]. rewrite list_lookup_insert_eq by exact Hi.
    split; [reflexivity|]. exact (measure_worker_step r k _ c w1 c1 Hw).
Qed.

(** C1.  For every call of [resolve], at every moment of every run of
    the resolver: the call has sent at most six jobs, each of them either
    finished or still outstanding; the counter is the number of
    outstanding jobs, plus one until [resolve] has made its final
    decrement; the callback has run at most once,
    and it has run exactly when [resolve] has made its final decrement
    and no job of the call is outstanding, so only after every job that
    was sent has finished and with it decremented the counter, whatever
    the order in which the worker took them; when no job was sent, it is
    the final decrement in [resolve] that runs it.  Until the callback
    has run, the call has a step to take; each step of the call lowers
    [call_measure], and no other step touches the call: the callback
    runs after at most sixteen steps of the call. *)
Theorem completion_fires_once r (b : B) s (i : nat) c :
  reachable r dnsTTL snmpTTL b s ->
  sys_calls s !! i = Some c ->
  (length (submitted c) <= 6)%nat
  /\ submitted c ≡ₚ finished c ++ inflight c
  /\ counter (or c)
     = Z.of_nat (length (inflight c)) + (if (pc c <? 8)%nat then 1 else 0)
  /\ fired (or c) = (if call_done c then [m c] else [])
  /\ (fired (or c) <> [] -> pc c = 8%nat /\ finished c ≡ₚ submitted c)
  /\ (pc c = 7%nat -> submitted c = [] ->
      fired (or (resolve_step r c)) = [m c])
  /\ (fired (or c) = [] ->
      exists l s',
        own_label i l = true /\ step r l s = Some s')
  /\ (call_measure c <= 16)%nat
  /\ (forall l s',
        step r l s = Some s' ->
        exists c', sys_calls s' !! i = Some c'
                   /\ if own_label i l
                      then (call_measure c' < call_measure c)%nat
                      else c' = c).
Proof.
  intros Hreach Hc.
  pose proof (reachable_call_inv r b s i c Hreach Hc) as Hinv.
  pose proof (call_inv_inflight c Hinv) as Hsix.
  pose proof Hinv as (Hle & Hcnt & Hfired & Hperm & Hsub & Hlo & Hhi).
  split; [exact Hsub|]. split; [exact Hperm|]. split; [exact Hcnt|].
  split; [exact Hfired|].
  split; [|split; [|split; [|split]]].
  - intros Hne. rewrite Hfired in Hne. unfold call_done in Hne.
    destruct (Nat.eqb_spec (pc c) 8) as [Hpc|]; [|now elim Hne].
    destruct (decide (inflight c = [])) as [Hfl|Hfl].
    + split; [exact Hpc|]. rewrite Hperm, Hfl. now rewrite app_nil_r.
    + rewrite bool_decide_eq_false_2 in Hne by exact Hfl. now elim Hne.
  - intros Hpc Hnone. rewrite Hnone in Hperm.
    apply Permutation_nil_l in Hperm. symmetry in Hperm.
    apply app_eq_nil in Hperm as [_ Hfl].
    pose proof (call_inv_guard c Hinv Hpc) as (_ & _ & Hfired' & _).
    unfold resolve_step. rewrite Hpc.
    unfold call_done in Hfired'.
    cbn [set_pc pc inflight or m] in *.
    rewrite Hfired', Hfl. reflexivity.
  - intros Hnot. apply (call_not_done_step r s i c Hc Hle).
    rewrite Hfired in Hnot. now destruct (call_done c).
  - unfold call_measure. apply Permutation_length in Hperm.
    rewrite length_app in Hperm. lia.
  - intros l s' Hstep. destruct (own_label i l) eqn:Hl.
    + exact (step_own r l s s' i c Hl Hstep Hc).
    + exists c. split; [|reflexivity].
      exact (step_other r l s s' i c Hl Hstep Hc).
Qed.


(** *** A record with nothing to resolve *)

Lemma no_source_tags_lookup (record : gmap string string) (k : string) :
  no_source_tags record -> k ∈ source_tags ->
  Metric.GetTag record k = None.
Proof.
  intros Hno Hk. unfold no_source_tags in Hno.
  rewrite Forall_forall in Hno. now apply Hno.
Qed.

Lemma source_tag_cases (P : string -> Prop) :
  (forall k, k ∈ source_tags -> P k) ->
  P "agent_ip" /\ P "src_ip" /\ P "dst_ip"
  /\ P "source_id_index" /\ P "netif_index_out" /\ P "netif_index_in".
Proof.
  intros HP. unfold source_tags in HP.
  repeat split; apply HP; set_solver.
Qed.

Lemma m0_resolve_step r c : m0 (resolve_step r c) = m0 c.
Proof.
  unfold resolve_step, dnsResolve, ifaceResolve.
  destruct (pc c) as [|[|[|[|[|[|[|[|n]]]]]]]]; try reflexivity;
    repeat match goal with
      | |- context [match ?x with _ => _ end] => destruct x
      end; reflexivity.
Qed.

Lemma resolve_step_skip r c :
  no_source_tags (m c) -> resolve_step r c = skip_step c.
Proof.
  intros Hno.
  destruct (source_tag_cases _ (fun k => no_source_tags_lookup (m c) k Hno))
    as (Ha & Hs & Hd & Hi1 & Hi2 & Hi3).
  unfold resolve_step, skip_step, dnsResolve, ifaceResolve.
  destruct (pc c) as [|[|[|[|[|[|[|[|n]]]]]]]];
    rewrite ?Ha, ?Hs, ?Hd, ?Hi1, ?Hi2, ?Hi3; reflexivity.
Qed.

Lemma m_skip_step c : m (skip_step c) = m c.
Proof.
  unfold skip_step.
  now destruct (pc c) as [|[|[|[|[|[|[|[|n]]]]]]]].
Qed.

Lemma iter_resolve_step_skip r (record : gmap string string) (n : nat) :
  no_source_tags record ->
  Nat.iter n (resolve_step r) (enter record)
  = Nat.iter n skip_step (enter record)
  /\ m (Nat.iter n skip_step (enter record)) = record.
Proof.
  intros Hno. induction n as [|n [IH Hm]]; [now split|].
  cbn [Nat.iter nat_rect]. unfold Nat.iter in *. rewrite IH.
  rewrite resolve_step_skip by (now rewrite Hm).
  split; [reflexivity|]. now rewrite m_skip_step.
Qed.

Lemma untouched_step r c :
  (no_source_tags (m0 c) -> untouched c) -> (pc c < 8)%nat ->
  no_source_tags (m0 (resolve_step r c)) -> untouched (resolve_step r c).
Proof.
  intros Hc Hpc Hno. rewrite m0_resolve_step in Hno.
  specialize (Hc Hno). pose proof Hc as (Hm & Hsub & Hfl & Hfin).
  rewrite <- Hm in Hno.
  destruct (source_tag_cases _ (fun k => no_source_tags_lookup (m c) k Hno))
    as (Ha & Hs & Hd & Hi1 & Hi2 & Hi3).
  unfold resolve_step, dnsResolve, ifaceResolve.
  destruct (pc c) as [|[|[|[|[|[|[|[|n]]]]]]]];
    rewrite ?Ha, ?Hs, ?Hd, ?Hi1, ?Hi2, ?Hi3; try lia; exact Hc.
Qed.

Lemma reachable_untouched r (b : B) s (i : nat) c :
  reachable r dnsTTL snmpTTL b s -> sys_calls s !! i = Some c ->
  no_source_tags (m0 c) -> untouched c.
Proof.
  intros (s0 & ls & Hstart & Hrun).
  apply start_fresh in Hstart as [Hcalls _].
  apply (run_calls_ind r (fun _ => True)
           (fun c => no_source_tags (m0 c) -> untouched c))
    with (ls := ls) (s := s0).
  - intros record _ _. now repeat split.
  - intros c0 Hc0 Hpc. now apply untouched_step.
  - intros c0 k w w' c' Hc0 Hw Hno.
    destruct (worker_step_shape r k w c0 w' c' Hw)
      as (fn & dstTag & name & Hfn & _ & _ & ->).
    cbn [m0] in Hno. destruct (Hc0 Hno) as (_ & _ & Hfl & _).
    rewrite Hfl in Hfn. discriminate.
  - apply Forall_forall. intros []; intros; exact I.
  - exact Hrun.
  - intros j c0 Hc0. rewrite Hcalls in Hc0. discriminate.
Qed.

(** C5.  Take a record with none of the six source tags.  When
    [resolve] returns, the callback has run once, with the record as it
    came in, and no job was sent.  And in every run of the resolver, a
    call made with such a record never has sent a job, keeps its record as
    it came in, has run the callback once with that record when it has
    returned and not at all before, and can always take its next statement
    until then. *)
Theorem resolve_nothing_to_resolve r (record : gmap string string) :
  no_source_tags record ->
  (let c := resolve r record in
   pc c = 8%nat /\ fired (or c) = [record] /\ submitted c = []
   /\ inflight c = [] /\ m c = record)
  /\ (forall (b : B) s (i : nat) c,
        reachable r dnsTTL snmpTTL b s ->
        sys_calls s !! i = Some c ->
        m0 c = record ->
        submitted c = [] /\ inflight c = [] /\ m c = record
        /\ fired (or c) = (if (pc c =? 8)%nat then [record] else [])
        /\ ((pc c < 8)%nat ->
            exists s', step r (Caller i) s = Some s')).
Proof.
  intros Hno.
  split.
  - unfold resolve.
    destruct (iter_resolve_step_skip r record 8 Hno) as [-> _].
    cbv zeta. now vm_compute.
  - intros b s i c Hreach Hc Hm0. subst record.
    destruct (reachable_untouched r b s i c Hreach Hc Hno)
      as (Hm & Hsub & Hfl & Hfin).
    pose proof (reachable_call_inv r b s i c Hreach Hc)
      as (Hle & _ & Hfired & _).
    split; [exact Hsub|]. split; [exact Hfl|]. split; [exact Hm|].
    split.
    + rewrite Hfired. unfold call_done. rewrite Hfl, Hm.
      now destruct (pc c =? 8)%nat.
    + intros Hpc. cbn [step]. rewrite Hc. cbn [mbind option_bind].
      replace (pc c <? 8)%nat with true
        by (symmetry; apply Nat.ltb_lt; lia).
      eauto.
Qed.


(** *** The keys of the caches *)













End CompletionFacts.

(** ** The executable instance of the [regexp] interface *)

Lemma string_of_list_ascii_app (a b : list ascii) :
  string_of_list_ascii (a ++ b)
  = string_of_list_ascii a +:+ string_of_list_ascii b.
Proof.
  induction a as [|x a IH]; [reflexivity|].
  cbn [app string_of_list_ascii]. rewrite IH. reflexivity.
Qed.

Lemma expand_appends (fuel : nat) :
  forall dst template src match_,
    RE2Fragment.expand fuel dst template src match_
    = (dst ++ RE2Fragment.expand fuel [] template src match_)%list.
Proof.
  induction fuel as [|fuel IH]; intros dst template src match_;
    [reflexivity|].
  assert (Hstep : forall d e t,
             d = (dst ++ e)%list ->
             RE2Fragment.expand fuel d t src match_
             = (dst ++ RE2Fragment.expand fuel e t src match_)%list).
  { intros d e t ->. rewrite IH, (IH e). now rewrite app_assoc. }
  cbn [RE2Fragment.expand].
  destruct (RE2Fragment.span RE2Fragment.not_dollar template)
    as [before [|d after]]; [reflexivity|].
  destruct after as [|a after'].
  - destruct (RE2Fragment.extract []) as [[num rest]|]; apply Hstep;
      now rewrite <- ?app_assoc.
  - destruct (Ascii.eqb_spec a "$"%char) as [->|Hne].
    + apply Hstep. now rewrite <- ?app_assoc.
    + assert (Hcase : forall X (u v : X),
                 match a with
                 | "$"%char => u
                 | _ => v
                 end = v).
      { intros X u v.
        destruct a as [[] [] [] [] [] [] [] []]; try reflexivity.
        now elim Hne. }
      rewrite !Hcase.
      destruct (RE2Fragment.extract (a :: after')) as [[num rest]|];
        apply Hstep; now rewrite <- ?app_assoc.
Qed.

(** The instance has the law of [Expand]. *)
Lemma fragment_ExpandString_appends :
  @ExpandString_appends RE2Fragment.pkg.
Proof.
  intros re dst template src match_. cbn [ExpandString RE2Fragment.pkg].
  unfold RE2Fragment.expandString.
  rewrite expand_appends, string_of_list_ascii_app.
  now rewrite string_of_list_ascii_of_string.
Qed.

(** The rewriter of the comment above [newDNSProcessor] in the source, and
    the rewrites the spec lists. *)
Example rewrite_source_comment :
  (p ← @newDNSProcessor RE2Fragment.pkg
         "s/(.*)(?:(?:-e.[0-9]-[0-9]\.transit)|(?:\.netdevice))(.*)/$1$2";
   Some (transform p "core1-ex1-2.transit.net", transform p "sw3.netdevice.corp"))
  = Some ("core1.net", "sw3.corp").
Proof. vm_compute. reflexivity. Qed.

Example rewrite_example_com :
  (p ← @newDNSProcessor RE2Fragment.pkg "s/(.*)\.example\.com/$1";
   Some (transform p "host.example.com", transform p "host.other.com"))
  = Some ("host", "host.other.com").
Proof. vm_compute. reflexivity. Qed.

Example rewrite_default_template :
  (p ← @newDNSProcessor RE2Fragment.pkg "(a)(b)";
   Some (transform p "abab", transform p "xabyabz"))
  = Some ("abab", "abab").
Proof. vm_compute. reflexivity. Qed.

(** ** The theorems at concrete inputs *)

Import Scripted.

(** The pattern [(a)(b)], compiled. *)
Example compile_ab_groups : RE2Fragment.compile "(a)(b)" = Some ab_groups.
Proof. vm_compute. reflexivity. Qed.

(** C4 at the pattern [(a)(b)] with the default template: two matches in
    [xabyabz], none in [xyz]. *)
Lemma transform_spec_witness :
  let p := @mkDnsProcessor RE2Fragment.pkg (Some ab_groups) "$1$2$3$4$5" in
  transform p "xabyabz" = "abab"
  /\ transform p "xyz" = "xyz"
  /\ transform identity "xyz" = "xyz".
Proof.
  cbv zeta.
  split; [|split].
  - destruct (@transform_spec RE2Fragment.pkg fragment_ExpandString_appends
                (@mkDnsProcessor RE2Fragment.pkg (Some ab_groups)
                   "$1$2$3$4$5") "xabyabz")
      as (_ & _ & Hmatches).
    rewrite (Hmatches ab_groups); [| reflexivity | vm_compute; discriminate].
    vm_compute. reflexivity.
  - destruct (@transform_spec RE2Fragment.pkg fragment_ExpandString_appends
                (@mkDnsProcessor RE2Fragment.pkg (Some ab_groups)
                   "$1$2$3$4$5") "xyz")
      as (_ & Hnone & _).
    apply (Hnone ab_groups); [reflexivity | vm_compute; reflexivity].
  - destruct (@transform_spec RE2Fragment.pkg fragment_ExpandString_appends
                identity "xyz") as (Hid & _ & _).
    apply Hid. reflexivity.
Defined.

Lemma no_slash_decide (t : string) :
  bool_decide ("/"%char ∉ list_ascii_of_string t) = true -> no_slash t.
Proof. apply bool_decide_eq_true_1. Qed.

(** C7 at the sed form and at a bare pattern. *)
Lemma newDNSProcessor_spec_witness :
  @newDNSProcessor RE2Fragment.pkg "s/(.*)\.example\.com/$1"
  = compiled "(.*)\.example\.com" "$1"
  /\ @newDNSProcessor RE2Fragment.pkg "(a)(b)" = compiled "(a)(b)" "$1$2$3$4$5".
Proof.
  destruct (@newDNSProcessor_spec RE2Fragment.pkg) as (_ & Hsed & Hplain).
  split.
  - apply (Hsed "(.*)\.example\.com" "$1").
    apply no_slash_decide. vm_compute. reflexivity.
  - apply (Hplain "(a)(b)"); [discriminate|].
    intros p t Heq. cbv [String.append] in Heq. discriminate Heq.
Defined.

(** C2 fails as stated: the interface walk answers the empty string as the
    name of interface 3; the first resolution stores it, the entry is
    there, and the second resolution calls the backend again. *)
Lemma empty_value_is_looked_up_again :
  let r := resolver_on net_unnamed identity in
  let w1 := snd (resolveIFace r "3" "10.0.0.1" (fresh net_unnamed 0%nat)) in
  let w2 := snd (resolveIFace r "3" "10.0.0.1" w1) in
  ifaceCache w1 !! "10.0.0.1-3" = Some ""
  /\ history w1 = [CallIfIndexToIfName 1 "public" "10.0.0.1" "3"]
  /\ history w2 = [CallIfIndexToIfName 1 "public" "10.0.0.1" "3";
                   CallIfIndexToIfName 2 "public" "10.0.0.1" "3"].
Proof. vm_compute. repeat split. Qed.

(** C2, amended, on the lab network: the address 10.0.0.2 resolves to a
    name, and still does, without a backend call, after two other
    lookups. *)
Lemma cache_idempotence_witness :
  let r := resolver_on net_lab identity in
  let w := fresh net_lab 0%nat in
  let w2 := do_lookups r [LookupDNS "10.0.0.9"; LookupIFace "2" "10.0.0.1"]
                       (snd (resolveDNS r "10.0.0.2" w)) in
  fst (resolveDNS r "10.0.0.2" w) = "host2.example.com."
  /\ fst (resolveDNS r "10.0.0.2" w2) = fst (resolveDNS r "10.0.0.2" w)
  /\ history (snd (resolveDNS r "10.0.0.2" w2)) = history w2
  /\ backend (snd (resolveDNS r "10.0.0.2" w2)) = backend w2.
Proof.
  cbv zeta. split; [vm_compute; reflexivity|].
  destruct (cache_idempotence (resolver_on net_lab identity)
              (fresh net_lab 0%nat)
              [LookupDNS "10.0.0.9"; LookupIFace "2" "10.0.0.1"])
    as [Hdns _].
  apply (Hdns "10.0.0.2"). vm_compute. discriminate.
Defined.

(** C3 fails as stated: with a rewriter that keeps what precedes the first
    dot, a failed lookup of 10.0.0.2 resolves to [10], and that is what
    the cache stores. *)
Lemma fallback_address_is_rewritten :
  let p := @mkDnsProcessor RE2Fragment.pkg
             (RE2Fragment.compile "([^.]*)\..*") "$1" in
  let r := resolver_on net_down p in
  let w := fresh net_down 0%nat in
  @newDNSProcessor RE2Fragment.pkg "s/([^.]*)\..*/$1" = Some p
  /\ snd (fst (@LookupAddr net_down 10000 "10.0.0.2" 0%nat))
     = Some "no such host"
  /\ fst (resolveDNS r "10.0.0.2" w) = "10"
  /\ dnsCache (snd (resolveDNS r "10.0.0.2" w)) !! "10.0.0.2" = Some "10".
Proof.
  cbv zeta. split; [reflexivity|]. vm_compute. repeat split.
Qed.

(** C3, amended, on a network where every lookup fails and with no pattern
    configured. *)
Lemma resolveDNS_lookup_failure_witness :
  let r := resolver_on net_down identity in
  let w := fresh net_down 0%nat in
  fst (@ipToFqdn net_down "10.0.0.2" (backend w)) = "10.0.0.2"
  /\ fst (resolveDNS r "10.0.0.2" w) = "10.0.0.2"
  /\ dnsCache (snd (resolveDNS r "10.0.0.2" w)) !! "10.0.0.2"
     = Some "10.0.0.2".
Proof.
  cbv zeta.
  destruct (@resolveDNS_lookup_failure RE2Fragment.pkg net_down
              true true "public" identity (@ifIndexToIfName net_down)
              "10.0.0.2" (fresh net_down 0%nat))
    as (Hip & Hv & Hstored & Hid & _);
    [vm_compute; reflexivity | left; vm_compute; discriminate|].
  split; [exact Hip|]. split; [exact (Hid eq_refl)|exact Hstored].
Defined.



(** C9 fails as stated: the two pairs have the same key; the first is
    resolved, to the empty string, and its entry is there; resolving the
    second makes a lookup of its own and answers something else. *)
Lemma collision_with_empty_value :
  let r := resolver_on net_unnamed identity in
  let w1 := snd (resolveIFace r "3" "10.0.0.1-2" (fresh net_unnamed 0%nat)) in
  ("10.0.0.1-2", "3") <> ("10.0.0.1", "2-3")
  /\ ifaceKey "10.0.0.1-2" "3" = ifaceKey "10.0.0.1" "2-3"
  /\ ifaceCache w1 !! ifaceKey "10.0.0.1-2" "3" = Some ""
  /\ fst (resolveIFace r "2-3" "10.0.0.1" w1) = "2-3"
  /\ history (snd (resolveIFace r "2-3" "10.0.0.1" w1))
     = [CallIfIndexToIfName 1 "public" "10.0.0.1-2" "3";
        CallIfIndexToIfName 2 "public" "10.0.0.1" "2-3"].
Proof. cbv zeta. split; [discriminate|]. vm_compute. repeat split. Qed.

(** C9, amended, on the lab network: the second pair is answered with the
    name of interface 3 of the first. *)
Lemma ifaceKey_collision_witness :
  let r := resolver_on net_lab identity in
  let w := fresh net_lab 0%nat in
  let w1 := snd (resolveIFace r "3" "10.0.0.1-2" w) in
  fst (resolveIFace r "3" "10.0.0.1-2" w) = "eth1"
  /\ fst (resolveIFace r "2-3" "10.0.0.1" w1)
     = fst (resolveIFace r "3" "10.0.0.1-2" w)
  /\ history (snd (resolveIFace r "2-3" "10.0.0.1" w1)) = history w1
  /\ backend (snd (resolveIFace r "2-3" "10.0.0.1" w1)) = backend w1.
Proof.
  cbv zeta. split; [vm_compute; reflexivity|].
  destruct (@ifaceKey_collision RE2Fragment.pkg (@Net net_lab))
    as [_ Hsecond].
  apply (Hsecond (resolver_on net_lab identity) (fresh net_lab 0%nat)
                 "10.0.0.1-2" "3" "10.0.0.1" "2-3");
    [reflexivity | vm_compute; discriminate].
Defined.

(** C1 on the lab network: three jobs, taken out of order, one of them
    after [resolve] has returned; the callback has run once, with the
    record as the three jobs left it. *)
Lemma completion_fires_once_witness :
  start (60 * second) (60 * second) (boot net_lab 0%nat) = Some flow_start
  /\ run (resolver_on net_lab identity) flow_schedule flow_start
     = Some flow_final
  /\ sys_calls flow_final !! 0%nat = Some flow_call
  /\ length (submitted flow_call) = 3%nat
  /\ fired (or flow_call) = [m flow_call]
  /\ finished flow_call ≡ₚ submitted flow_call
  /\ m flow_call !! "src_host" = Some "host2.example.com."
  /\ m flow_call !! "source_id_name" = Some "eth1"
  /\ m flow_call !! "host" = Some "10.0.0.1".
Proof.
  destruct (@completion_fires_once RE2Fragment.pkg (@Net net_lab)
              (60 * second) (60 * second) (resolver_on net_lab identity)
              (boot net_lab 0%nat) flow_final 0%nat flow_call)
    as (_ & _ & _ & Hfired & Hafter & _);
    [exists flow_start, flow_schedule;
     split; [reflexivity | vm_compute; reflexivity]
    | vm_compute; reflexivity |].
  assert (Hdone : call_done flow_call = true) by (vm_compute; reflexivity).
  rewrite Hdone in Hfired.
  split; [reflexivity|].
  split; [vm_compute; reflexivity|].
  split; [vm_compute; reflexivity|].
  split; [vm_compute; reflexivity|].
  split; [exact Hfired|].
  split; [apply Hafter; rewrite Hfired; discriminate|].
  vm_compute. repeat split.
Defined.

(** C5 at a record that has a sampling rate and nothing else. *)
Lemma resolve_nothing_to_resolve_witness :
  let c := resolve (resolver_on net_lab identity) plain_record in
  pc c = 8%nat /\ fired (or c) = [plain_record] /\ submitted c = []
  /\ inflight c = [] /\ m c = plain_record.
Proof.
  destruct (@resolve_nothing_to_resolve RE2Fragment.pkg (@Net net_lab)
              0 0 (resolver_on net_lab identity) plain_record)
    as [Halone _]; [|exact Halone].
  unfold no_source_tags, source_tags.
  repeat (apply Forall_cons; split; [vm_compute; reflexivity|]).
  apply Forall_nil_2.
Defined.



(** ** What a call of [resolve] sends and writes *)

Section TraceFacts.

Context `{RegexpPkg}.
Context {B : Type}.
Implicit Types (r : asyncResolver B) (c : call) (w : world B).

Lemma jobs_upto_all r (record : gmap string string) (n : nat) :
  (7 <= n)%nat -> jobs_upto r record n = expected_jobs r record.
Proof.
  intros Hn. unfold jobs_upto, expected_jobs.
  rewrite !take_ge by (cbn [length dns_pairs iface_pairs]; lia).
  reflexivity.
Qed.

Lemma jobs_upto_dns r (record : gmap string string) (n : nat)
    (p : string * string) :
  dns_pairs !! n = Some p ->
  jobs_upto r record (S n)
  = (jobs_upto r record n ++ dns_jobs r record p)%list.
Proof.
  intros Hp. unfold jobs_upto.
  assert (Hn : (n < 3)%nat) by (apply lookup_lt_Some in Hp; exact Hp).
  replace (S n - 4)%nat with 0%nat by lia.
  replace (n - 4)%nat with 0%nat by lia.
  rewrite (take_S_r _ _ _ Hp), bind_app. cbn [take mbind list_bind].
  destruct (record !! "agent_ip"); cbn [mbind list_bind];
    rewrite !app_nil_r; reflexivity.
Qed.

Lemma jobs_upto_agent r (record : gmap string string) (n : nat) :
  (3 <= n)%nat ->
  match record !! "agent_ip" with
  | Some _ => (n <= 4)%nat
  | None => True
  end ->
  jobs_upto r record n = jobs_upto r record 3.
Proof.
  intros Hn Ha. unfold jobs_upto.
  rewrite !take_ge by (cbn [length dns_pairs]; lia).
  destruct (record !! "agent_ip"); [|reflexivity].
  replace (n - 4)%nat with 0%nat by lia. reflexivity.
Qed.

Lemma jobs_upto_iface r (record : gmap string string) (n : nat)
    (agent : string) (p : string * string) :
  record !! "agent_ip" = Some agent ->
  iface_pairs !! n = Some p ->
  jobs_upto r record (S (n + 4))
  = (jobs_upto r record (n + 4) ++ iface_jobs r record agent p)%list.
Proof.
  intros Ha Hp. unfold jobs_upto. rewrite Ha.
  rewrite (take_ge dns_pairs (S (n + 4))), (take_ge dns_pairs (n + 4))
    by (cbn [length dns_pairs]; lia).
  replace (S (n + 4) - 4)%nat with (S n) by lia.
  replace (n + 4 - 4)%nat with n by lia.
  rewrite (take_S_r _ _ _ Hp), bind_app. cbn [mbind list_bind].
  rewrite app_nil_r, app_assoc. reflexivity.
Qed.

Lemma jobs_upto_prefix r (record : gmap string string) (n : nat) :
  jobs_upto r record n `prefix_of` expected_jobs r record.
Proof.
  unfold jobs_upto, expected_jobs.
  destruct (decide (n < 3)%nat) as [Hlt|Hge].
  - replace (n - 4)%nat with 0%nat by lia.
    rewrite <- (take_drop n dns_pairs) at 2. rewrite bind_app, <- app_assoc.
    destruct (record !! "agent_ip"); cbn [take mbind list_bind];
      rewrite ?app_nil_r; apply prefix_app_r; reflexivity.
  - rewrite take_ge by (cbn [length dns_pairs]; lia).
    apply prefix_app. destruct (record !! "agent_ip"); [|reflexivity].
    rewrite <- (take_drop (n - 4) iface_pairs) at 2. rewrite bind_app.
    apply prefix_app_r. reflexivity.
Qed.

Lemma job_dst_dns_jobs r (record : gmap string string) (p : string * string)
    (fn : asyncJob) :
  fn ∈ dns_jobs r record p -> job_dst fn = snd p.
Proof.
  unfold dns_jobs. destruct (record !! fst p), (dns r); intros Hfn;
    try (now apply elem_of_nil in Hfn).
  apply list_elem_of_singleton in Hfn as ->. reflexivity.
Qed.

Lemma job_dst_iface_jobs r (record : gmap string string) (agent : string)
    (p : string * string) (fn : asyncJob) :
  fn ∈ iface_jobs r record agent p -> job_dst fn = snd p.
Proof.
  unfold iface_jobs. destruct (record !! fst p), (snmpIfaces r); intros Hfn;
    try (now apply elem_of_nil in Hfn).
  apply list_elem_of_singleton in Hfn as ->. reflexivity.
Qed.

(** What [dnsResolve] and [ifaceResolve] do to a call. *)
Lemma dnsResolve_shape r (srcTag dstTag : string) c :
  exists o,
    dnsResolve r srcTag dstTag c
    = mkCall (m c) o (pc c) (agentIP c)
             (inflight c ++ dns_jobs r (m c) (srcTag, dstTag)) (m0 c)
             (submitted c ++ dns_jobs r (m c) (srcTag, dstTag)) (finished c).
Proof.
  unfold dnsResolve, dns_jobs, Metric.GetTag. cbn [fst snd].
  destruct (m c !! srcTag); [destruct (dns r)|];
    try (exists (or c); rewrite !app_nil_r; now destruct c).
  exists (increment (or c)). reflexivity.
Qed.

Lemma ifaceResolve_shape r (srcTag dstTag agent : string) c :
  exists o,
    ifaceResolve r srcTag dstTag agent c
    = mkCall (m c) o (pc c) (agentIP c)
             (inflight c ++ iface_jobs r (m c) agent (srcTag, dstTag)) (m0 c)
             (submitted c ++ iface_jobs r (m c) agent (srcTag, dstTag))
             (finished c).
Proof.
  unfold ifaceResolve, iface_jobs, Metric.GetTag. cbn [fst snd].
  destruct (m c !! srcTag); [destruct (snmpIfaces r)|];
    try (exists (or c); rewrite !app_nil_r; now destruct c).
  exists (increment (or c)). reflexivity.
Qed.

Lemma call_trace_enter r (record : gmap string string) :
  call_trace r (enter record).
Proof.
  unfold call_trace, enter, jobs_upto.
  cbn [m m0 pc submitted inflight finished agentIP take mbind list_bind app].
  repeat split; try apply Forall_nil_2; try (intros; lia).
  now destruct (record !! "agent_ip").
Qed.

(** A call reads its source tags as they were passed in. *)
Lemma call_trace_source r c (k : string) :
  call_trace r c -> k ∉ destination_tags -> m c !! k = m0 c !! k.
Proof.
  intros (Hframe & _ & _ & _ & Hdst & _) Hk. apply Hframe.
  intros fn Hfn E. rewrite Forall_forall in Hdst.
  apply Hk. rewrite <- E. now apply Hdst.
Qed.

Lemma dns_jobs_source r c (p : string * string) :
  call_trace r c -> fst p ∉ destination_tags ->
  dns_jobs r (m c) p = dns_jobs r (m0 c) p.
Proof.
  intros Hc Hp. unfold dns_jobs. now rewrite (call_trace_source r c _ Hc Hp).
Qed.

Lemma iface_jobs_source r c (agent : string) (p : string * string) :
  call_trace r c -> fst p ∉ destination_tags ->
  iface_jobs r (m c) agent p = iface_jobs r (m0 c) agent p.
Proof.
  intros Hc Hp. unfold iface_jobs.
  now rewrite (call_trace_source r c _ Hc Hp).
Qed.

Lemma source_not_destination (p : string * string) :
  p ∈ (dns_pairs ++ iface_pairs)%list ->
  (fst p ∉ destination_tags) /\ (snd p ∈ destination_tags).
Proof.
  unfold dns_pairs, iface_pairs. cbn [app]. intros Hp.
  rewrite !elem_of_cons, elem_of_nil in Hp.
  destruct Hp as [->|[->|[->|[->|[->|[->|[]]]]]]]; cbn [fst snd];
    split; apply (bool_decide_unpack _); vm_compute; exact I.
Qed.

Lemma call_trace_dnsResolve r (n : nat) (p : string * string) c :
  call_trace r c -> pc c = n -> dns_pairs !! n = Some p ->
  call_trace r (set_pc (S n) (dnsResolve r (fst p) (snd p) c)).
Proof.
  intros Hc Hpc Hp.
  destruct (source_not_destination p) as [Hsrc Hdst];
    [apply elem_of_app; left; eapply list_elem_of_lookup_2; exact Hp|].
  destruct (dnsResolve_shape r (fst p) (snd p) c) as [o ->].
  replace (fst p, snd p) with p by now destruct p.
  rewrite (dns_jobs_source r c p Hc Hsrc).
  destruct Hc as (Hframe & Hsub & Hagent & Hin & Hfin & Hset).
  unfold call_trace, set_pc.
  cbn [m m0 pc submitted inflight finished agentIP].
  apply lookup_lt_Some in Hp as Hn. cbn [length dns_pairs] in Hn.
  repeat split; try assumption; try (intros; lia).
  - rewrite Hsub, Hpc. symmetry. now apply jobs_upto_dns.
  - apply Forall_app; split; [assumption|]. apply Forall_forall.
    intros fn Hfn. now rewrite (job_dst_dns_jobs r _ _ _ Hfn).
Qed.

Lemma call_trace_ifaceResolve r (n : nat) (p : string * string) c :
  call_trace r c -> pc c = (n + 4)%nat -> iface_pairs !! n = Some p ->
  call_trace r (set_pc (S (n + 4))
                       (ifaceResolve r (fst p) (snd p) (agentIP c) c)).
Proof.
  intros Hc Hpc Hp.
  destruct (source_not_destination p) as [Hsrc Hdst];
    [apply elem_of_app; right; eapply list_elem_of_lookup_2; exact Hp|].
  destruct (ifaceResolve_shape r (fst p) (snd p) (agentIP c) c) as [o ->].
  replace (fst p, snd p) with p by now destruct p.
  rewrite (iface_jobs_source r c (agentIP c) p Hc Hsrc).
  destruct Hc as (Hframe & Hsub & Hagent & Hin & Hfin & Hset).
  unfold call_trace, set_pc.
  cbn [m m0 pc submitted inflight finished agentIP].
  apply lookup_lt_Some in Hp as Hn. cbn [length iface_pairs] in Hn.
  repeat split; try assumption.
  - rewrite Hsub, Hpc. symmetry. apply jobs_upto_iface; [|exact Hp].
    apply Hagent. lia.
  - intros _. apply Hagent. lia.
  - apply Forall_app; split; [assumption|]. apply Forall_forall.
    intros fn Hfn. now rewrite (job_dst_iface_jobs r _ _ _ _ Hfn).
Qed.

Lemma call_trace_resolve_step r c :
  call_trace r c -> (pc c < 8)%nat -> call_trace r (resolve_step r c).
Proof.
  intros Hc Hlt. unfold resolve_step.
  destruct (pc c) as [|[|[|[|[|[|[|[|n]]]]]]]] eqn:Hpc; try lia.
  - now apply (call_trace_dnsResolve r 0 ("agent_ip", "host")).
  - now apply (call_trace_dnsResolve r 1 ("src_ip", "src_host")).
  - now apply (call_trace_dnsResolve r 2 ("dst_ip", "dst_host")).
  - assert (Hag : Metric.GetTag (m c) "agent_ip" = m0 c !! "agent_ip").
    { apply (call_trace_source r c _ Hc).
      apply (source_not_destination ("agent_ip", "host")).
      apply elem_of_app; left. apply list_elem_of_here. }
    rewrite Hag.
    destruct Hc as (Hframe & Hsub & Hagent & Hin & Hfin & Hset).
    rewrite Hpc in Hsub.
    destruct (m0 c !! "agent_ip") as [a|] eqn:Ha;
      unfold call_trace, set_pc, set_agentIP;
      cbn [m m0 pc submitted inflight finished agentIP];
      (split; [assumption|]); (split; [|split; [|now repeat split]]).
    + rewrite Hsub. symmetry. apply jobs_upto_agent; [lia|]. rewrite Ha. lia.
    + intros _. exact Ha.
    + rewrite Hsub. symmetry. apply jobs_upto_agent; [lia|]. now rewrite Ha.
    + intros; lia.
  - now apply (call_trace_ifaceResolve r 0
                 ("source_id_index", "source_id_name")).
  - now apply (call_trace_ifaceResolve r 1
                 ("netif_index_out", "netif_name_out")).
  - now apply (call_trace_ifaceResolve r 2
                 ("netif_index_in", "netif_name_in")).
  - destruct Hc as (Hframe & Hsub & Hagent & Hin & Hfin & Hset).
    unfold call_trace, set_pc.
    cbn [m m0 pc submitted inflight finished agentIP].
    repeat split; try assumption; try (intros; lia).
    rewrite Hsub, Hpc, !jobs_upto_all by lia. reflexivity.
Qed.

Lemma call_trace_worker_step r (k : nat) w c w' c' :
  call_trace r c -> worker_step r k w c = Some (w', c') -> call_trace r c'.
Proof.
  intros (Hframe & Hsub & Hagent & Hin & Hfin & Hset) Hstep.
  destruct (worker_step_shape r k w c w' c' Hstep)
    as (fn & dstTag & name & Hfn & _ & Hdst & ->).
  assert (Edst : dstTag = job_dst fn) by (subst dstTag; now destruct fn).
  unfold call_trace, Metric.AddTag.
  cbn [m m0 pc submitted inflight finished agentIP].
  assert (Hfnin : job_dst fn ∈ destination_tags).
  { rewrite Forall_forall in Hin. apply Hin.
    eapply list_elem_of_lookup_2; exact Hfn. }
  repeat split; try assumption.
  - intros key Hkey. rewrite lookup_insert_ne.
    + apply Hframe. intros fn' Hfn'. apply Hkey.
      apply elem_of_app. now left.
    + rewrite Edst. apply Hkey. apply elem_of_app; right.
      apply list_elem_of_here.
  - apply Forall_forall. intros fn' Hfn'. rewrite Forall_forall in Hin.
    apply Hin. now apply (list_subseteq_delete k (inflight c)).
  - apply Forall_app; split; [assumption|].
    apply Forall_cons; split; [assumption|apply Forall_nil_2].
  - apply Forall_app; split.
    + eapply Forall_impl; [exact Hset|]. cbn beta. intros fn' [v Hv].
      destruct (decide (dstTag = job_dst fn')) as [->|Hne].
      * rewrite lookup_insert_eq. eauto.
      * rewrite lookup_insert_ne by exact Hne. eauto.
    + apply Forall_cons; split; [|apply Forall_nil_2]. rewrite Edst.
      rewrite lookup_insert_eq. eauto.
Qed.

Lemma reachable_call_trace (dnsTTL snmpTTL : Z) r (b : B) s (i : nat) c :
  reachable r dnsTTL snmpTTL b s -> sys_calls s !! i = Some c ->
  call_trace r c.
Proof.
  intros (s0 & ls & Hstart & Hrun).
  apply start_fresh in Hstart as [Hcalls _].
  apply (run_calls_ind r (fun _ => True) (call_trace r))
    with (ls := ls) (s := s0).
  - intros record _. apply call_trace_enter.
  - intros c0 Hc0 Hpc. now apply call_trace_resolve_step.
  - intros c0 k w w' c' Hc0 Hw.
    now apply (call_trace_worker_step r k w c0 w').
  - apply Forall_forall. intros []; intros; exact I.
  - exact Hrun.
  - intros j c0 Hc0. rewrite Hcalls in Hc0. discriminate.
Qed.

Lemma elem_of_dns_jobs r (record : gmap string string) (p : string * string)
    (fn : asyncJob) :
  fn ∈ dns_jobs r record p <->
  exists value, fn = DNSJob value (snd p) /\ dns r = true
                /\ record !! fst p = Some value.
Proof.
  unfold dns_jobs. split.
  - destruct (record !! fst p) as [v|], (dns r); intros Hfn;
      try (now apply elem_of_nil in Hfn).
    apply list_elem_of_singleton in Hfn as ->. now exists v.
  - intros (v & -> & -> & ->). apply list_elem_of_here.
Qed.

Lemma elem_of_iface_jobs r (record : gmap string string) (agent : string)
    (p : string * string) (fn : asyncJob) :
  fn ∈ iface_jobs r record agent p <->
  exists value, fn = IFaceJob value agent (snd p) /\ snmpIfaces r = true
                /\ record !! fst p = Some value.
Proof.
  unfold iface_jobs. split.
  - destruct (record !! fst p) as [v|], (snmpIfaces r); intros Hfn;
      try (now apply elem_of_nil in Hfn).
    apply list_elem_of_singleton in Hfn as ->. now exists v.
  - intros (v & -> & -> & ->). apply list_elem_of_here.
Qed.

(** The jobs [resolve] is to send are the jobs the record asks for. *)
Lemma elem_of_expected_jobs r (record : gmap string string)
    (fn : asyncJob) :
  fn ∈ expected_jobs r record <-> asked_for r record fn.
Proof.
  unfold expected_jobs. rewrite elem_of_app, list_elem_of_bind. split.
  - intros [([src dst] & Hfn & Hp)|Hfn].
    + apply elem_of_dns_jobs in Hfn as (v & -> & Hdns & Hv).
      cbn [asked_for fst snd] in *. eauto.
    + destruct (record !! "agent_ip") as [agent|] eqn:Ha;
        [|now apply elem_of_nil in Hfn].
      apply list_elem_of_bind in Hfn as ([src dst] & Hfn & Hp).
      apply elem_of_iface_jobs in Hfn as (v & -> & Hsnmp & Hv).
      cbn [asked_for fst snd] in *. eauto.
  - destruct fn as [v dst|v agent dst]; cbn [asked_for].
    + intros (Hdns & src & Hp & Hv). left. exists (src, dst).
      split; [|exact Hp]. apply elem_of_dns_jobs. now exists v.
    + intros (Hsnmp & Ha & src & Hp & Hv). right. rewrite Ha.
      apply list_elem_of_bind. exists (src, dst).
      split; [|exact Hp]. apply elem_of_iface_jobs. now exists v.
Qed.

(** A finished job of a call in a run was asked for by its record. *)
Lemma finished_expected (dnsTTL snmpTTL : Z) r (b : B) s (i : nat) c
    (fn : asyncJob) :
  reachable r dnsTTL snmpTTL b s -> sys_calls s !! i = Some c ->
  fn ∈ finished c -> fn ∈ expected_jobs r (m0 c).
Proof.
  intros Hreach Hc Hfn.
  destruct (reachable_call_trace _ _ r b s i c Hreach Hc)
    as (_ & Hsub & _).
  destruct (reachable_call_inv _ _ r b s i c Hreach Hc)
    as (_ & _ & _ & Hperm & _).
  destruct (jobs_upto_prefix r (m0 c) (pc c)) as [rest ->].
  apply elem_of_app; left. rewrite <- Hsub, Hperm.
  apply elem_of_app. now left.
Qed.

(** The record the callback is handed is the record of the call. *)
Lemma fired_record (dnsTTL snmpTTL : Z) r (b : B) s (i : nat) c
    (rec : gmap string string) :
  reachable r dnsTTL snmpTTL b s -> sys_calls s !! i = Some c ->
  rec ∈ fired (or c) ->
  rec = m c /\ pc c = 8%nat /\ inflight c = [].
Proof.
  intros Hreach Hc Hrec.
  destruct (reachable_call_inv _ _ r b s i c Hreach Hc)
    as (_ & _ & Hfired & _).
  rewrite Hfired in Hrec. unfold call_done in Hrec.
  destruct (Nat.eqb_spec (pc c) 8) as [Hpc|]; cbn [andb] in Hrec;
    [|now apply elem_of_nil in Hrec].
  destruct (decide (inflight c = [])) as [Hin|Hin].
  - rewrite bool_decide_eq_true_2 in Hrec by exact Hin.
    apply list_elem_of_singleton in Hrec. now repeat split.
  - rewrite bool_decide_eq_false_2 in Hrec by exact Hin.
    now apply elem_of_nil in Hrec.
Qed.

(** X1.  In every run of the resolver, at every moment, a tag of the
    record of a call has the value it was passed in with unless it is
    the destination tag of a job the record asks for: tags that are not
    among the six destination tags, the source tags among them, are
    never written, and neither is a destination tag whose lookup is
    disabled or whose source tag is absent.  The same holds of the
    record handed to the callback. *)
Theorem record_changes_only_where_asked (dnsTTL snmpTTL : Z) r (b : B) s
    (i : nat) c (k : string) :
  reachable r dnsTTL snmpTTL b s ->
  sys_calls s !! i = Some c ->
  k ∉ destination_tags
  \/ (forall fn, asked_for r (m0 c) fn -> job_dst fn <> k) ->
  m c !! k = m0 c !! k
  /\ (forall rec, rec ∈ fired (or c) -> rec !! k = m0 c !! k).
Proof.
  intros Hreach Hc Hk.
  assert (Hm : m c !! k = m0 c !! k).
  { pose proof (reachable_call_trace _ _ r b s i c Hreach Hc) as Htrace.
    destruct Hk as [Hk|Hk]; [now apply (call_trace_source r c k)|].
    destruct Htrace as (Hframe & _). apply Hframe. intros fn Hfn.
    apply Hk, elem_of_expected_jobs.
    now apply (finished_expected dnsTTL snmpTTL r b s i c). }
  split; [exact Hm|]. intros rec Hrec.
  now destruct (fired_record _ _ r b s i c rec Hreach Hc Hrec) as (-> & _).
Qed.

(** X2.  In every run of the resolver, the jobs a call has sent are at
    every moment a prefix of the list of jobs its record, as passed in,
    asks for (tags written by jobs that finish meanwhile make no
    difference), and the whole list once [resolve] has made its last
    send; so no reverse-DNS job is sent when DNS resolution is disabled,
    and no interface job when SNMP resolution is disabled or the record
    came without an agent address. *)
Theorem jobs_sent_follow_the_record (dnsTTL snmpTTL : Z) r (b : B) s
    (i : nat) c :
  reachable r dnsTTL snmpTTL b s ->
  sys_calls s !! i = Some c ->
  submitted c `prefix_of` expected_jobs r (m0 c)
  /\ ((7 <= pc c)%nat -> submitted c = expected_jobs r (m0 c))
  /\ (forall fn, fn ∈ submitted c -> asked_for r (m0 c) fn)
  /\ (dns r = false -> forall value dstTag, DNSJob value dstTag ∉ submitted c)
  /\ (snmpIfaces r = false \/ m0 c !! "agent_ip" = None ->
       forall value agent dstTag, IFaceJob value agent dstTag ∉ submitted c).
Proof.
  intros Hreach Hc.
  destruct (reachable_call_trace _ _ r b s i c Hreach Hc)
    as (_ & Hsub & _).
  assert (Hpre : submitted c `prefix_of` expected_jobs r (m0 c))
    by (rewrite Hsub; apply jobs_upto_prefix).
  assert (Hask : forall fn, fn ∈ submitted c -> asked_for r (m0 c) fn).
  { intros fn Hfn. apply elem_of_expected_jobs.
    destruct Hpre as [rest ->]. apply elem_of_app. now left. }
  split; [exact Hpre|]. split; [|split; [exact Hask|split]].
  - intros Hpc. rewrite Hsub. now apply jobs_upto_all.
  - intros Hdns value dstTag Hfn. apply Hask in Hfn as [Hon _]. congruence.
  - intros Hoff value agent dstTag Hfn.
    apply Hask in Hfn as (Hon & Ha & _). destruct Hoff; congruence.
Qed.

(** X3.  In every run of the resolver, the record a call hands to the
    callback has a destination tag for every source tag the record was
    passed in with, as far as the kind of lookup is enabled and, for
    the interface tags, the record came with an agent address. *)
Theorem callback_record_is_resolved (dnsTTL snmpTTL : Z) r (b : B) s
    (i : nat) c (rec : gmap string string) :
  reachable r dnsTTL snmpTTL b s ->
  sys_calls s !! i = Some c ->
  rec ∈ fired (or c) ->
  (dns r = true ->
   forall p, p ∈ dns_pairs -> is_Some (m0 c !! fst p) ->
             is_Some (rec !! snd p))
  /\ (snmpIfaces r = true -> is_Some (m0 c !! "agent_ip") ->
       forall p, p ∈ iface_pairs -> is_Some (m0 c !! fst p) ->
                 is_Some (rec !! snd p)).
Proof.
  intros Hreach Hc Hrec.
  destruct (fired_record _ _ r b s i c rec Hreach Hc Hrec)
    as (-> & Hpc & Hin).
  destruct (reachable_call_trace _ _ r b s i c Hreach Hc)
    as (_ & Hsub & _ & _ & _ & Hset).
  destruct (reachable_call_inv _ _ r b s i c Hreach Hc)
    as (_ & _ & _ & Hperm & _).
  rewrite Hin, app_nil_r, Hsub, jobs_upto_all in Hperm by lia.
  assert (Hdone : forall fn, asked_for r (m0 c) fn ->
                             is_Some (m c !! job_dst fn)).
  { intros fn Hfn. rewrite Forall_forall in Hset. apply Hset.
    rewrite <- Hperm. now apply elem_of_expected_jobs. }
  split.
  - intros Hdns [src dst] Hp [v Hv].
    apply (Hdone (DNSJob v dst)). cbn [asked_for fst] in *. eauto.
  - intros Hsnmp [a Ha] [src dst] Hp [v Hv].
    apply (Hdone (IFaceJob v a dst)). cbn [asked_for fst] in *. eauto 6.
Qed.

End TraceFacts.

(** ** The caches, the tickers and the counter [ops] in a run *)

Section WorldFacts.

Context `{RegexpPkg}.
Context {B : Type}.
Implicit Types (r : asyncResolver B) (c : call) (w : world B).

(** Induction over the runs of the resolver, for a property of its
    state. *)
Lemma run_ind r (P : @system B -> Prop) :
  (forall l s s', P s -> step r l s = Some s' -> P s') ->
  forall ls s s', P s -> run r ls s = Some s' -> P s'.
Proof.
  intros Hstep ls. induction ls as [|l ls IH]; intros s s' Hs Hrun.
  - injection Hrun as <-. exact Hs.
  - cbn [run] in Hrun.
    destruct (step r l s) as [s1|] eqn:Hl; [|discriminate].
    cbn [mbind option_bind] in Hrun. eauto.
Qed.

Lemma step_cases r (l : label) s s' :
  step r l s = Some s' -> step_kind r s s'.
Proof.
  intros Hstep. destruct l as [record|i|i k| | |]; cbn [step] in Hstep.
  - injection Hstep as <-. now apply (step_enter r _ _ record).
  - destruct (sys_calls s !! i) as [c|] eqn:Hc; [|discriminate].
    cbn [mbind option_bind] in Hstep.
    destruct (pc c <? 8)%nat; [|discriminate]. injection Hstep as <-.
    now apply (step_caller r _ _ i c).
  - destruct (sys_calls s !! i) as [c|] eqn:Hc; [|discriminate].
    cbn [mbind option_bind] in Hstep.
    destruct (worker_step r k (sys_world s) c) as [[w1 c1]|] eqn:Hw;
      [|discriminate].
    cbn in Hstep. injection Hstep as <-.
    destruct (worker_step_shape r k _ c w1 c1 Hw)
      as (fn & dstTag & name & Hfn & -> & _ & ->).
    now apply (step_worker r _ _ i k c fn
                 (mkCall (Metric.AddTag (m c) dstTag name)
                    (decrement (Metric.AddTag (m c) dstTag name) (or c))
                    (pc c) (agentIP c) (delete k (inflight c)) (m0 c)
                    (submitted c) (finished c ++ [fn]))).
  - destruct (dnsTTLTicker s) as [d|] eqn:Hd; [|discriminate].
    injection Hstep as <-. now apply (step_tick_dns r _ _ d).
  - destruct (ifaceTTLTicker s) as [d|] eqn:Hd; [|discriminate].
    injection Hstep as <-. now apply (step_tick_iface r _ _ d).
  - injection Hstep as <-. now apply step_stop.
Qed.

Lemma finished_resolve_step r c : finished (resolve_step r c) = finished c.
Proof.
  unfold resolve_step.
  destruct (pc c) as [|[|[|[|[|[|[|[|n]]]]]]]]; try reflexivity;
    unfold set_pc, dnsResolve, ifaceResolve, send; cbn [finished];
    repeat match goal with
           | |- context [match ?x with _ => _ end] => destruct x
           end; reflexivity.
Qed.

Lemma sum_list_with_insert (f : call -> nat) (cs : list call) (i : nat)
    c c' :
  cs !! i = Some c ->
  (sum_list_with f (<[i := c']> cs) + f c = sum_list_with f cs + f c')%nat.
Proof.
  revert i. induction cs as [|c0 cs IH]; intros [|i] Hc; try discriminate.
  - injection Hc as ->. simpl. lia.
  - simpl in Hc |- *. specialize (IH i Hc). lia.
Qed.

(** *** The counter [ops] *)

Lemma wrap_uint64_succ (n : nat) :
  wrap_uint64 (wrap_uint64 (Z.of_nat n) + 1) = wrap_uint64 (Z.of_nat (n + 1)).
Proof.
  unfold wrap_uint64. rewrite Z.add_mod_idemp_l by lia.
  f_equal. lia.
Qed.

Lemma run_job_counts r (fn : asyncJob) w c :
  let w' := fst (run_job r fn w c) in
  ops w' = (if is_iface_job fn then wrap_uint64 (ops w + 1) else ops w)
  /\ (length (history w') <= length (history w) + 1)%nat.
Proof.
  destruct fn as [value dstTag|value agent dstTag];
    cbn [run_job is_iface_job]; cbn zeta.
  - unfold resolveDNS.
    destruct (decide (cache.get (dnsCache w) value = "")).
    + destruct (ipToFqdnFn r value (backend w)) as [name b0].
      cbn [fst ops history]. rewrite length_app. cbn [length]. lia.
    + cbn [fst]. lia.
  - unfold resolveIFace.
    destruct (decide (cache.get (ifaceCache w) (ifaceKey agent value) = "")).
    + destruct (ifIndexToIfNameFn r _ _ agent value (backend w))
        as [name b0].
      cbn [fst ops history]. rewrite length_app. cbn [length]. lia.
    + cbn [fst ops history]. lia.
Qed.

Lemma counted_step r (l : label) s s' :
  counted s -> step r l s = Some s' -> counted s'.
Proof.
  intros [Hops Hhist] Hstep. unfold counted.
  destruct (step_cases r l s s' Hstep)
    as [record Hw Hcs _ _|i c Hc Hw Hcs _ _|i k c fn c' Hc Hfn Hw Hcs Hfin _ _
        |d _ Hw Hcs _ _|d _ Hw Hcs _ _|Hw Hcs _ _];
    rewrite Hw, Hcs; cbn [ops history].
  - unfold iface_jobs_run, jobs_run in *. rewrite !sum_list_with_app.
    cbn [sum_list_with enter finished List.filter length].
    rewrite !Nat.add_0_r. now split.
  - unfold iface_jobs_run, jobs_run in *.
    pose proof (sum_list_with_insert
                  (fun c => length (List.filter is_iface_job (finished c)))
                  _ i c (resolve_step r c) Hc) as E1.
    pose proof (sum_list_with_insert (fun c => length (finished c))
                  _ i c (resolve_step r c) Hc) as E2.
    cbn beta in E1, E2. rewrite finished_resolve_step in E1, E2.
    split; [rewrite Hops; f_equal|]; lia.
  - unfold iface_jobs_run, jobs_run in *.
    pose proof (sum_list_with_insert
                  (fun c => length (List.filter is_iface_job (finished c)))
                  _ i c c' Hc) as E1.
    pose proof (sum_list_with_insert (fun c => length (finished c))
                  _ i c c' Hc) as E2.
    cbn beta in E1, E2. rewrite Hfin in E1, E2.
    rewrite List.filter_app, !length_app in E1. rewrite length_app in E2.
    cbn [List.filter length] in E1, E2.
    destruct (run_job_counts r fn (sys_world s) c) as [Eops Ehist].
    cbn zeta in Eops, Ehist. rewrite Eops. split; [|lia].
    destruct (is_iface_job fn); cbn [length] in E1.
    + rewrite Hops, wrap_uint64_succ. f_equal. lia.
    + rewrite Hops. f_equal. lia.
  - now split.
  - now split.
  - now split.
Qed.

Lemma reachable_counted (dnsTTL snmpTTL : Z) r (b : B) s :
  reachable r dnsTTL snmpTTL b s -> counted s.
Proof.
  intros (s0 & ls & Hstart & Hrun).
  apply start_fresh in Hstart as [Hcalls Hworld].
  apply (run_ind r counted) with (ls := ls) (s := s0).
  - intros l s1 s2. apply counted_step.
  - unfold counted. rewrite Hcalls, Hworld. now split.
  - exact Hrun.
Qed.


(** *** The tickers *)

Lemma keeps_refl (c : gmap string string) : keeps c c.
Proof. now intros k _. Qed.

Lemma keeps_trans (c1 c2 c3 : gmap string string) :
  keeps c1 c2 -> keeps c2 c3 -> keeps c1 c3.
Proof.
  intros H12 H23 k Hk. rewrite <- (H12 k Hk). apply H23.
  now rewrite (H12 k Hk).
Qed.

Lemma run_job_world r (fn : asyncJob) w c :
  fst (run_job r fn w c) = do_lookup r (job_lookup fn) w.
Proof.
  destruct fn as [value dstTag|value agent dstTag];
    cbn [run_job job_lookup do_lookup].
  - now destruct (resolveDNS r value w).
  - now destruct (resolveIFace r value agent w).
Qed.

Lemma no_ticker_step r (l : label) s s' :
  step r l s = Some s' ->
  (dnsTTLTicker s = None ->
   dnsTTLTicker s' = None
   /\ keeps (dnsCache (sys_world s)) (dnsCache (sys_world s')))
  /\ (ifaceTTLTicker s = None ->
       ifaceTTLTicker s' = None
       /\ keeps (ifaceCache (sys_world s)) (ifaceCache (sys_world s'))).
Proof.
  intros Hstep.
  destruct (step_cases r l s s' Hstep)
    as [record Hw _ Hd Hi|i c _ Hw _ Hd Hi|i k c fn c' _ _ Hw _ _ Hd Hi
        |d Hsome Hw _ Hd Hi|d Hsome Hw _ Hd Hi|Hw _ Hd Hi];
    rewrite Hw, Hd, Hi; cbn [dnsCache ifaceCache];
    try (split; intros Hnone; (split; [assumption || reflexivity|]);
         apply keeps_refl).
  - rewrite run_job_world.
    destruct (do_lookup_keeps r (job_lookup fn) (sys_world s)) as [Kd Ki].
    now split; intros Hnone; (split; [assumption|]).
  - split; intros Hnone; [congruence|]. split; [assumption|apply keeps_refl].
  - split; intros Hnone; [|congruence]. split; [assumption|apply keeps_refl].
Qed.

Lemma no_ticker_run r (ls : list label) : forall s s',
  run r ls s = Some s' ->
  (dnsTTLTicker s = None ->
   dnsTTLTicker s' = None
   /\ keeps (dnsCache (sys_world s)) (dnsCache (sys_world s')))
  /\ (ifaceTTLTicker s = None ->
       ifaceTTLTicker s' = None
       /\ keeps (ifaceCache (sys_world s)) (ifaceCache (sys_world s'))).
Proof.
  induction ls as [|l ls IH]; intros s s' Hrun.
  - injection Hrun as <-. split; intros Hnone; (split; [assumption|]);
      apply keeps_refl.
  - cbn [run] in Hrun.
    destruct (step r l s) as [s1|] eqn:Hl; [|discriminate].
    cbn [mbind option_bind] in Hrun.
    destruct (no_ticker_step r l s s1 Hl) as [Hd1 Hi1].
    destruct (IH s1 s' Hrun) as [Hd2 Hi2].
    split; intros Hnone.
    + destruct (Hd1 Hnone) as [Hn1 K1]. destruct (Hd2 Hn1) as [Hn2 K2].
      split; [assumption|]. now apply (keeps_trans _ _ _ K1).
    + destruct (Hi1 Hnone) as [Hn1 K1]. destruct (Hi2 Hn1) as [Hn2 K2].
      split; [assumption|]. now apply (keeps_trans _ _ _ K1).
Qed.

Lemma start_tickers (dnsTTL snmpTTL : Z) (b : B) s0 :
  start dnsTTL snmpTTL b = Some s0 ->
  (dnsTTL = 0 -> dnsTTLTicker s0 = None)
  /\ (snmpTTL = 0 -> ifaceTTLTicker s0 = None).
Proof.
  unfold start. intros Hstart. split; intros ->; cbn [Z.eqb] in Hstart.
  - destruct (snmpTTL =? 0); [|destruct (NewTicker snmpTTL)];
      cbn in Hstart; try discriminate; now injection Hstart as <-.
  - destruct (dnsTTL =? 0); [|destruct (NewTicker dnsTTL)];
      cbn in Hstart; try discriminate; now injection Hstart as <-.
Qed.

(** X4.  When the ticker of the DNS cache fires, every address reads as
    not cached, so that the next resolution of any address, also of one
    that was cached, goes to the backend; the interface cache, the
    counter, the backend and the calls in progress are as they were. *)
Theorem dns_tick_forgets_every_name r s s' (ip : string) :
  step r TickDNS s = Some s' ->
  cache.get (dnsCache (sys_world s')) ip = ""
  /\ history (snd (resolveDNS r ip (sys_world s')))
     = (history (sys_world s) ++ [CallIpToFqdn ip])%list
  /\ fst (resolveDNS r ip (sys_world s'))
     = transform (dnsp r) (fst (ipToFqdnFn r ip (backend (sys_world s))))
  /\ ifaceCache (sys_world s') = ifaceCache (sys_world s)
  /\ ops (sys_world s') = ops (sys_world s)
  /\ sys_calls s' = sys_calls s.
Proof.
  cbn [step]. intros Hstep.
  destruct (dnsTTLTicker s); [|discriminate]. injection Hstep as <-.
  cbn [sys_world sys_calls dnsCache ifaceCache ops].
  split; [reflexivity|].
  rewrite resolveDNS_miss by reflexivity.
  cbn [fst snd history backend]. now repeat split.
Qed.

(** X5.  When the ticker of the interface cache fires, every pair of
    agent and interface index reads as not cached, so that the next
    resolution of any pair goes to the backend, with the next value of
    the counter as its id; the DNS cache, the counter, the backend and
    the calls in progress are as they were. *)
Theorem iface_tick_forgets_every_name r s s' (idx agent : string) :
  step r TickIFace s = Some s' ->
  cache.get (ifaceCache (sys_world s')) (ifaceKey agent idx) = ""
  /\ history (snd (resolveIFace r idx agent (sys_world s')))
     = (history (sys_world s)
        ++ [CallIfIndexToIfName (wrap_uint64 (ops (sys_world s) + 1))
              (snmpCommunity r) agent idx])%list
  /\ dnsCache (sys_world s') = dnsCache (sys_world s)
  /\ ops (sys_world s') = ops (sys_world s)
  /\ sys_calls s' = sys_calls s.
Proof.
  cbn [step]. intros Hstep.
  destruct (ifaceTTLTicker s); [|discriminate]. injection Hstep as <-.
  cbn [sys_world sys_calls dnsCache ifaceCache ops].
  split; [reflexivity|].
  rewrite resolveIFace_miss by reflexivity.
  cbn [fst snd history backend ops]. now repeat split.
Qed.

(** X7.  A resolver started with a TTL of zero for a cache never clears
    that cache: from any state of a run to any later one, every key that
    reads as a non-empty value still reads as that value, whatever
    lookups, ticks of the other ticker and calls of [stop] lie
    between. *)
Theorem zero_ttl_never_expires (dnsTTL snmpTTL : Z) r (b : B) s0
    (ls1 ls2 : list label) s s' :
  start dnsTTL snmpTTL b = Some s0 ->
  run r ls1 s0 = Some s ->
  run r ls2 s = Some s' ->
  (dnsTTL = 0 ->
   forall k, cache.get (dnsCache (sys_world s)) k <> "" ->
             cache.get (dnsCache (sys_world s')) k
             = cache.get (dnsCache (sys_world s)) k)
  /\ (snmpTTL = 0 ->
       forall k, cache.get (ifaceCache (sys_world s)) k <> "" ->
                 cache.get (ifaceCache (sys_world s')) k
                 = cache.get (ifaceCache (sys_world s)) k).
Proof.
  intros Hstart Hrun1 Hrun2.
  destruct (start_tickers dnsTTL snmpTTL b s0 Hstart) as [Hd0 Hi0].
  destruct (no_ticker_run r ls1 s0 s Hrun1) as [Hd1 Hi1].
  destruct (no_ticker_run r ls2 s s' Hrun2) as [Hd2 Hi2].
  split; intros Hzero.
  - destruct (Hd1 (Hd0 Hzero)) as [Hn _]. now destruct (Hd2 Hn).
  - destruct (Hi1 (Hi0 Hzero)) as [Hn _]. now destruct (Hi2 Hn).
Qed.

(** *** Where cache entries come from *)

Lemma cache_from_backend_lookup r (l : lookup) w :
  cache_from_backend w -> cache_from_backend (do_lookup r l w).
Proof.
  intros [Hd Hi]. destruct l as [ip|idx agent]; cbn [do_lookup].
  - destruct (decide (cache.get (dnsCache w) ip = "")) as [Hmiss|Hhit].
    + rewrite (resolveDNS_miss r ip w Hmiss). unfold cache_from_backend.
      cbn [snd dnsCache ifaceCache history]. split.
      * intros k Hk. unfold cache.set in Hk. apply elem_of_app.
        destruct (decide (ip = k)) as [->|Hne];
          [right; apply list_elem_of_here|left].
        rewrite lookup_insert_ne in Hk by exact Hne. now apply Hd.
      * intros k Hk. destruct (Hi k Hk) as (id & cm & a & i & -> & Hin).
        exists id, cm, a, i. split; [reflexivity|].
        apply elem_of_app. now left.
    + now rewrite (resolveDNS_hit r ip w Hhit).
  - destruct (decide (cache.get (ifaceCache w) (ifaceKey agent idx) = ""))
      as [Hmiss|Hhit].
    + rewrite (resolveIFace_miss r idx agent w Hmiss).
      unfold cache_from_backend.
      cbn [snd dnsCache ifaceCache history]. split.
      * intros k Hk. apply elem_of_app. left. now apply Hd.
      * intros k Hk. unfold cache.set in Hk.
        destruct (decide (ifaceKey agent idx = k)) as [<-|Hne].
        -- eexists _, _, agent, idx. split; [reflexivity|].
           apply elem_of_app. right. apply list_elem_of_here.
        -- rewrite lookup_insert_ne in Hk by exact Hne.
           destruct (Hi k Hk) as (id & cm & a & i & -> & Hin).
           exists id, cm, a, i. split; [reflexivity|].
           apply elem_of_app. now left.
    + rewrite (resolveIFace_hit r idx agent w Hhit). now split.
Qed.

Lemma cache_from_backend_step r (l : label) s s' :
  cache_from_backend (sys_world s) -> step r l s = Some s' ->
  cache_from_backend (sys_world s').
Proof.
  intros Hs Hstep.
  destruct (step_cases r l s s' Hstep)
    as [record Hw _ _ _|i c _ Hw _ _ _|i k c fn c' _ _ Hw _ _ _ _
        |d _ Hw _ _ _|d _ Hw _ _ _|Hw _ _ _];
    rewrite Hw; try assumption.
  - rewrite run_job_world. now apply cache_from_backend_lookup.
  - destruct Hs as [_ Hi]. split; [|exact Hi].
    intros k [v Hk]. cbn [dnsCache] in Hk. unfold cache.clear in Hk.
    now rewrite lookup_empty in Hk.
  - destruct Hs as [Hd _]. split; [exact Hd|].
    intros k [v Hk]. cbn [ifaceCache] in Hk. unfold cache.clear in Hk.
    now rewrite lookup_empty in Hk.
Qed.

(** X8.  In every run of the resolver, every entry of the DNS cache is
    under an address that was handed to the reverse-DNS backend, and
    every entry of the interface cache is under the key of an agent
    address and an interface index that were handed to the interface
    backend: nothing else ever writes a cache. *)
Theorem cache_entries_come_from_backend (dnsTTL snmpTTL : Z) r (b : B) s :
  reachable r dnsTTL snmpTTL b s ->
  (forall k, is_Some (dnsCache (sys_world s) !! k) ->
             CallIpToFqdn k ∈ history (sys_world s))
  /\ (forall k, is_Some (ifaceCache (sys_world s) !! k) ->
                exists id community agent idx,
                  k = ifaceKey agent idx
                  /\ CallIfIndexToIfName id community agent idx
                     ∈ history (sys_world s)).
Proof.
  intros (s0 & ls & Hstart & Hrun).
  apply start_fresh in Hstart as [_ Hworld].
  apply (run_ind r (fun s => cache_from_backend (sys_world s)))
    with (ls := ls) (s := s0).
  - intros l s1 s2. apply cache_from_backend_step.
  - rewrite Hworld. split; intros k [v Hk];
      cbn [dnsCache ifaceCache] in Hk; unfold cache.newCache in Hk;
      now rewrite lookup_empty in Hk.
  - exact Hrun.
Qed.

End WorldFacts.

(** ** A resolver with nothing enabled *)

Section DisabledFacts.

Context `{RegexpPkg}.
Context {B : Type}.
Implicit Types (r : asyncResolver B) (c : call) (w : world B).

Lemma expected_jobs_disabled r (record : gmap string string) :
  dns r = false -> snmpIfaces r = false -> expected_jobs r record = [].
Proof.
  intros Hdns Hsnmp.
  destruct (expected_jobs r record) as [|fn fns] eqn:E; [reflexivity|].
  assert (Hfn : asked_for r record fn)
    by (apply elem_of_expected_jobs; rewrite E; apply list_elem_of_here).
  destruct fn; cbn [asked_for] in Hfn; destruct Hfn; congruence.
Qed.

Lemma jobs_run_none (cs : list call) :
  (forall i c, cs !! i = Some c -> finished c = []) -> jobs_run cs = 0%nat.
Proof.
  unfold jobs_run. induction cs as [|c cs IH]; intros Hfin; [reflexivity|].
  cbn [sum_list_with]. rewrite (Hfin 0%nat c eq_refl), IH; [reflexivity|].
  intros i c' Hc'. apply (Hfin (S i) c' Hc').
Qed.

Lemma disabled_call (dnsTTL snmpTTL : Z) r (b : B) s (i : nat) c :
  dns r = false -> snmpIfaces r = false ->
  reachable r dnsTTL snmpTTL b s ->
  sys_calls s !! i = Some c ->
  m c = m0 c /\ submitted c = [] /\ inflight c = [] /\ finished c = []
  /\ fired (or c) = if (pc c =? 8)%nat then [m0 c] else [].
Proof.
  intros Hdns Hsnmp Hreach Hc.
  destruct (reachable_call_trace _ _ r b s i c Hreach Hc)
    as (Hframe & Hsub & _).
  destruct (reachable_call_inv _ _ r b s i c Hreach Hc)
    as (_ & _ & Hfired & Hperm & _).
  assert (Hnone : submitted c = []).
  { destruct (jobs_upto_prefix r (m0 c) (pc c)) as [rest Hrest].
    rewrite (expected_jobs_disabled r _ Hdns Hsnmp) in Hrest.
    symmetry in Hrest. apply app_eq_nil in Hrest as [Hrest _].
    now rewrite Hsub. }
  rewrite Hnone in Hperm. apply Permutation_nil_l in Hperm.
  symmetry in Hperm. apply app_eq_nil in Hperm as [Hfin Hin].
  assert (Hm : m c = m0 c).
  { apply map_eq. intros k. apply Hframe. intros fn Hfn.
    rewrite Hfin in Hfn. now apply elem_of_nil in Hfn. }
  repeat split; try assumption.
  rewrite Hfired. unfold call_done.
  rewrite bool_decide_eq_true_2 by exact Hin.
  rewrite andb_true_r, Hm. reflexivity.
Qed.

(** X15.  A resolver with DNS resolution and SNMP resolution both
    disabled passes records through: in every run, no job is sent for
    any call, the record of a call is as it was passed in, the callback
    has been handed that record once [resolve] has returned, and no
    backend was ever called. *)
Theorem disabled_resolver_passes_through (dnsTTL snmpTTL : Z) r (b : B) s :
  dns r = false ->
  snmpIfaces r = false ->
  reachable r dnsTTL snmpTTL b s ->
  history (sys_world s) = []
  /\ (forall i c,
        sys_calls s !! i = Some c ->
        m c = m0 c /\ submitted c = []
        /\ fired (or c) = if (pc c =? 8)%nat then [m0 c] else []).
Proof.
  intros Hdns Hsnmp Hreach. split.
  - destruct (reachable_counted _ _ r b s Hreach) as [_ Hhist].
    rewrite jobs_run_none in Hhist.
    + destruct (history (sys_world s)); [reflexivity|cbn in Hhist; lia].
    + intros i c Hc.
      now destruct (disabled_call _ _ r b s i c Hdns Hsnmp Hreach Hc)
        as (_ & _ & _ & Hfin & _).
  - intros i c Hc.
    destruct (disabled_call _ _ r b s i c Hdns Hsnmp Hreach Hc)
      as (Hm & Hsub & _ & _ & Hfired).
    now repeat split.
Qed.

End DisabledFacts.

(** ** The shared SNMP client *)

Section ClientFacts.

Context `{Network}.

Lemma ifIndexToIfName_Default (id : Z) (community agent ifIndex : string)
    (n : Net) :
  Default (snd (ifIndexToIfName id community agent ifIndex n))
  = client community agent (Default n).
Proof.
  unfold ifIndexToIfName, client.
  cbn [Target Community Timeout Retries].
  set (d := mkGoSNMP _ _ _ _).
  destruct (Connect d (env n)) as [cerr e1].
  destruct (BulkWalk d _ e1) as [[pdus err] e2].
  destruct (fold_left _ pdus _) as [result found]. cbn [snd Default].
  unfold d. now destruct (decide (community = "")).
Qed.

(** X9.  [ifIndexToIfName] configures the process-wide client
    [gosnmp.Default] and leaves it so: after a call with a community
    that is not empty, a call with the empty community runs with the
    community of the earlier call (not with the library's default), to
    the new agent, with a timeout of 20 seconds and 5 retries, and
    answers what a call with the earlier community would answer. *)
Theorem empty_community_reuses_the_last (id1 id2 : Z)
    (community agent1 ifIndex1 agent2 ifIndex2 : string) (n : Net) :
  community <> "" ->
  let n1 := snd (ifIndexToIfName id1 community agent1 ifIndex1 n) in
  Default n1 = mkGoSNMP agent1 community (20 * second) 5
  /\ Default (snd (ifIndexToIfName id2 "" agent2 ifIndex2 n1))
     = mkGoSNMP agent2 community (20 * second) 5
  /\ ifIndexToIfName id2 "" agent2 ifIndex2 n1
     = ifIndexToIfName id2 community agent2 ifIndex2 n1.
Proof.
  intros Hne n1.
  assert (E1 : Default n1 = mkGoSNMP agent1 community (20 * second) 5).
  { unfold n1. rewrite ifIndexToIfName_Default. unfold client.
    now rewrite decide_False by exact Hne. }
  split; [exact E1|]. split.
  - rewrite ifIndexToIfName_Default. unfold client.
    rewrite decide_True by reflexivity. now rewrite E1.
  - unfold ifIndexToIfName at 1 2.
    rewrite decide_True by reflexivity.
    rewrite decide_False by exact Hne.
    rewrite E1. reflexivity.
Qed.

End ClientFacts.

(** ** Splitting the service address *)

Module GoStringsSplitFacts.

Import GoStrings GoStringsFacts GoStringsSplit.

Lemma prefix_append (a s : string) :
  String.prefix a s = true <-> exists v, s = a +:+ v.
Proof.
  revert s. induction a as [|x a IH]; intros s.
  - split; [intros _; now exists s|]. intros _. now destruct s.
  - destruct s as [|y s]; cbn [String.prefix].
    + split; [discriminate|]. intros [v Hv]. discriminate.
    + destruct (ascii_dec x y) as [<-|Hne].
      * rewrite IH. split; intros [v Hv]; exists v.
        -- rewrite append_cons. now rewrite Hv.
        -- rewrite append_cons in Hv. now injection Hv.
      * split; [discriminate|]. intros [v Hv].
        rewrite append_cons in Hv. congruence.
Qed.

(** [Index] finds no separator where there is none. *)
Lemma Index_from_absent (s sep : string) : forall i,
  (forall u v, s <> u +:+ sep +:+ v) -> Index_from s sep i = -1.
Proof.
  induction s as [|c s IH]; intros i Habs; cbn [Index_from].
  - destruct (String.prefix sep "") eqn:E; [|reflexivity].
    apply prefix_append in E as [v Hv]. now destruct (Habs "" v).
  - destruct (String.prefix sep (String c s)) eqn:E.
    + apply prefix_append in E as [v Hv]. now destruct (Habs "" v).
    + apply IH. intros u v Hs. apply (Habs (String c u) v).
      rewrite append_cons. now rewrite Hs.
Qed.

(** Where [Index] answers an offset, the separator is there. *)
Lemma Index_from_found (s sep : string) : forall i m,
  Index_from s sep i = m -> m <> -1 ->
  exists u v, s = u +:+ sep +:+ v /\ m = i + len u.
Proof.
  induction s as [|c s IH]; intros i m Hm Hne; cbn [Index_from] in Hm.
  - destruct (String.prefix sep "") eqn:E; [|congruence].
    apply prefix_append in E as [v Hv]. exists "", v.
    split; [exact Hv|]. unfold len. cbn. lia.
  - destruct (String.prefix sep (String c s)) eqn:E.
    + apply prefix_append in E as [v Hv]. exists "", v.
      split; [exact Hv|]. unfold len. cbn. lia.
    + destruct (IH (i + 1) m Hm Hne) as (u & v & -> & ->).
      exists (String c u), v. split; [now rewrite append_cons|].
      unfold len. cbn [String.length]. lia.
Qed.

(** Where the separator is, [Index] answers an offset. *)
Lemma Index_from_present (u sep v : string) : forall i,
  0 <= i -> Index_from (u +:+ sep +:+ v) sep i <> -1.
Proof.
  induction u as [|c u IH]; intros i Hi.
  - rewrite append_nil_l.
    assert (E : String.prefix sep (sep +:+ v) = true)
      by (apply prefix_append; now exists v).
    destruct (sep +:+ v) as [|x t]; cbn [Index_from]; rewrite E; lia.
  - rewrite append_cons. cbn [Index_from].
    destruct (String.prefix sep _); [lia|]. apply IH. lia.
Qed.

Lemma prefix_scheme_sep (c : ascii) (s : string) :
  c <> ":"%char -> String.prefix "://" (String c s) = false.
Proof.
  intros Hne. cbn [String.prefix].
  destruct (ascii_dec ":" c) as [<-|_]; [congruence|reflexivity].
Qed.

Lemma no_colon_cons (c : ascii) (s : string) :
  no_colon (String c s) <-> c <> ":"%char /\ no_colon s.
Proof.
  unfold no_colon. cbn [list_ascii_of_string]. rewrite not_elem_of_cons.
  split; intros [Hc Hs]; split; auto.
Qed.

(** The first ["://"] after a protocol without a colon is the one that
    follows it. *)
Lemma Index_from_scheme (P R : string) : forall i,
  no_colon P -> Index_from (P +:+ "://" +:+ R) "://" i = i + len P.
Proof.
  induction P as [|c P IH]; intros i Hno.
  - rewrite append_nil_l.
    assert (E : String.prefix "://" ("://" +:+ R) = true)
      by (apply prefix_append; now exists R).
    destruct ("://" +:+ R) as [|x t] eqn:Es; cbn [Index_from];
      rewrite E; unfold len; cbn; lia.
  - apply no_colon_cons in Hno as [Hc Hno].
    rewrite append_cons. cbn [Index_from].
    rewrite (prefix_scheme_sep c _ Hc), (IH (i + 1) Hno).
    unfold len. cbn [String.length]. lia.
Qed.

Lemma SplitN_absent (s : string) :
  Index s "://" = -1 -> SplitN s "://" 2 = [s].
Proof.
  intros Hidx. unfold SplitN. cbn [Z.eqb Z.ltb Z.compare orb].
  rewrite decide_False by discriminate.
  replace (String.length s + 1)%nat with (S (String.length s)) by lia.
  cbn [genSplit_loop].
  destruct (len s + 1 <? 2).
  - replace (len s + 1 - 1) with (len s) by lia.
    destruct (0 <? len s); [|reflexivity]. now rewrite Hidx.
  - cbn [Z.sub Z.add Z.opp Z.pos_sub Z.ltb Z.compare]. now rewrite Hidx.
Qed.

Lemma SplitN_found (u v : string) :
  Index (u +:+ "://" +:+ v) "://" = len u ->
  SplitN (u +:+ "://" +:+ v) "://" 2 = [u; v].
Proof.
  intros Hidx. unfold SplitN. cbn [Z.eqb Z.ltb Z.compare orb].
  rewrite decide_False by discriminate.
  pose proof (len_nonneg u) as Hu. pose proof (len_nonneg v) as Hv.
  assert (Hlen : len (u +:+ "://" +:+ v) = len u + 3 + len v).
  { rewrite !len_append. unfold len at 2. cbn. lia. }
  replace (len (u +:+ "://" +:+ v) + 1 <? 2) with false
    by (symmetry; apply Z.ltb_ge; lia).
  replace (String.length (u +:+ "://" +:+ v) + 1)%nat
    with (S (String.length (u +:+ "://" +:+ v))) by lia.
  cbn [genSplit_loop Z.sub Z.add Z.opp Z.pos_sub Z.ltb Z.compare].
  rewrite Hidx.
  replace (len u <? 0) with false by (symmetry; apply Z.ltb_ge; lia).
  pose proof (slice_middle "" u ("://" +:+ v)) as Hs1.
  rewrite append_nil_l in Hs1. change (len "") with 0 in Hs1.
  rewrite Z.add_0_l in Hs1. rewrite Hs1.
  pose proof (slice_from_suffix (u +:+ "://") v) as Hs2.
  rewrite append_assoc, len_append in Hs2.
  change (len "://") with 3 in *. rewrite Hs2.
  f_equal. destruct (String.length _); reflexivity.
Qed.

(** What [SplitN] makes of a service address: one piece, or the text
    before a ["://"] and the text after it. *)
Lemma SplitN_scheme (s : string) :
  SplitN s "://" 2 = [s]
  \/ (exists u v, s = u +:+ "://" +:+ v /\ SplitN s "://" 2 = [u; v]).
Proof.
  destruct (decide (Index s "://" = -1)) as [Habs|Hfound].
  - left. now apply SplitN_absent.
  - right. destruct (Index_from_found s "://" 0 _ eq_refl Hfound)
      as (u & v & Hs & Hm).
    exists u, v. split; [exact Hs|]. subst s. apply SplitN_found.
    fold (Index (u +:+ "://" +:+ v) "://") in Hm. lia.
Qed.

End GoStringsSplitFacts.

(** ** The listener *)

Section ListenerFacts.

Context `{Host}.
Import GoStrings GoStringsFacts GoStringsSplit GoStringsSplitFacts.
Import Plugin.

Lemma getSflowConfig_set_Accumulator
    (acc : option TelegrafAccumulator) (sl : Listener) :
  getSflowConfig (set_Accumulator acc sl) = getSflowConfig sl.
Proof. reflexivity. Qed.

(** [Start] up to the split of the service address. *)
Lemma Start_split (sl : Listener) (acc : TelegrafAccumulator) (p : proc)
    (parser : SflowParser) :
  NewParser "sflow" (getSflowConfig sl) = Ok parser ->
  Start sl acc p
  = let sl1 := set_Parser (Some parser) (set_Accumulator (Some acc) sl) in
    match SplitN (ServiceAddress sl) "://" 2 with
    | [protocol; addr] =>
        let '(pc, p) := newUDPListener protocol addr p in
        match pc with
        | Err err => (Some err, sl1, p)
        | Ok pc =>
            let p :=
              if 0 <? ReadBufferSize sl then
                let '(_, e) :=
                  SetReadBuffer pc (ReadBufferSize sl) (henv p) in
                mkProc e (events p
                          ++ [CallSetReadBuffer pc (ReadBufferSize sl)])
              else p in
            (None, set_Closer (Some pc) sl1,
             mkProc (henv p) (events p ++ [GoListen pc]))
        end
    | _ => (Some ("invalid service address: " +:+ ServiceAddress sl), sl1, p)
    end.
Proof.
  intros Hparser. unfold Start.
  rewrite getSflowConfig_set_Accumulator, Hparser. reflexivity.
Qed.

(** X10.  [Start] on a service address without ["://"] in it returns
    the error "invalid service address: " followed by the address; it
    makes no operation on the network and starts no goroutine, and the
    listener has its accumulator and parser set and its [Closer] as
    before. *)
Theorem Start_invalid_service_address (sl : Listener)
    (acc : TelegrafAccumulator) (p : proc)
    (parser : SflowParser) :
  NewParser "sflow" (getSflowConfig sl) = Ok parser ->
  (forall u v, ServiceAddress sl <> u +:+ "://" +:+ v) ->
  Start sl acc p
  = (Some ("invalid service address: " +:+ ServiceAddress sl),
     set_Parser (Some parser) (set_Accumulator (Some acc) sl), p).
Proof.
  intros Hparser Habs. rewrite (Start_split sl acc p parser Hparser).
  rewrite SplitN_absent; [reflexivity|].
  now apply Index_from_absent.
Qed.

(** X11.  [Start] on a service address [P://R] whose protocol [P] has no
    colon in it and is none of [udp], [udp4] and [udp6] returns the
    error "unsupported network type " followed by [P]; it resolves no
    address, opens no socket and starts no goroutine. *)
Theorem Start_unsupported_network (sl : Listener)
    (acc : TelegrafAccumulator) (p : proc)
    (parser : SflowParser) (P R : string) :
  NewParser "sflow" (getSflowConfig sl) = Ok parser ->
  ServiceAddress sl = P +:+ "://" +:+ R ->
  no_colon P ->
  P ∉ ["udp"; "udp4"; "udp6"] ->
  Start sl acc p
  = (Some ("unsupported network type " +:+ P),
     set_Parser (Some parser) (set_Accumulator (Some acc) sl), p).
Proof.
  intros Hparser Haddr Hno Hnet.
  rewrite (Start_split sl acc p parser Hparser), Haddr.
  rewrite SplitN_found
    by (unfold Index; rewrite (Index_from_scheme P R 0 Hno); lia).
  cbv zeta. unfold newUDPListener.
  now rewrite bool_decide_eq_false_2 by exact Hnet.
Qed.

(** What [newUDPListener] leaves behind. *)
Lemma newUDPListener_events (network address : string) (p : proc) :
  match newUDPListener network address p with
  | (Err _, p') =>
      exists evs, events p' = (events p ++ evs)%list
                  /\ Forall leaves_nothing evs
  | (Ok pc, p') =>
      network ∈ ["udp"; "udp4"; "udp6"]
      /\ exists a,
           events p'
           = (events p ++ [CallResolveUDPAddr network address (Ok a);
                           CallListenUDP network a (Ok pc)])%list
  end.
Proof.
  unfold newUDPListener.
  destruct (decide (network ∈ ["udp"; "udp4"; "udp6"])) as [Hin|Hout].
  - rewrite bool_decide_eq_true_2 by exact Hin.
    destruct (ResolveUDPAddr network address (henv p)) as [[a|err] e1].
    + cbn [henv events].
      destruct (ListenUDP network a e1) as [[pc|err] e2]; cbn [events].
      * split; [exact Hin|]. exists a. now rewrite <- app_assoc.
      * eexists. rewrite <- app_assoc. split; [reflexivity|].
        repeat (apply Forall_cons; split; [exact I|]). apply Forall_nil_2.
    + cbn [events]. eexists. split; [reflexivity|].
      apply Forall_cons; split; [exact I|apply Forall_nil_2].
  - rewrite bool_decide_eq_false_2 by exact Hout.
    exists []. rewrite app_nil_r. split; [reflexivity|apply Forall_nil_2].
Qed.

(** [Start] when it returns [nil]. *)
Lemma Start_success (sl : Listener) (acc : TelegrafAccumulator) (p : proc)
    (sl' : Listener) (p' : proc) :
  Start sl acc p = (None, sl', p') ->
  exists protocol addr a pc parser,
    ServiceAddress sl = protocol +:+ "://" +:+ addr
    /\ protocol ∈ ["udp"; "udp4"; "udp6"]
    /\ NewParser "sflow" (getSflowConfig sl) = Ok parser
    /\ sl' = set_Closer (Some pc)
               (set_Parser (Some parser) (set_Accumulator (Some acc) sl))
    /\ events p'
       = (events p
          ++ [CallResolveUDPAddr protocol addr (Ok a);
              CallListenUDP protocol a (Ok pc)]
          ++ (if 0 <? ReadBufferSize sl
              then [CallSetReadBuffer pc (ReadBufferSize sl)] else [])
          ++ [GoListen pc])%list.
Proof.
  intros Hstart.
  destruct (NewParser "sflow" (getSflowConfig sl)) as [parser|err] eqn:Hp.
  - rewrite (Start_split sl acc p parser Hp) in Hstart. cbv zeta in Hstart.
    destruct (SplitN_scheme (ServiceAddress sl))
      as [Hone|(protocol & addr & Haddr & Htwo)].
    + rewrite Hone in Hstart. discriminate.
    + rewrite Htwo in Hstart.
      pose proof (newUDPListener_events protocol addr p) as Hev.
      destruct (newUDPListener protocol addr p) as [[pc|err] p1];
        [|discriminate].
      destruct Hev as (Hnet & a & Hev).
      exists protocol, addr, a, pc, parser.
      split; [exact Haddr|]. split; [exact Hnet|]. split; [reflexivity|].
      destruct (0 <? ReadBufferSize sl).
      * destruct (SetReadBuffer pc (ReadBufferSize sl) (henv p1))
          as [serr e2].
        injection Hstart as <- <-. cbn [events].
        split; [reflexivity|]. rewrite Hev, <- !app_assoc. reflexivity.
      * injection Hstart as <- <-. cbn [events].
        split; [reflexivity|]. rewrite Hev, <- !app_assoc. reflexivity.
  - unfold Start in Hstart.
    rewrite getSflowConfig_set_Accumulator, Hp in Hstart. discriminate.
Qed.

(** [Start] when it returns an error. *)
Lemma Start_failure (sl : Listener)
    (acc : TelegrafAccumulator) (p : proc) (err : string)
    (sl' : Listener) (p' : proc) :
  Start sl acc p = (Some err, sl', p') ->
  Closer sl' = Closer sl
  /\ exists evs, events p' = (events p ++ evs)%list
                 /\ Forall leaves_nothing evs.
Proof.
  intros Hstart.
  destruct (NewParser "sflow" (getSflowConfig sl)) as [parser|perr] eqn:Hp.
  - rewrite (Start_split sl acc p parser Hp) in Hstart. cbv zeta in Hstart.
    destruct (SplitN_scheme (ServiceAddress sl))
      as [Hone|(protocol & addr & Haddr & Htwo)].
    + rewrite Hone in Hstart. injection Hstart as _ <- <-.
      split; [reflexivity|]. exists []. rewrite app_nil_r.
      split; [reflexivity|apply Forall_nil_2].
    + rewrite Htwo in Hstart.
      pose proof (newUDPListener_events protocol addr p) as Hev.
      destruct (newUDPListener protocol addr p) as [[pc|nerr] p1].
      * destruct (0 <? ReadBufferSize sl);
          [destruct (SetReadBuffer pc (ReadBufferSize sl) (henv p1))|];
          discriminate.
      * injection Hstart as _ <- <-. now split.
  - unfold Start in Hstart.
    rewrite getSflowConfig_set_Accumulator, Hp in Hstart.
    injection Hstart as _ <- <-. split; [reflexivity|].
    exists []. rewrite app_nil_r. split; [reflexivity|apply Forall_nil_2].
Qed.

(** X12.  [Start] is all or nothing.  When it returns an error, the
    [Closer] of the listener is as before, no goroutine was started and
    nothing was left open: at most an address was resolved and an
    attempt to listen failed.  When it returns [nil], the service
    address is [P://R] with [P] one of [udp], [udp4] and [udp6]; one
    address was resolved from [P] and [R], one connection was opened on
    it, its read buffer was set if and only if a positive size is
    configured, one goroutine was started on that connection, and that
    connection is the [Closer] of the listener.  In both cases the
    accumulator of the listener is the one passed in. *)
Theorem Start_all_or_nothing (sl : Listener)
    (acc : TelegrafAccumulator) (p : proc)
    (err : error) (sl' : Listener) (p' : proc) :
  Start sl acc p = (err, sl', p') ->
  Accumulator sl' = Some acc
  /\ ServiceAddress sl' = ServiceAddress sl
  /\ match err with
     | Some _ =>
         Closer sl' = Closer sl
         /\ exists evs, events p' = (events p ++ evs)%list
                        /\ Forall leaves_nothing evs
     | None =>
         exists P R a pc,
           ServiceAddress sl = P +:+ "://" +:+ R
           /\ P ∈ ["udp"; "udp4"; "udp6"]
           /\ Closer sl' = Some pc
           /\ is_Some (Parser sl')
           /\ events p'
              = (events p
                 ++ [CallResolveUDPAddr P R (Ok a);
                     CallListenUDP P a (Ok pc)]
                 ++ (if 0 <? ReadBufferSize sl
                     then [CallSetReadBuffer pc (ReadBufferSize sl)]
                     else [])
                 ++ [GoListen pc])%list
     end.
Proof.
  intros Hstart.
  assert (Hacc : Accumulator sl' = Some acc
                 /\ ServiceAddress sl' = ServiceAddress sl).
  { unfold Start in Hstart.
    destruct (NewParser _ _); [|now injection Hstart as _ <- _].
    cbn [ServiceAddress set_Parser set_Accumulator] in Hstart.
    destruct (SplitN _ _ _) as [|s1 [|s2 [|s3 l]]];
      try (now injection Hstart as _ <- _).
    destruct (newUDPListener s1 s2 p) as [[pc|nerr] p1];
      [|now injection Hstart as _ <- _].
    now injection Hstart as _ <- _. }
  destruct Hacc as [Hacc Haddr]. split; [exact Hacc|].
  split; [exact Haddr|].
  destruct err as [err|].
  - now apply (Start_failure sl acc p err).
  - destruct (Start_success sl acc p sl' p' Hstart)
      as (P & R & a & pc & parser & Hsa & Hnet & _ & -> & Hev).
    exists P, R, a, pc. cbn [Closer Parser set_Closer set_Parser]. eauto 6.
Qed.

Lemma Stop_open (sl : Listener) (p : proc) (pc : UDPConn) :
  Closer sl = Some pc ->
  Stop sl p
  = (set_Closer None sl,
     mkProc (snd (Close pc (henv p))) (events p ++ [CallClose pc])).
Proof.
  intros Hc. unfold Stop. rewrite Hc.
  now destruct (Close pc (henv p)).
Qed.

Lemma Stop_closed (sl : Listener) (p : proc) :
  Closer sl = None -> Stop sl p = (sl, p).
Proof. intros Hc. unfold Stop. now rewrite Hc. Qed.

(** X13.  After a [Start] that returned [nil], [Stop] closes the
    connection that [Start] opened and started the goroutine on, once,
    and leaves the listener without [Closer]; a second [Stop] does
    nothing at all. *)
Theorem Stop_closes_what_Start_opened (sl : Listener)
    (acc : TelegrafAccumulator) (p : proc)
    (sl1 : Listener) (p1 : proc) :
  Start sl acc p = (None, sl1, p1) ->
  exists pc evs,
    events p1 = (events p ++ evs ++ [GoListen pc])%list
    /\ (CallClose pc ∉ evs)
    /\ events (snd (Stop sl1 p1)) = (events p1 ++ [CallClose pc])%list
    /\ Closer (fst (Stop sl1 p1)) = None
    /\ Stop (fst (Stop sl1 p1)) (snd (Stop sl1 p1)) = Stop sl1 p1.
Proof.
  intros Hstart.
  destruct (Start_success sl acc p sl1 p1 Hstart)
    as (P & R & a & pc & parser & _ & _ & _ & Hsl1 & Hev).
  assert (Hc : Closer sl1 = Some pc) by (rewrite Hsl1; reflexivity).
  exists pc.
  exists ([CallResolveUDPAddr P R (Ok a); CallListenUDP P a (Ok pc)]
          ++ (if 0 <? ReadBufferSize sl
              then [CallSetReadBuffer pc (ReadBufferSize sl)] else []))%list.
  split; [rewrite Hev, <- !app_assoc; reflexivity|].
  split.
  { intros Hin. apply elem_of_app in Hin as [Hin|Hin].
    - apply elem_of_cons in Hin as [Hin|Hin]; [discriminate|].
      apply elem_of_cons in Hin as [Hin|Hin]; [discriminate|].
      now apply elem_of_nil in Hin.
    - destruct (0 <? ReadBufferSize sl).
      + apply elem_of_cons in Hin as [Hin|Hin]; [discriminate|].
        now apply elem_of_nil in Hin.
      + now apply elem_of_nil in Hin. }
  rewrite (Stop_open sl1 p1 pc Hc). cbn [fst snd events].
  split; [reflexivity|]. split; [reflexivity|].
  apply Stop_closed. reflexivity.
Qed.

(** Processing the packets read without error, in order. *)
Lemma listen_packets (bufs : list string) (rest : list (string * error)) :
  forall st,
    listen (packets bufs ++ rest) st
    = listen rest (fold_left (fun st buf => process buf st) bufs st).
Proof.
  induction bufs as [|buf bufs IH]; intros st; [reflexivity|].
  cbn [packets map app listen fold_left]. apply IH.
Qed.

(** X14.  [listen] has every packet that was read without error
    processed, in the order read, until the first read that fails: then
    it reports the error to the accumulator, unless the text of the
    error ends in ": use of closed network connection", and returns,
    reading no more.  A packet that fails to parse does not end the
    loop.  While no read fails it does not return. *)
Theorem listen_until_first_error (bufs : list string) (buf : string)
    (err : string) (rest : list (string * error))
    (st : SflowParser * TelegrafAccumulator) :
  let st' := fold_left (fun st buf => process buf st) bufs st in
  listen (packets bufs ++ (buf, Some err) :: rest) st
  = (true,
     if HasSuffix err ": use of closed network connection" then st'
     else (fst st', AddError err (snd st')))
  /\ listen (packets bufs) st = (false, st').
Proof.
  cbv zeta. split.
  - rewrite listen_packets. cbn [listen].
    now destruct (HasSuffix err _).
  - rewrite <- (app_nil_r (packets bufs)), listen_packets. reflexivity.
Qed.

End ListenerFacts.

Import ScriptedRuns.

(** ** The properties of runs, on the lab network *)

Lemma flow_final_reachable :
  reachable (resolver_on net_lab identity) (60 * second) (60 * second)
            (boot net_lab 0%nat) flow_final.
Proof.
  exists flow_start, flow_schedule.
  split; [reflexivity | vm_compute; reflexivity].
Qed.

Lemma flow_final_call : sys_calls flow_final !! 0%nat = Some flow_call.
Proof. vm_compute. reflexivity. Qed.

Lemma flow_call_fired : m flow_call ∈ fired (or flow_call).
Proof.
  destruct (reachable_call_inv _ _ _ _ _ _ _ flow_final_reachable
              flow_final_call) as (_ & _ & Hfired & _).
  assert (Hdone : call_done flow_call = true) by (vm_compute; reflexivity).
  rewrite Hdone in Hfired. rewrite Hfired. apply list_elem_of_here.
Qed.

(** X1 on the run [flow_schedule]: the source address is as it came in,
    and so is the destination tag [dst_host], for which the record has
    no source tag. *)
Lemma record_changes_only_where_asked_witness :
  m flow_call !! "src_ip" = Some "10.0.0.2"
  /\ m flow_call !! "src_host" = Some "host2.example.com."
  /\ m flow_call !! "dst_host" = m0 flow_call !! "dst_host".
Proof.
  destruct (@record_changes_only_where_asked RE2Fragment.pkg (@Net net_lab)
              (60 * second) (60 * second) (resolver_on net_lab identity)
              (boot net_lab 0%nat) flow_final 0%nat flow_call "src_ip"
              flow_final_reachable flow_final_call) as [Hsrc _].
  { left. apply (bool_decide_unpack _). vm_compute. exact I. }
  destruct (@record_changes_only_where_asked RE2Fragment.pkg (@Net net_lab)
              (60 * second) (60 * second) (resolver_on net_lab identity)
              (boot net_lab 0%nat) flow_final 0%nat flow_call "dst_host"
              flow_final_reachable flow_final_call) as [Hdst _].
  { right. intros [v d|v a d]; cbn [asked_for job_dst].
    - intros (_ & src & Hp & Hv) ->. unfold dns_pairs in Hp.
      rewrite !elem_of_cons, elem_of_nil in Hp.
      destruct Hp as [Hp|[Hp|[Hp|[]]]]; try discriminate Hp.
      injection Hp as ->. vm_compute in Hv. discriminate Hv.
    - intros (_ & _ & src & Hp & _) ->. unfold iface_pairs in Hp.
      rewrite !elem_of_cons, elem_of_nil in Hp.
      destruct Hp as [Hp|[Hp|[Hp|[]]]]; discriminate Hp. }
  split; [rewrite Hsrc; vm_compute; reflexivity|].
  split; [vm_compute; reflexivity|exact Hdst].
Defined.

(** X2 on the run [flow_schedule]: three jobs were sent, those the
    record asks for. *)
Lemma jobs_sent_follow_the_record_witness :
  submitted flow_call
  = expected_jobs (resolver_on net_lab identity) (m0 flow_call)
  /\ submitted flow_call
     = [DNSJob "10.0.0.1" "host"; DNSJob "10.0.0.2" "src_host";
        IFaceJob "3" "10.0.0.1" "source_id_name"].
Proof.
  destruct (@jobs_sent_follow_the_record RE2Fragment.pkg (@Net net_lab)
              (60 * second) (60 * second) (resolver_on net_lab identity)
              (boot net_lab 0%nat) flow_final 0%nat flow_call
              flow_final_reachable flow_final_call) as (_ & Hall & _).
  split; [apply Hall; vm_compute; lia|]. vm_compute. reflexivity.
Defined.

(** X3 on the run [flow_schedule]: the record handed to the callback
    has the name of the source address and the name of the interface. *)
Lemma callback_record_is_resolved_witness :
  is_Some (m flow_call !! "src_host")
  /\ is_Some (m flow_call !! "source_id_name").
Proof.
  destruct (@callback_record_is_resolved RE2Fragment.pkg (@Net net_lab)
              (60 * second) (60 * second) (resolver_on net_lab identity)
              (boot net_lab 0%nat) flow_final 0%nat flow_call (m flow_call)
              flow_final_reachable flow_final_call flow_call_fired)
    as [Hdns Hiface].
  split.
  - apply (Hdns eq_refl ("src_ip", "src_host")).
    + unfold dns_pairs. apply list_elem_of_further, list_elem_of_here.
    + vm_compute. eauto.
  - apply (Hiface eq_refl) with (p := ("source_id_index", "source_id_name")).
    + vm_compute. eauto.
    + unfold iface_pairs. apply list_elem_of_here.
    + vm_compute. eauto.
Defined.

(** X4 on the lab network: the name of 10.0.0.2 is cached, the ticker
    fires, and the address reads as not cached. *)
Lemma dns_tick_forgets_every_name_witness :
  cache.get (dnsCache (sys_world flow_cached)) "10.0.0.2"
  = "host2.example.com."
  /\ step (resolver_on net_lab identity) TickDNS flow_cached
     = Some flow_dns_ticked
  /\ cache.get (dnsCache (sys_world flow_dns_ticked)) "10.0.0.2" = "".
Proof.
  assert (Hstep : step (resolver_on net_lab identity) TickDNS flow_cached
                  = Some flow_dns_ticked) by (vm_compute; reflexivity).
  split; [vm_compute; reflexivity|]. split; [exact Hstep|].
  exact (proj1 (@dns_tick_forgets_every_name RE2Fragment.pkg (@Net net_lab)
                  (resolver_on net_lab identity) flow_cached flow_dns_ticked
                  "10.0.0.2" Hstep)).
Defined.

(** X5 on the lab network: the name of interface 3 is cached, the
    ticker fires, and the pair reads as not cached. *)
Lemma iface_tick_forgets_every_name_witness :
  cache.get (ifaceCache (sys_world flow_final)) (ifaceKey "10.0.0.1" "3")
  = "eth1"
  /\ step (resolver_on net_lab identity) TickIFace flow_final
     = Some flow_iface_ticked
  /\ cache.get (ifaceCache (sys_world flow_iface_ticked))
               (ifaceKey "10.0.0.1" "3") = "".
Proof.
  assert (Hstep : step (resolver_on net_lab identity) TickIFace flow_final
                  = Some flow_iface_ticked) by (vm_compute; reflexivity).
  split; [vm_compute; reflexivity|]. split; [exact Hstep|].
  exact (proj1 (@iface_tick_forgets_every_name RE2Fragment.pkg
                  (@Net net_lab) (resolver_on net_lab identity) flow_final
                  flow_iface_ticked "3" "10.0.0.1" Hstep)).
Defined.


(** X7 on a resolver started with both TTLs zero: the name found for
    interface 7 is still cached after [stop] and another record. *)
Lemma zero_ttl_never_expires_witness :
  run (resolver_on net_down identity) blank_agent_later_schedule
      blank_agent_final = Some blank_agent_later
  /\ cache.get (ifaceCache (sys_world blank_agent_final)) (ifaceKey "" "7")
     = "7"
  /\ cache.get (ifaceCache (sys_world blank_agent_later)) (ifaceKey "" "7")
     = "7".
Proof.
  assert (Hrun : run (resolver_on net_down identity)
                     blank_agent_later_schedule blank_agent_final
                 = Some blank_agent_later) by (vm_compute; reflexivity).
  assert (Hget : cache.get (ifaceCache (sys_world blank_agent_final))
                           (ifaceKey "" "7") = "7")
    by (vm_compute; reflexivity).
  split; [exact Hrun|]. split; [exact Hget|].
  destruct (@zero_ttl_never_expires RE2Fragment.pkg (@Net net_down) 0 0
              (resolver_on net_down identity) (boot net_down 0%nat)
              blank_agent_start blank_agent_schedule
              blank_agent_later_schedule blank_agent_final
              blank_agent_later) as [_ Hiface];
    [reflexivity | vm_compute; reflexivity | exact Hrun |].
  rewrite (Hiface eq_refl (ifaceKey "" "7")); [exact Hget|].
  rewrite Hget. discriminate.
Defined.

(** X8 on the run [flow_schedule]: the address of the agent is in the
    DNS cache, and was handed to the backend. *)
Lemma cache_entries_come_from_backend_witness :
  dnsCache (sys_world flow_final) !! "10.0.0.1" = Some "10.0.0.1"
  /\ CallIpToFqdn "10.0.0.1" ∈ history (sys_world flow_final).
Proof.
  assert (Hin : dnsCache (sys_world flow_final) !! "10.0.0.1"
                = Some "10.0.0.1") by (vm_compute; reflexivity).
  split; [exact Hin|].
  apply (@cache_entries_come_from_backend RE2Fragment.pkg (@Net net_lab)
           (60 * second) (60 * second) (resolver_on net_lab identity)
           (boot net_lab 0%nat) flow_final flow_final_reachable).
  rewrite Hin. eauto.
Defined.

(** X9 on the lab network: a walk with the community [private], then a
    walk of another agent with the empty community. *)
Lemma empty_community_reuses_the_last_witness :
  let n1 := snd (@ifIndexToIfName net_lab 1 "private" "10.0.0.1" "3"
                   (boot net_lab 0%nat)) in
  Default n1 = mkGoSNMP "10.0.0.1" "private" (20 * second) 5
  /\ Default (snd (@ifIndexToIfName net_lab 2 "" "10.0.0.9" "2" n1))
     = mkGoSNMP "10.0.0.9" "private" (20 * second) 5
  /\ @ifIndexToIfName net_lab 2 "" "10.0.0.9" "2" n1
     = @ifIndexToIfName net_lab 2 "private" "10.0.0.9" "2" n1.
Proof.
  apply (@empty_community_reuses_the_last net_lab 1 2 "private" "10.0.0.1"
           "3" "10.0.0.9" "2" (boot net_lab 0%nat)).
  discriminate.
Defined.

(** X15 on the lab network, with a record that has three source tags. *)
Lemma disabled_resolver_passes_through_witness :
  run resolver_off off_schedule flow_start = Some off_final
  /\ history (sys_world off_final) = []
  /\ (forall i c,
        sys_calls off_final !! i = Some c ->
        m c = m0 c /\ submitted c = []
        /\ fired (or c) = if (pc c =? 8)%nat then [m0 c] else []).
Proof.
  assert (Hrun : run resolver_off off_schedule flow_start = Some off_final)
    by (vm_compute; reflexivity).
  split; [exact Hrun|].
  apply (@disabled_resolver_passes_through RE2Fragment.pkg (@Net net_lab)
           (60 * second) (60 * second) resolver_off (boot net_lab 0%nat)
           off_final); [reflexivity | reflexivity |].
  exists flow_start, off_schedule. split; [reflexivity|exact Hrun].
Defined.

(** ** The listener, on the scripted host *)

(** X10 at the address [localhost:6343]. *)
Lemma Start_invalid_service_address_witness :
  @Plugin.Start ScriptedHost.host
    (ScriptedHost.configured "localhost:6343" 0) [] ScriptedHost.boot
  = (Some "invalid service address: localhost:6343",
     @Plugin.set_Parser ScriptedHost.host
       (Some (sflowparser.mkV5FormatOptions 10 10 10 1024 256 256))
       (@Plugin.set_Accumulator ScriptedHost.host (Some [])
          (ScriptedHost.configured "localhost:6343" 0)),
     ScriptedHost.boot).
Proof.
  apply (@Start_invalid_service_address ScriptedHost.host
           (ScriptedHost.configured "localhost:6343" 0) []
           ScriptedHost.boot
           (sflowparser.mkV5FormatOptions 10 10 10 1024 256 256)).
  - reflexivity.
  - intros u v E.
    apply (GoStringsSplitFacts.Index_from_present u "://" v 0); [lia|].
    cbn [Plugin.ServiceAddress ScriptedHost.configured] in E.
    rewrite <- E. vm_compute. reflexivity.
Defined.

(** X11 at the address [tcp://:6343]. *)
Lemma Start_unsupported_network_witness :
  @Plugin.Start ScriptedHost.host
    (ScriptedHost.configured "tcp://:6343" 0) [] ScriptedHost.boot
  = (Some "unsupported network type tcp",
     @Plugin.set_Parser ScriptedHost.host
       (Some (sflowparser.mkV5FormatOptions 10 10 10 1024 256 256))
       (@Plugin.set_Accumulator ScriptedHost.host (Some [])
          (ScriptedHost.configured "tcp://:6343" 0)),
     ScriptedHost.boot).
Proof.
  apply (@Start_unsupported_network ScriptedHost.host
           (ScriptedHost.configured "tcp://:6343" 0) []
           ScriptedHost.boot
           (sflowparser.mkV5FormatOptions 10 10 10 1024 256 256)
           "tcp" ":6343").
  - reflexivity.
  - reflexivity.
  - apply (bool_decide_unpack _). vm_compute. exact I.
  - apply (bool_decide_unpack _). vm_compute. exact I.
Defined.

(** X12 at the address [udp://:6343] with a read buffer of 64 KiB: one
    connection, number 0, is opened, its buffer is set, and the
    goroutine is started on it. *)
Lemma Start_all_or_nothing_witness :
  let started :=
    @Plugin.Start ScriptedHost.host
      (ScriptedHost.configured "udp://:6343" 65536) [] ScriptedHost.boot in
  fst (fst started) = None
  /\ Plugin.Accumulator (snd (fst started)) = Some []
  /\ Plugin.Closer (snd (fst started)) = Some 0%nat
  /\ Plugin.events (snd started)
     = [@Plugin.CallResolveUDPAddr ScriptedHost.host "udp" ":6343"
          (Ok ("udp", ":6343"));
        @Plugin.CallListenUDP ScriptedHost.host "udp" ("udp", ":6343")
          (Ok 0%nat);
        @Plugin.CallSetReadBuffer ScriptedHost.host 0%nat 65536;
        @Plugin.GoListen ScriptedHost.host 0%nat].
Proof.
  intros started.
  destruct (@Start_all_or_nothing ScriptedHost.host
              (ScriptedHost.configured "udp://:6343" 65536) []
              ScriptedHost.boot (fst (fst started)) (snd (fst started))
              (snd started)) as (Hacc & _ & _).
  { subst started. now destruct (Plugin.Start _ _ _) as [[err sl'] p']. }
  split; [vm_compute; reflexivity|]. split; [exact Hacc|].
  split; vm_compute; reflexivity.
Defined.

(** X13 at the address [udp://:6343]: [Stop] closes connection 0. *)
Lemma Stop_closes_what_Start_opened_witness :
  let sl1 := snd (fst (@Plugin.Start ScriptedHost.host
                         (ScriptedHost.configured "udp://:6343" 0) []
                         ScriptedHost.boot)) in
  let p1 := snd (@Plugin.Start ScriptedHost.host
                   (ScriptedHost.configured "udp://:6343" 0) []
                   ScriptedHost.boot) in
  exists pc evs,
    Plugin.events p1
    = (Plugin.events ScriptedHost.boot ++ evs ++ [Plugin.GoListen pc])%list
    /\ (Plugin.CallClose pc ∉ evs)
    /\ Plugin.events (snd (Plugin.Stop sl1 p1))
       = (Plugin.events p1 ++ [Plugin.CallClose pc])%list
    /\ Plugin.Closer (fst (Plugin.Stop sl1 p1)) = None
    /\ Plugin.Stop (fst (Plugin.Stop sl1 p1)) (snd (Plugin.Stop sl1 p1))
       = Plugin.Stop sl1 p1.
Proof.
  cbv zeta.
  apply (@Stop_closes_what_Start_opened ScriptedHost.host
           (ScriptedHost.configured "udp://:6343" 0) []
           ScriptedHost.boot).
  vm_compute. reflexivity.
Defined.
